(** * Folder-size cache of the S3 gateway (MinIO.py, main.py)

    A shallow embedding of the Python sources.

    - Python [str] is Rocq's [string] (8-bit code points).
    - Python values are [pyval]s.  An [int] is a [Z]; a finite [float]
      is modelled by the rational number it denotes ([Q]), with the
      infinities and nan as values of their own; the other values
      [json.load] can place in the cache (bool, None, str, list, dict)
      are values too.  The rounding steps the code performs are written
      out: the implicit int-to-float conversion of [bytes /= 1024.0] in
      [float_of_int] (53-bit significand, round half to even,
      OverflowError from 2^1024 on) and the float sum [time() + 900] in
      [add_float].  Dividing a float that is at least 1024 by 1024.0 is
      exact.
    - A [dict] is a [gmap]; the cache dict is mutated in place by the
      source, which the embedding renders by threading the map.
    - Exceptions of class [Exception] are the [Raise] results of the
      [res] monad; [Timeout] marks an exhausted recursion budget and is
      shown never to occur.  [SystemExit], which [except Exception] does
      not catch, is kept apart ([run]).
    - The object store is an external service: its delimiter listing is
      modelled from the specification ([list_objects_v2]).  The walk of
      the cache is modelled over a store that answers every listing in
      full; whether the store can be reached at all while the cache is
      rebuilt and whether the bucket's JSON file can be written are
      parameters of [refresh_cache]; the gateway methods take the outcome
      of each SDK call, a response or an exception, as a parameter.
    - Every call of [time()] has its own reading: [now] in
      [refresh_cache], [now] and the later [refreshed] in [load_cache].
      Python's recursion limit is not modelled. *)

From Stdlib Require Import ZArith QArith String Ascii List Lia DecimalString.
From stdpp Require Import gmap strings list fin_maps.

Open Scope string_scope.
Open Scope Z_scope.

(** ** Results and exceptions *)

Module Exn.

(** The exceptions of class [Exception] the code meets. *)
Inductive exn : Type :=
  | OverflowError
  | IndexError
  | KeyError (key : string)
  | JSONDecodeError
  | OSError
  | ClientError (msg : string)
  | TypeError (msg : string)
  | ValueError (msg : string).

End Exn.

Export Exn.

Inductive res (A : Type) : Type :=
  | Ok (a : A)
  | Raise (e : exn)
  | Timeout.

Arguments Ok {A} a.
Arguments Raise {A} e.
Arguments Timeout {A}.

#[global] Instance res_ret : MRet res := fun A a => Ok a.
#[global] Instance res_bind : MBind res := fun A B k m =>
  match m with
  | Ok a => k a
  | Raise e => Raise e
  | Timeout => Timeout
  end.

(** [str(e)] *)
Definition str_exn (e : exn) : string :=
  match e with
  | OverflowError => "int too large to convert to float"
  | IndexError => "list index out of range"
  | KeyError k => "'" +:+ k +:+ "'"
  | JSONDecodeError => "Expecting value"
  | OSError => "Permission denied"
  | ClientError msg => msg
  | TypeError msg => msg
  | Exn.ValueError msg => msg
  end.

(** [for x in xs: state = body(x, state)], stopping at the first exception. *)
Fixpoint for_each {A S : Type} (xs : list A) (body : A -> S -> res S) (s : S)
  : res S :=
  match xs with
  | [] => Ok s
  | x :: xs' => s' ← body x s; for_each xs' body s'
  end.

(** ** Python strings *)

Module PyStr.

(** [s.startswith(p)] *)
Fixpoint startswith (p s : string) : bool :=
  match p, s with
  | EmptyString, _ => true
  | String a p', String b s' => if Ascii.eqb a b then startswith p' s' else false
  | String _ _, EmptyString => false
  end.

(** [s[n:]] *)
Fixpoint drop (n : nat) (s : string) : string :=
  match n, s with
  | O, _ => s
  | S n', String _ s' => drop n' s'
  | S _, EmptyString => EmptyString
  end.

(** [s[:-1]] *)
Fixpoint drop_last (s : string) : string :=
  match s with
  | EmptyString => EmptyString
  | String _ EmptyString => EmptyString
  | String c s' => String c (drop_last s')
  end.

(** [new] placed before every character and at the end: what
    [s.replace('', new)] returns. *)
Fixpoint interleave (new s : string) : string :=
  match s with
  | EmptyString => new
  | String c s' => new +:+ String c (interleave new s')
  end.

(** Left-to-right scan of [s.replace(old, new)] for a non-empty [old];
    [skip] counts the characters of the current match still to be
    consumed, so matches do not overlap. *)
Fixpoint replace_scan (old new : string) (skip : nat) (s : string) : string :=
  match s with
  | EmptyString => EmptyString
  | String c s' =>
      match skip with
      | S k => replace_scan old new k s'
      | O =>
          if startswith old s
          then new +:+ replace_scan old new (String.length old - 1) s'
          else String c (replace_scan old new O s')
      end
  end.

(** [s.replace(old, new)] *)
Definition replace (s old new : string) : string :=
  match old with
  | EmptyString => interleave new s
  | _ => replace_scan old new O s
  end.

(** [s.split(sep)] for a one-character separator; [cur] is the piece
    being read. *)
Fixpoint split_scan (sep : ascii) (cur : string) (s : string) : list string :=
  match s with
  | EmptyString => [cur]
  | String c s' =>
      if Ascii.eqb c sep
      then cur :: split_scan sep EmptyString s'
      else split_scan sep (cur +:+ String c EmptyString) s'
  end.

Definition split (s : string) (sep : ascii) : list string :=
  split_scan sep EmptyString s.

(** [xs[:-1]] on lists *)
Definition init {A} (xs : list A) : list A := removelast xs.

(** [parts[-1]] for the result of a split, which is never empty *)
Definition last_part (parts : list string) : string :=
  List.last parts EmptyString.

(** [sep in s] for a character *)
Fixpoint contains (sep : ascii) (s : string) : bool :=
  match s with
  | EmptyString => false
  | String c s' => if Ascii.eqb c sep then true else contains sep s'
  end.

(** [s[: s.index(sep) + 1]]: up to and including the first [sep]. *)
Fixpoint through (sep : ascii) (s : string) : string :=
  match s with
  | EmptyString => EmptyString
  | String c s' =>
      if Ascii.eqb c sep then String c EmptyString
      else String c (through sep s')
  end.

(** [s.endswith(sep)] for a character *)
Fixpoint endswith (sep : ascii) (s : string) : bool :=
  match s with
  | EmptyString => false
  | String c EmptyString => Ascii.eqb c sep
  | String _ s' => endswith sep s'
  end.

(** [s.count(sep)] for a character *)
Fixpoint count (sep : ascii) (s : string) : nat :=
  match s with
  | EmptyString => O
  | String c s' => if Ascii.eqb c sep then S (count sep s') else count sep s'
  end.

End PyStr.

(** ** Python values *)

(** The values the code handles as numbers, and those [json.load] can
    return besides. *)
#[warnings="-register-all"] Inductive pyval : Type :=
  | PInt (n : Z)
  | PFloat (x : Q)
  | PInf (negative : bool)
  | PNaN
  | PBool (b : bool)
  | PNone
  | PStr (s : string)
  | PList (items : list pyval)
  | PDict (members : gmap string pyval).

(** [type(v).__name__] *)
Definition type_name (v : pyval) : string :=
  match v with
  | PInt _ => "int"
  | PFloat _ | PInf _ | PNaN => "float"
  | PBool _ => "bool"
  | PNone => "NoneType"
  | PStr _ => "str"
  | PList _ => "list"
  | PDict _ => "dict"
  end.

Module PyNum.

Definition significand_bits : Z := 53.
Definition max_exponent : Z := 1024.

(** Magnitude of [float(a)] for [a >= 0]: the nearest value with a
    53-bit significand, ties to even. *)
Definition round_to_double (a : Z) : Z :=
  let bits := Z.log2 a + 1 in
  if bits <=? significand_bits then a
  else
    let shift := bits - significand_bits in
    let q := a / 2 ^ shift in
    let r := a mod 2 ^ shift in
    let half := 2 ^ (shift - 1) in
    let q' := if (half <? r) || ((r =? half) && Z.odd q) then q + 1 else q in
    q' * 2 ^ shift.

(** The conversion Python applies to an int operand of [/] or of a
    float format: OverflowError when the rounded value reaches 2^1024. *)
Definition float_of_int (n : Z) : res Q :=
  let v := round_to_double (Z.abs n) in
  if 2 ^ max_exponent <=? v then Raise OverflowError
  else Ok (inject_Z (Z.sgn n * v)).

(** The float nearest to the rational [x], ties to even: the result of
    a float operation whose exact value is [x], for a value in the
    normal range of the format.  [l] is the exponent of [|x|],
    2^l <= |x| < 2^(l+1), and [e] the exponent of its last place. *)
Definition round_float (x : Q) : Q :=
  let a := Z.abs (Qnum x) in
  let b := Z.pos (Qden x) in
  if a =? 0 then 0%Q
  else
    let k := Z.log2 a - Z.log2 b in
    let l := if b * 2 ^ Z.max 0 k <=? a * 2 ^ Z.max 0 (- k) then k else k - 1 in
    let e := l + 1 - significand_bits in
    let num := a * 2 ^ Z.max 0 (- e) in
    let den := b * 2 ^ Z.max 0 e in
    let q := num / den in
    let r := num mod den in
    let m := if (den <? 2 * r) || ((2 * r =? den) && Z.odd q) then q + 1 else q in
    (inject_Z (Z.sgn (Qnum x) * m * 2 ^ Z.max 0 e)
       / inject_Z (2 ^ Z.max 0 (- e)))%Q.

(** [x + n] for a float [x] and an int [n] that converts to a float
    exactly *)
Definition add_float (x : Q) (n : Z) : Q :=
  round_float (x + inject_Z n)%Q.

(** [v == 0] *)
Definition is_zero (v : pyval) : bool :=
  match v with
  | PInt n => n =? 0
  | PFloat x => Qeq_bool x 0
  | PBool b => negb b
  | _ => false
  end.

(** [v >= 1024] *)
Definition ge_1024 (v : pyval) : res bool :=
  match v with
  | PInt n => Ok (1024 <=? n)
  | PFloat x => Ok (Qle_bool (inject_Z 1024) x)
  | PInf negative => Ok (negb negative)
  | PNaN => Ok false
  | PBool _ => Ok false
  | _ => Raise (TypeError ("'>=' not supported between instances of '"
                             +:+ type_name v +:+ "' and 'int'"))
  end.

(** [v < b] for a float [b]; an int is compared by its exact value. *)
Definition lt_num (v : pyval) (b : Q) : res bool :=
  match v with
  | PInt n => Ok (negb (Qle_bool b (inject_Z n)))
  | PFloat x => Ok (negb (Qle_bool b x))
  | PInf negative => Ok negative
  | PNaN => Ok false
  | PBool t => Ok (negb (Qle_bool b (inject_Z (Z.b2z t))))
  | _ => Raise (TypeError ("'<' not supported between instances of '"
                             +:+ type_name v +:+ "' and 'float'"))
  end.

(** [v / 1024.0] *)
Definition div_1024 (v : pyval) : res pyval :=
  match v with
  | PInt n => x ← float_of_int n; Ok (PFloat (x / inject_Z 1024)%Q)
  | PFloat x => Ok (PFloat (x / inject_Z 1024)%Q)
  | PInf _ | PNaN => Ok v
  | PBool t => Ok (PFloat (inject_Z (Z.b2z t) / inject_Z 1024)%Q)
  | _ => Raise (TypeError ("unsupported operand type(s) for /=: '"
                             +:+ type_name v +:+ "' and 'float'"))
  end.

Definition decimal (n : Z) : string :=
  NilZero.string_of_uint (N.to_uint (Z.to_N n)).

Definition two_digits (n : Z) : string :=
  if n <? 10 then "0" +:+ decimal n else decimal n.

(** Hundredths of [|x|], rounded half to even on the exact value. *)
Definition cents (x : Q) : Z :=
  let a := Z.abs (Qnum x) * 100 in
  let b := Z.pos (Qden x) in
  let q := a / b in
  let r := a mod b in
  if (b <? 2 * r) || ((2 * r =? b) && Z.odd q) then q + 1 else q.

(** [f"{x:.2f}"] for a finite float *)
Definition format_2f_float (x : Q) : string :=
  let c := cents x in
  (if Qnum x <? 0 then "-" else "")
    +:+ decimal (c / 100) +:+ "." +:+ two_digits (c mod 100).

(** [f"{v:.2f}"]: an int is converted to float first. *)
Definition format_2f (v : pyval) : res string :=
  match v with
  | PInt n => x ← float_of_int n; Ok (format_2f_float x)
  | PFloat x => Ok (format_2f_float x)
  | PInf negative => Ok (if negative then "-inf" else "inf")
  | PNaN => Ok "nan"
  | PBool t => Ok (format_2f_float (inject_Z (Z.b2z t)))
  | PStr _ => Raise (Exn.ValueError "Unknown format code 'f' for object of type 'str'")
  | _ => Raise (TypeError ("unsupported format string passed to "
                             +:+ type_name v +:+ ".__format__"))
  end.

End PyNum.

(** ** human_readable_size *)

Definition units : list string :=
  ["B"; "KB"; "MB"; "GB"; "TB"; "PB"; "EB"; "ZB"; "YB"].

(** [units[i]] *)
Definition units_at (i : nat) : res string :=
  match nth_error units i with
  | Some u => Ok u
  | None => Raise IndexError
  end.

(** The [while bytes >= 1024 and i < len(units) - 1] loop; [fuel] bounds
    the number of iterations. *)
Fixpoint size_loop (fuel : nat) (bytes : pyval) (i : nat) : res (pyval * nat) :=
  big ← PyNum.ge_1024 bytes;
  if (big : bool) && (i <? length units - 1)%nat then
    match fuel with
    | O => Timeout
    | S fuel' =>
        bytes' ← PyNum.div_1024 bytes;
        size_loop fuel' bytes' (S i)
    end
  else Ok (bytes, i).

Definition human_readable_size (bytes : pyval) : res string :=
  if PyNum.is_zero bytes then Ok "0 B"
  else
    '(bytes', i) ← size_loop (length units) bytes O;
    num ← PyNum.format_2f bytes';
    u ← units_at i;
    Ok (num +:+ " " +:+ u).

(** ** Calls of the SDK and of the file system *)

(** What a call of the store SDK yields: a response or an exception. *)
Inductive reply (A : Type) : Type :=
  | Response (a : A)
  | Fault (e : exn).

Arguments Response {A} a.
Arguments Fault {A} e.

Definition call {A} (r : reply A) : res A :=
  match r with
  | Response a => Ok a
  | Fault e => Raise e
  end.

(** ** The object store *)

Record object_entry : Type := {
  Key : string;
  Size : Z;
  LastModified : string
}.

(** The response of a delimiter listing. *)
Record listing : Type := {
  CommonPrefixes : list string;
  Contents : list object_entry;
  Prefix : string;
  Name : string
}.

Definition slash : ascii := "/"%char.

Section Listing.

Variable bucket : string.
Variable store : list object_entry.

Definition under (prefix : string) (o : object_entry) : bool :=
  PyStr.startswith prefix (Key o).

(** The part of the key after the listing prefix. *)
Definition rest_of (prefix : string) (o : object_entry) : string :=
  PyStr.drop (String.length prefix) (Key o).

Definition nested (prefix : string) (o : object_entry) : bool :=
  PyStr.contains slash (rest_of prefix o).

Definition common_prefix_of (prefix : string) (o : object_entry) : string :=
  prefix +:+ PyStr.through slash (rest_of prefix o).

(** Modelled from the spec: the store client's [ListImmediate(bucket,
    prefix, delimiter)], the [list_objects_v2(Bucket, Prefix,
    Delimiter='/')] call of the SDK, which is not part of the sources.
    Keys under the prefix whose remainder holds a delimiter are grouped
    into the distinct sub-prefixes ending at the first delimiter; the
    other keys under the prefix are returned as objects.  One response
    holds the whole listing (the code follows no continuation token). *)
Definition list_objects_v2 (prefix : string) : listing :=
  let matching := List.filter (under prefix) store in
  {| CommonPrefixes :=
       remove_dups
         (map (common_prefix_of prefix) (List.filter (nested prefix) matching));
     Contents := List.filter (fun o => negb (nested prefix o)) matching;
     Prefix := prefix;
     Name := bucket |}.

(** ** calculate_folder_size *)

Fixpoint calculate_folder_size_rec (fuel : nat) (prefix : string)
    (cache : gmap string pyval) : res (Z * gmap string pyval) :=
  match fuel with
  | O => Timeout
  | S fuel' =>
      let objs := list_objects_v2 prefix in
      let folders := CommonPrefixes objs in
      let files := Contents objs in
      let total_size := 0 in
      '(total_size, cache) ←
        for_each folders (fun folder '(total_size, cache) =>
          let folder_name := PyStr.drop_last (PyStr.replace folder prefix "") in
          '(sub, cache) ←
            calculate_folder_size_rec fuel' (prefix +:+ folder_name +:+ "/") cache;
          Ok (total_size + sub, cache)) (total_size, cache);
      '(total_size, cache) ←
        for_each files (fun file '(total_size, cache) =>
          Ok (total_size + Size file, cache)) (total_size, cache);
      Ok (total_size, <[prefix := PInt total_size]> cache)
  end.

Definition max_key_length : nat :=
  foldr (fun o m => Nat.max (String.length (Key o)) m) O store.

(** Recursion budget: every recursive call extends the prefix, and a
    prefix longer than every key lists nothing. *)
Definition depth_budget (prefix : string) : nat :=
  S (S max_key_length - String.length prefix).

Definition calculate_folder_size (prefix : string) (cache : gmap string pyval)
  : res (Z * gmap string pyval) :=
  calculate_folder_size_rec (depth_budget prefix) prefix cache.

(** ** refresh_cache *)

(** Whether the store answers the listing calls of a rebuild:
    [Response tt] when it answers them all, in full, or the exception
    the first call raises when it cannot be reached. *)
Variable s3_reachable : reply unit.

(** [my_file.open('w')] followed by [json.dump(cache, result_file)]:
    done, or the exception one of them raises. *)
Variable write_json : reply unit.

(** [now] is the reading of [time()]; the dict written to the bucket's
    JSON file is the dict returned. *)
Definition refresh_cache (now : Q) (cache : gmap string pyval)
  : res (gmap string pyval) :=
  _ ← call s3_reachable;
  let objs := list_objects_v2 "" in
  let folders := CommonPrefixes objs in
  cache ←
    for_each folders (fun folder cache =>
      let folder_name := folder in
      '(size, cache) ← calculate_folder_size folder_name cache;
      Ok (<[folder_name := PInt size]> cache)) cache;
  _ ← call write_json;
  Ok (<["time" := PFloat now]> cache).

(** ** load_cache *)

(** What [Path(bucket + ".json")] holds at startup: no file, a file
    that cannot be opened, text that is not JSON, or a JSON document. *)
Inductive cache_file : Type :=
  | Absent
  | Unreadable
  | Malformed
  | Document (content : pyval).

(** A file holding a JSON object. *)
Definition Snapshot (content : gmap string pyval) : cache_file :=
  Document (PDict content).

(** [json.load(read_file)] *)
Definition json_load (f : cache_file) : res pyval :=
  match f with
  | Document content => Ok content
  | Malformed => Raise JSONDecodeError
  | Unreadable | Absent => Raise OSError
  end.

(** [cache[key]] on a dict *)
Definition getitem (cache : gmap string pyval) (key : string) : res pyval :=
  match cache !! key with
  | Some v => Ok v
  | None => Raise (KeyError key)
  end.

(** The TypeError of [v[key]] for a string key and a value that is not
    a dict. *)
Definition not_subscriptable (v : pyval) : exn :=
  match v with
  | PList _ => TypeError "list indices must be integers or slices, not str"
  | PStr _ => TypeError "string indices must be integers, not 'str'"
  | _ => TypeError ("'" +:+ type_name v +:+ "' object is not subscriptable")
  end.

(** [now] is the reading of [time()] in the test of the stamp,
    [refreshed] the later one taken by [refresh_cache]. *)
Definition load_cache (now refreshed : Q) (my_file : cache_file)
  : res (gmap string pyval) :=
  let cache : gmap string pyval := ∅ in
  match my_file with
  | Absent => refresh_cache refreshed cache
  | _ =>
      loaded ← json_load my_file;
      match loaded with
      | PDict cache =>
          stamp ← getitem cache "time";
          stale ← PyNum.lt_num stamp (PyNum.add_float now 900);
          if stale : bool then refresh_cache refreshed cache else Ok cache
      | _ => Raise (not_subscriptable loaded)
      end
  end.

End Listing.

(** ** The gateway methods of class MinIO *)

(** [try: body / except Exception as e: handler(e)] *)
Definition try_except {A} (body : res A) (handler : exn -> res A) : res A :=
  match body with
  | Raise e => handler e
  | other => other
  end.

Record folder_entry : Type := {
  folder_name : string;
  folder_path : string;
  folder_size : string;
  folder_url : string
}.

Record file_entry : Type := {
  file_key : string;
  file_last_modified : string;
  file_size : string;
  file_path : string
}.

Record objects_response : Type := {
  folders : list folder_entry;
  files : list file_entry;
  prefix_parts : list string;
  bucket_name : string
}.

Record head_response : Type := {
  ContentLength : Z;
  HeadLastModified : string;
  ContentType : string;
  ETag : string;
  Metadata : option (list (string * string))
}.

Record object_details : Type := {
  details_Size : string;
  details_LastModified : string;
  details_ContentType : string;
  details_ETag : string;
  details_Metadata : list (string * string)
}.

(** The value [put_object] returns: a [(result, error)] pair on two of
    its paths, a bare message dict on the third. *)
Inductive put_result : Type :=
  | PutPair (result : option string) (error : option string)
  | PutBare (message : string).

Section Gateway.

(** [self.bucket], [self.cache] and the calls of [self.s3]. *)
Variable bucket : string.
Variable cache : gmap string pyval.
Variable s3_list_objects_v2 : string -> reply listing.
Variable s3_get_body : string -> reply string.
Variable s3_head_object : string -> reply head_response.
Variable s3_delete_object : string -> reply (option Z).
Variable s3_put : string -> string -> reply (option Z).

(** [self.cache.get(key, 0)] *)
Definition cache_get (key : string) : pyval :=
  default (PInt 0) (cache !! key).

Definition folder_row (prefix folder : string) : res folder_entry :=
  let name := PyStr.drop_last (PyStr.replace folder prefix "") in
  let size := cache_get folder in
  shown ← human_readable_size size;
  Ok {| folder_name := name;
        folder_path := folder;
        folder_size := shown;
        folder_url := "?prefix=" +:+ folder |}.

Definition file_row (prefix : string) (file : object_entry) : res file_entry :=
  shown ← human_readable_size (PInt (Size file));
  Ok {| file_key := PyStr.replace (Key file) prefix "";
        file_last_modified := LastModified file;
        file_size := shown;
        file_path := Key file |}.

Definition get_bucket_objects (prefix : string)
  : res (option objects_response * option string) :=
  try_except
    (objs ← call (s3_list_objects_v2 prefix);
     let folders := CommonPrefixes objs in
     let files := Contents objs in
     let parts := PyStr.init (PyStr.split (Prefix objs) slash) in
     rows ← for_each folders (fun folder rows =>
               row ← folder_row prefix folder; Ok (rows ++ [row])%list) [];
     items ← for_each files (fun file items =>
               item ← file_row prefix file; Ok (items ++ [item])%list) [];
     Ok (Some {| folders := rows; files := items;
                 prefix_parts := parts; bucket_name := Name objs |}, None))
    (fun e => Ok (None, Some (str_exn e))).

Definition get_object (path : string) : res (string * string) :=
  let file_name := PyStr.last_part (PyStr.split path slash) in
  file_content ← call (s3_get_body path);
  Ok (file_name, file_content).

Definition get_object_info (key : string)
  : res (option object_details * option exn) :=
  try_except
    (response ← call (s3_head_object key);
     shown ← human_readable_size (PInt (ContentLength response));
     Ok (Some {| details_Size := shown;
                 details_LastModified := HeadLastModified response;
                 details_ContentType := ContentType response;
                 details_ETag := ETag response;
                 details_Metadata := default [] (Metadata response) |}, None))
    (fun e => Ok (None, Some e)).

Definition delete_object (key : string) : res (option string * option string) :=
  try_except
    (response ← call (s3_delete_object key);
     let message :=
       if decide (response = Some 204)
       then "Object '" +:+ key +:+ "' deleted successfully from bucket '"
              +:+ bucket +:+ "'."
       else "Failed to delete object '" +:+ key +:+ "' from bucket '"
              +:+ bucket +:+ "'." in
     Ok (Some message, None))
    (fun e => Ok (None, Some ("Could not delete object '" +:+ key +:+ "' , "
                                +:+ str_exn e))).

Definition put_object (key data : string) : res put_result :=
  try_except
    (response ← call (s3_put key data);
     status ← match response with
               | Some code => Ok code
               | None => Raise (KeyError "HTTPStatusCode")
               end;
     if negb (status =? 200)
     then Ok (PutBare ("Failed to add Object '" +:+ key +:+ "'."))
     else Ok (PutPair (Some ("Object '" +:+ key +:+ "' was added successfully."))
                      None))
    (fun e => Ok (PutPair None (Some (str_exn e)))).

End Gateway.

(** ** Reference notions used by the statements *)

(** The sum of the sizes of all objects whose key starts with [prefix]. *)
Definition size_under (store : list object_entry) (prefix : string) : Z :=
  foldr (fun o acc => Size o + acc) 0 (List.filter (under prefix) store).

(** [x] divided by 1024.0 [k] times. *)
Definition scaled (x : Q) (k : nat) : Q :=
  Nat.iter k (fun y => (y / inject_Z 1024)%Q) x.

(** [occurs p s]: the string [p] occurs somewhere in [s]. *)
Definition occurs (p s : string) : Prop :=
  exists u v, s = u +:+ p +:+ v.

Definition is_ok {A} (r : res A) : Prop := exists a, r = Ok a.

(** [removed old s r]: [r] is [s] with the occurrences of [old] cut
    out, each found from the left after the one before it.  Either
    [old] does not occur and nothing is cut, or [s] is some [u], the
    first occurrence of [old] (none starts earlier: [old] does not occur
    in [u] followed by [old] less its last character) and a rest that is
    treated the same way. *)
Inductive removed (old : string) : string -> string -> Prop :=
  | removed_none s : ~ occurs old s -> removed old s s
  | removed_cut u s r :
      ~ occurs old (u +:+ PyStr.drop_last old) ->
      removed old s r ->
      removed old (u +:+ old +:+ s) (u +:+ r).

(** The values Python compares with a number: int, float and bool. *)
Definition numeric (v : pyval) : bool :=
  match v with
  | PInt _ | PFloat _ | PInf _ | PNaN | PBool _ => true
  | _ => false
  end.

(** The sum of the sizes of a list of objects. *)
Definition sizes (files : list object_entry) : Z :=
  foldr (fun o acc => Size o + acc) 0 files.

(** The prefix [calculate_folder_size] recurses into for a listed folder. *)
Definition child_prefix (prefix folder : string) : string :=
  prefix +:+ PyStr.drop_last (PyStr.replace folder prefix "") +:+ "/".

(** The walk recurses faithfully at [prefix] when the prefix it builds
    for every listed sub-folder is that sub-folder's own prefix. *)
Definition faithful (bucket : string) (store : list object_entry)
    (prefix : string) : Prop :=
  forall folder,
    In folder (CommonPrefixes (list_objects_v2 bucket store prefix)) ->
    child_prefix prefix folder = folder.

(** [folder] is [prefix] itself or a folder below it: a longer prefix
    that ends with the delimiter and has an object under it. *)
Definition folder_under (store : list object_entry) (prefix folder : string)
  : Prop :=
  exists r,
    folder = prefix +:+ r /\
    (r = "" \/
     (PyStr.endswith slash r = true /\
      exists o, In o store /\ under folder o = true)).

(** Every entry of a cache holds the total size of its folder. *)
Definition exact (store : list object_entry) (cache : gmap string pyval)
  : Prop :=
  forall key v, cache !! key = Some v -> v = PInt (size_under store key).

(** The sum of [size_under] over a list of folders. *)
Definition total_of (store : list object_entry) (folders : list string) : Z :=
  foldr (fun folder acc => size_under store folder + acc) 0 folders.

(** A result of [calculate_folder_size] laid over a prior cache. *)
Definition over (cache : gmap string pyval) (r : res (Z * gmap string pyval))
  : res (Z * gmap string pyval) :=
  '(total, written) ← r; Ok (total, written ∪ cache).

(** *** Sample stores *)

Definition object (key : string) (size : Z) : object_entry :=
  {| Key := key; Size := size; LastModified := "2024-01-01 00:00:00+00:00" |}.

(** The store of the end-to-end example of the specification. *)
Definition sample_store : list object_entry :=
  [object "a/b/y.txt" 200; object "a/x.txt" 100; object "c.txt" 50].

(** A folder whose name ends with the name of its parent. *)
Definition photo_store : list object_entry :=
  [object "photos/a.jpg" 7; object "photos/old-photos/img.jpg" 100].

(** A snapshot written ten seconds before a start at time 1000. *)
Definition recent_snapshot : gmap string pyval :=
  <["a/" := PInt 1]> (<["time" := PFloat (inject_Z 990)]> ∅).

(** A prior cache holding a folder that is no longer in the store. *)
Definition stale_cache : gmap string pyval :=
  <["old/" := PInt 5]> (<["time" := PFloat (inject_Z 0)]> ∅).

(** A store that is reached, a cache file that is written. *)
Definition done : reply unit := Response tt.

(** A store client whose [get] finds no such key. *)
Definition missing_key (path : string) : reply string :=
  Fault (ClientError "NoSuchKey").

(** A store client listing [sample_store]. *)
Definition sample_client (prefix : string) : reply listing :=
  Response (list_objects_v2 "bk" sample_store prefix).

(** ** The rest of class MinIO *)

(** The exception [exit] raises.  It is no [Exception]: no handler of
    the class catches it. *)
Inductive base_exn : Type :=
  | SystemExit (code : Z).

(** How a call of a method that may raise it ends. *)
Inductive run (A : Type) : Type :=
  | Returned (a : A)
  | Raised (e : base_exn).

Arguments Returned {A} a.
Arguments Raised {A} e.

(** [exit(code)] *)
Definition exit {A} (code : Z) : run A := Raised (SystemExit code).

Section Buckets.

(** [self.s3.buckets.all()], [self.s3.create_bucket] and
    [self.s3.Bucket(name).delete]. *)
Variable s3_buckets_all : reply (list string).
Variable s3_create_bucket : string -> reply unit.
Variable s3_bucket_delete : string -> reply unit.

Definition get_buckets : res (list string) :=
  let buckets : list string := [] in
  all ← call s3_buckets_all;
  for_each all (fun bucket_name buckets =>
    Ok (buckets ++ [bucket_name])%list) buckets.

(** The handler prints the exception and calls [exit(0)]. *)
Definition create_bucket (bucket_name : string) : run bool :=
  match s3_create_bucket bucket_name with
  | Response _ => Returned true
  | Fault e => exit 0
  end.

Definition delete_bucket (bucket_name : string) : run bool :=
  match s3_bucket_delete bucket_name with
  | Response _ => Returned true
  | Fault e => exit 0
  end.

End Buckets.

(** ** The handlers of main.py *)

(** What a handler hands to the framework: a JSON response, the
    [HTTPException] it raises, or the [ValueError] of unpacking into
    [result, err] a value that is not a pair. *)
Inductive answer (A D : Type) : Type :=
  | JSONResponse (content : A) (status_code : Z)
  | HTTPException (status_code : Z) (detail : D)
  | ValueError (msg : string).

Arguments JSONResponse {A D} content status_code.
Arguments HTTPException {A D} status_code detail.
Arguments ValueError {A D} msg.

(** The [Response] of GET /object. *)
Record http_response : Type := {
  content : string;
  headers : list (string * string)
}.

Definition HTTP_200_OK : Z := 200.
Definition HTTP_500_INTERNAL_SERVER_ERROR : Z := 500.

Section Handlers.

(** [b64decode(param).decode('utf-8')], the decoded text or the
    exception raised, and the state of the [s3] object of main.py. *)
Variable b64decode : string -> reply string.
Variable bucket : string.
Variable cache : gmap string pyval.
Variable s3_list_objects_v2 : string -> reply listing.
Variable s3_get_body : string -> reply string.
Variable s3_head_object : string -> reply head_response.
Variable s3_delete_object : string -> reply (option Z).
Variable s3_put : string -> string -> reply (option Z).

(** The tail shared by the handlers: [if result: return
    JSONResponse(...)], else [raise HTTPException(500, detail=err)].
    A result is [None] or a dict that is never empty, hence true. *)
Definition respond {A B D} (content : A -> B) (result : option A) (err : D)
  : answer B D :=
  match result with
  | Some r => JSONResponse (content r) HTTP_200_OK
  | None => HTTPException HTTP_500_INTERNAL_SERVER_ERROR err
  end.

Definition get_objects_handler (prefix : string)
  : res (answer objects_response (option string)) :=
  prefix ← call (b64decode prefix);
  '(result, err) ← get_bucket_objects cache s3_list_objects_v2 prefix;
  Ok (respond id result err).

Definition get_object_info_handler (path : string)
  : res (answer object_details (option exn)) :=
  path ← call (b64decode path);
  '(result, err) ← get_object_info s3_head_object path;
  Ok (respond id result err).

(** [s.encode('latin-1')]: one byte per character.  A character beyond
    code point 255 would raise UnicodeEncodeError; a [string] holds
    none. *)
Definition encode_latin_1 (s : string) : res (list Byte.byte) :=
  Ok (list_byte_of_string s).

(** [b.decode('latin-1')] *)
Definition decode_latin_1 (b : list Byte.byte) : string :=
  string_of_list_byte b.

Definition get_object_handler (path : string) : res http_response :=
  path ← call (b64decode path);
  '(file_name, file_content) ← get_object s3_get_body path;
  encoded ← encode_latin_1 file_name;
  let file_name := decode_latin_1 encoded in
  Ok {| content := file_content;
        headers :=
          [("Content-Disposition", "attachment;filename=" +:+ file_name);
           ("Content-Type", "application/octet-stream");
           ("Access-Control-Expose-Headers", "Content-Disposition")] |}.

Definition delete_object_handler (path : string)
  : res (answer string (option string)) :=
  path ← call (b64decode path);
  '(result, err) ← delete_object bucket s3_delete_object path;
  Ok (respond id result err).

(** [file_name] and [data] are [file.filename] and [file.file.read()]. *)
Definition put_object_handler (path file_name data : string)
  : res (answer string (option string)) :=
  path ← call (b64decode path);
  returned ← put_object s3_put (path +:+ file_name) data;
  match returned with
  | PutPair result err => Ok (respond (fun _ => "hey") result err)
  | PutBare _ => Ok (ValueError "not enough values to unpack (expected 2, got 1)")
  end.

End Handlers.

(** ** More reference notions *)

(** [sep.join(parts)] *)
Fixpoint str_join (sep : ascii) (parts : list string) : string :=
  match parts with
  | [] => ""
  | [x] => x
  | x :: rest => x +:+ String sep (str_join sep rest)
  end.

(** A client that answers every listing from [store]. *)
Definition store_client (bucket : string) (store : list object_entry)
    (prefix : string) : reply listing :=
  Response (list_objects_v2 bucket store prefix).

(** [cache] holds, for [key], the size [calculate_folder_size] returns
    for that key. *)
Definition holds_size (bucket : string) (store : list object_entry)
    (cache : gmap string pyval) (key : string) : Prop :=
  exists total written,
    calculate_folder_size bucket store key ∅ = Ok (total, written) /\
    cache !! key = Some (PInt total).

(** Every entry of [cache] is such a size. *)
Definition consistent (bucket : string) (store : list object_entry)
    (cache : gmap string pyval) : Prop :=
  forall key v, cache !! key = Some v ->
    exists total written,
      calculate_folder_size bucket store key ∅ = Ok (total, written) /\
      v = PInt total.

(** A store with a folder two levels down. *)
Definition deep_store : list object_entry :=
  [object "a/b/c/z.txt" 5; object "a/b/y.txt" 200; object "a/x.txt" 100].

(** A decoder that knows the base64 text of "a/x.txt". *)
Definition decode_sample (param : string) : reply string :=
  if decide (param = "YS94LnR4dA==") then Response "a/x.txt"
  else Fault (ClientError "Incorrect padding").

(** A store whose one key starts with "aa" and goes on with "a". *)
Definition overlap_store : list object_entry := [object "aaa.txt" 1].

(** A decoder that accepts every parameter, and one that accepts none. *)
Definition decode_any (param : string) : reply string := Response param.
Definition decode_none (param : string) : reply string :=
  Fault (ClientError "Incorrect padding").

(** A store whose calls all fail. *)
Definition unreachable {A B} (request : A) : reply B :=
  Fault (ClientError "Could not connect to the endpoint URL").

(** * Properties *)

(** ** The result monad and loops *)

Lemma bind_ok_inv {A B} (m : res A) (k : A -> res B) b :
  m ≫= k = Ok b -> exists a, m = Ok a /\ k a = Ok b.
Proof. destruct m as [a| |]; simpl; intros H; [eauto | discriminate..]. Qed.

Lemma for_each_total {A S} (xs : list A) (body : A -> S -> res S) :
  (forall x s, In x xs -> is_ok (body x s)) ->
  forall s, is_ok (for_each xs body s).
Proof.
  induction xs as [|x xs IH]; intros Hb s; simpl.
  - eexists; reflexivity.
  - destruct (Hb x s (or_introl eq_refl)) as [s' ->]. simpl.
    apply IH. intros y t Hy. apply Hb. now right.
Qed.

(** ** Strings *)

Module PyStrFacts.
Import PyStr.

Lemma app_nil_l (s : string) : "" +:+ s = s.
Proof. reflexivity. Qed.

Lemma app_cons (c : ascii) (s t : string) :
  String c s +:+ t = String c (s +:+ t).
Proof. reflexivity. Qed.

Lemma length_app (s t : string) :
  String.length (s +:+ t) = (String.length s + String.length t)%nat.
Proof.
  induction s as [|c s IH]; [reflexivity|].
  rewrite app_cons. simpl. now rewrite IH.
Qed.

Lemma app_empty_r (s : string) : s +:+ "" = s.
Proof.
  induction s as [|c s IH]; [reflexivity|]. now rewrite app_cons, IH.
Qed.

Lemma app_assoc (s t u : string) : (s +:+ t) +:+ u = s +:+ (t +:+ u).
Proof.
  induction s as [|c s IH]; [reflexivity|]. now rewrite !app_cons, IH.
Qed.

Lemma startswith_app (p s : string) : startswith p (p +:+ s) = true.
Proof.
  induction p as [|c p IH]; [reflexivity|].
  rewrite app_cons. simpl. now rewrite Ascii.eqb_refl.
Qed.

Lemma startswith_split (p s : string) :
  startswith p s = true -> s = p +:+ drop (String.length p) s.
Proof.
  revert s. induction p as [|c p IH]; intros [|d s]; simpl; try easy.
  destruct (Ascii.eqb_spec c d) as [->|]; [|discriminate].
  intros H. rewrite app_cons. f_equal. now apply IH.
Qed.

Lemma drop_app (p s : string) : drop (String.length p) (p +:+ s) = s.
Proof.
  induction p as [|c p IH]; [now destruct s|]. rewrite app_cons. exact IH.
Qed.

Lemma length_drop (n : nat) (s : string) :
  String.length (drop n s) = (String.length s - n)%nat.
Proof.
  revert s. induction n as [|n IH]; intros [|c s]; simpl; auto.
Qed.

Lemma contains_nonempty (c : ascii) (s : string) :
  contains c s = true -> (0 < String.length s)%nat.
Proof. destruct s; simpl; [discriminate | lia]. Qed.

End PyStrFacts.

(** ** str.replace *)

Module ReplaceFacts.
Import PyStr PyStrFacts.

Lemma replace_scan_skip old new k : forall s,
  replace_scan old new k s = replace_scan old new O (drop k s).
Proof.
  induction k as [|k IH]; intros [|c s]; try reflexivity.
  simpl. apply IH.
Qed.

Lemma length_replace_scan old k : forall s,
  (String.length (replace_scan old "" k s) <= String.length s)%nat.
Proof.
  intros s. revert k. induction s as [|c s IH]; intros k; simpl; [lia|].
  destruct k as [|k].
  - destruct (startswith old (String c s)).
    + rewrite app_nil_l. specialize (IH (String.length old - 1)%nat). lia.
    + simpl. specialize (IH O). lia.
  - specialize (IH k). lia.
Qed.

Lemma occurs_at_start p s : startswith p s = true -> occurs p s.
Proof.
  intros H. exists "", (drop (String.length p) s).
  rewrite app_nil_l. now apply startswith_split.
Qed.

Lemma occurs_tail p c s :
  occurs p (String c s) -> startswith p (String c s) = false -> occurs p s.
Proof.
  intros (u & v & H) Hs. destruct u as [|d u].
  - rewrite app_nil_l in H. rewrite H, startswith_app in Hs. discriminate.
  - rewrite app_cons in H. injection H as _ ->. now exists u, v.
Qed.

Lemma occurs_cons p c s : occurs p s -> occurs p (String c s).
Proof. intros (u & v & ->). now exists (String c u), v. Qed.

Lemma not_occurs_empty p : p <> "" -> ~ occurs p "".
Proof.
  intros Hp (u & v & H). apply (f_equal String.length) in H.
  rewrite !length_app in H. destruct p; [congruence | simpl in H; lia].
Qed.

(** Removing a non-empty string that occurs makes the text shorter. *)
Lemma replace_scan_shorter old : old <> "" -> forall s,
  occurs old s ->
  (String.length (replace_scan old "" O s) < String.length s)%nat.
Proof.
  intros Hold. induction s as [|c s IH]; intros Hocc.
  - now apply not_occurs_empty in Hocc.
  - simpl. destruct (startswith old (String c s)) eqn:E.
    + rewrite app_nil_l.
      pose proof (length_replace_scan old (String.length old - 1) s). lia.
    + simpl. apply occurs_tail in Hocc; [|exact E].
      specialize (IH Hocc). lia.
Qed.

(** Where the string does not occur nothing is removed. *)
Lemma replace_scan_absent old : forall s,
  ~ occurs old s -> replace_scan old "" O s = s.
Proof.
  induction s as [|c s IH]; intros Hocc; [reflexivity|].
  simpl. destruct (startswith old (String c s)) eqn:E.
  - exfalso. apply Hocc. now apply occurs_at_start.
  - f_equal. apply IH. intros H. apply Hocc. now apply occurs_cons.
Qed.

(** The leading occurrence is removed, and the scan goes on after it. *)
Lemma replace_leading old rest :
  old <> "" ->
  replace (old +:+ rest) old "" = replace_scan old "" O rest.
Proof.
  intros Hold. destruct old as [|c old]; [congruence|].
  unfold replace. rewrite app_cons.
  cbn [replace_scan]. rewrite <- app_cons, startswith_app, app_nil_l.
  rewrite replace_scan_skip.
  replace (String.length (String c old) - 1)%nat with (String.length old)
    by (simpl; lia).
  now rewrite drop_app.
Qed.

Lemma replace_empty s : replace s "" "" = s.
Proof.
  unfold replace. induction s as [|c s IH]; [reflexivity|].
  simpl. rewrite app_nil_l. now rewrite IH.
Qed.

(** [key.replace(prefix, '')] is the part after the leading prefix
    exactly when the prefix does not occur again in that part. *)
Lemma replace_is_suffix_iff prefix rest :
  prefix <> "" ->
  (replace (prefix +:+ rest) prefix "" = rest <-> ~ occurs prefix rest).
Proof.
  intros Hp. rewrite replace_leading by exact Hp. split.
  - intros H Hocc. apply (replace_scan_shorter prefix Hp) in Hocc.
    rewrite H in Hocc. lia.
  - apply replace_scan_absent.
Qed.

Lemma occurs_dec p s : occurs p s \/ ~ occurs p s.
Proof.
  induction s as [|c s IH].
  - destruct p as [|d p]; [left; now exists "", ""|].
    right. now apply not_occurs_empty.
  - destruct (startswith p (String c s)) eqn:E;
      [left; now apply occurs_at_start|].
    destruct IH as [H|H]; [left; now apply occurs_cons|].
    right. intros Ho. apply H. now apply (occurs_tail p c s).
Qed.

Lemma occurs_length p s : occurs p s -> (String.length p <= String.length s)%nat.
Proof. intros (u & v & ->). rewrite !length_app. lia. Qed.

Lemma length_drop_last s :
  String.length (drop_last s) = (String.length s - 1)%nat.
Proof.
  induction s as [|c s IH]; [reflexivity|].
  destruct s as [|d s]; [reflexivity|].
  change (drop_last (String c (String d s))) with (String c (drop_last (String d s))).
  simpl String.length in *. lia.
Qed.

Lemma drop_last_snoc s :
  s <> "" -> exists c, s = drop_last s +:+ String c "".
Proof.
  induction s as [|c s IH]; [congruence|]. intros _.
  destruct s as [|d s]; [now exists c|].
  destruct (IH ltac:(discriminate)) as [e He]. exists e.
  change (drop_last (String c (String d s))) with (String c (drop_last (String d s))).
  rewrite app_cons. now rewrite <- He.
Qed.

Lemma startswith_extend p x t :
  startswith p x = true -> startswith p (x +:+ t) = true.
Proof.
  revert x. induction p as [|c p IH]; intros [|d x]; simpl; try easy.
  destruct (Ascii.eqb c d); [apply IH | easy].
Qed.

Lemma startswith_shorten p x t :
  startswith p (x +:+ t) = true -> (String.length p <= String.length x)%nat ->
  startswith p x = true.
Proof.
  revert x. induction p as [|c p IH]; intros [|d x] H Hl; try reflexivity.
  - simpl in Hl. lia.
  - rewrite app_cons in H. simpl in H |- *.
    destruct (Ascii.eqb c d); [|easy]. apply IH; [exact H | simpl in Hl; lia].
Qed.

(** Before the first occurrence nothing is removed. *)
Lemma replace_scan_first old u s :
  old <> "" -> ~ occurs old (u +:+ drop_last old) ->
  replace_scan old "" O (u +:+ old +:+ s) = u +:+ replace_scan old "" O s.
Proof.
  intros Hold. induction u as [|c u IH]; intros Hfirst.
  - rewrite !app_nil_l. pose proof (replace_leading old s Hold) as H.
    unfold replace in H. destruct old; [congruence | exact H].
  - rewrite !app_cons. cbn [replace_scan].
    destruct (startswith old (String c (u +:+ old +:+ s))) eqn:E.
    + exfalso. apply Hfirst. apply occurs_at_start.
      destruct (drop_last_snoc old Hold) as [e He].
      assert (Hsplit : old +:+ s = drop_last old +:+ (String e "" +:+ s))
        by (now rewrite <- app_assoc, <- He).
      apply (startswith_shorten old _ (String e "" +:+ s)).
      * rewrite app_assoc, <- Hsplit, app_cons. exact E.
      * rewrite app_cons. simpl. rewrite length_app, length_drop_last. lia.
    + f_equal. apply IH. intros Ho. apply Hfirst.
      rewrite app_cons. now apply occurs_cons.
Qed.

Lemma removed_replace_scan old s r :
  old <> "" -> removed old s r -> replace_scan old "" O s = r.
Proof.
  intros Hold. induction 1 as [s Hn|u s r Hfirst _ IH].
  - now apply replace_scan_absent.
  - rewrite replace_scan_first by assumption. now rewrite IH.
Qed.

Lemma removed_cons old c s r :
  old <> "" -> startswith old (String c s) = false ->
  removed old s r -> removed old (String c s) (String c r).
Proof.
  intros Hold Hs H. destruct H as [s Hn|u s r Hfirst H].
  - apply removed_none. intros Ho. apply Hn. now apply (occurs_tail old c s).
  - rewrite <- !app_cons. apply removed_cut; [|exact H].
    rewrite app_cons. intros Ho. apply (occurs_tail old c) in Ho; [contradiction|].
    destruct (startswith old (String c (u +:+ drop_last old))) eqn:E;
      [|reflexivity].
    destruct (drop_last_snoc old Hold) as [e He].
    assert (Hsplit : old +:+ s = drop_last old +:+ (String e "" +:+ s))
      by (now rewrite <- app_assoc, <- He).
    rewrite <- app_cons in E.
    apply (startswith_extend _ _ (String e "" +:+ s)) in E.
    rewrite app_assoc, <- Hsplit, app_cons in E.
    congruence.
Qed.

Lemma replace_scan_removed old :
  old <> "" -> forall n s,
  (String.length s <= n)%nat -> removed old s (replace_scan old "" O s).
Proof.
  intros Hold. induction n as [|n IH]; intros s Hn.
  - destruct s; [|simpl in Hn; lia].
    apply removed_none. now apply not_occurs_empty.
  - destruct s as [|c s].
    { apply removed_none. now apply not_occurs_empty. }
    destruct (startswith old (String c s)) eqn:E.
    + pose proof (startswith_split _ _ E) as Hs.
      set (rest := drop (String.length old) (String c s)) in *.
      assert (Hlen : (String.length rest <= n)%nat).
      { unfold rest. rewrite length_drop. destruct old; [congruence|].
        simpl in *. lia. }
      rewrite Hs. rewrite <- (app_nil_l (old +:+ rest)).
      rewrite (replace_scan_first old "" rest Hold).
      * apply removed_cut; [|now apply IH].
        rewrite app_nil_l. intros Ho. apply occurs_length in Ho.
        rewrite length_drop_last in Ho. destruct old; [congruence|].
        simpl in Ho. lia.
      * rewrite app_nil_l. intros Ho. apply occurs_length in Ho.
        rewrite length_drop_last in Ho. destruct old; [congruence|].
        simpl in Ho. lia.
    + cbn [replace_scan]. rewrite E. apply removed_cons; [exact Hold | exact E|].
      apply IH. simpl in Hn. lia.
Qed.

(** [s.replace(old, '')] is [s] with the occurrences of [old] removed. *)
Lemma removed_iff_replace old s r :
  old <> "" -> (removed old s r <-> replace s old "" = r).
Proof.
  intros Hold.
  assert (E : replace s old "" = replace_scan old "" O s)
    by (unfold replace; destruct old; [congruence | reflexivity]).
  rewrite E. split.
  - now apply removed_replace_scan.
  - intros <-. now apply (replace_scan_removed old Hold (String.length s)).
Qed.

End ReplaceFacts.

(** ** Numbers *)

Module PyNumFacts.
Import PyNum.

Lemma round_small a : 0 <= a < 2 ^ 53 -> round_to_double a = a.
Proof.
  intros [H0 H]. unfold round_to_double, significand_bits.
  destruct (Z.leb_spec (Z.log2 a + 1) 53) as [|Hb]; [reflexivity|].
  exfalso. destruct (Z.eq_dec a 0) as [->|Hne]; [simpl in Hb; lia|].
  assert (53 <= Z.log2 a) as Hl by lia.
  apply Z.log2_le_pow2 in Hl; lia.
Qed.

Lemma round_ge_pow2 k a :
  0 <= k -> 2 ^ k <= a -> 2 ^ k <= round_to_double a.
Proof.
  intros Hk Ha.
  assert (0 < a) as Hpos by (pose proof (Z.pow_pos_nonneg 2 k); lia).
  unfold round_to_double, significand_bits.
  destruct (Z.leb_spec (Z.log2 a + 1) 53) as [|Hb]; [exact Ha|].
  set (L := Z.log2 a) in *. set (shift := L + 1 - 53).
  assert (0 < shift) as Hs by (unfold shift; lia).
  pose proof (Z.log2_spec a Hpos) as [Hlo _]. fold L in Hlo.
  assert (k <= L) as HkL by (apply Z.log2_le_pow2; assumption).
  assert (2 ^ L = 2 ^ 52 * 2 ^ shift) as HL.
  { rewrite <- Z.pow_add_r by lia. f_equal. unfold shift. lia. }
  assert (0 < 2 ^ shift) as HS by (apply Z.pow_pos_nonneg; lia).
  assert (2 ^ 52 <= a / 2 ^ shift) as Hq.
  { apply Z.div_le_lower_bound; [exact HS|]. lia. }
  assert (2 ^ k <= 2 ^ L) as Hkl by (apply Z.pow_le_mono_r; lia).
  set (q := a / 2 ^ shift) in *.
  assert (2 ^ L <= q * 2 ^ shift) as H1 by (rewrite HL; nia).
  destruct (_ || _); nia.
Qed.

Lemma round_lt_max a :
  0 <= a < 2 ^ 1024 - 2 ^ 970 -> round_to_double a < 2 ^ 1024.
Proof.
  intros [H0 Ha].
  unfold round_to_double, significand_bits.
  destruct (Z.leb_spec (Z.log2 a + 1) 53) as [|Hb].
  { assert (0 < 2 ^ 970) by (apply Z.pow_pos_nonneg; lia). lia. }
  destruct (Z.eq_dec a 0) as [->|Hne]; [simpl in Hb; lia|].
  assert (0 < a) as Hpos by lia.
  pose proof (Z.log2_spec a Hpos) as [_ Hhi].
  assert (Z.log2 a < 1024) as HL.
  { apply Z.log2_lt_pow2; [exact Hpos|].
    assert (0 < 2 ^ 970) by (apply Z.pow_pos_nonneg; lia). lia. }
  set (L := Z.log2 a) in *. set (shift := L + 1 - 53).
  assert (0 < shift <= 971) as Hs by (unfold shift; lia).
  assert (2 ^ Z.succ L = 2 ^ 53 * 2 ^ shift) as HL1.
  { rewrite <- Z.pow_add_r by lia. f_equal. unfold shift. lia. }
  assert (0 < 2 ^ shift) as HS by (apply Z.pow_pos_nonneg; lia).
  pose proof (Z.div_mod a (2 ^ shift) ltac:(lia)) as Hdm.
  pose proof (Z.mod_pos_bound a (2 ^ shift) HS) as Hr.
  assert (2 ^ shift = 2 * 2 ^ (shift - 1)) as Hhalf.
  { rewrite <- (Z.pow_succ_r 2 (shift - 1)) by lia. f_equal. lia. }
  set (q := a / 2 ^ shift) in *. set (r := a mod 2 ^ shift) in *.
  set (half := 2 ^ (shift - 1)) in *.
  assert (q < 2 ^ 53) as Hq by nia.
  assert (2 ^ 1024 = 2 ^ 53 * 2 ^ 971) as HM by reflexivity.
  assert (2 ^ 970 * 2 = 2 ^ 971) as H970 by reflexivity.
  assert (2 ^ 53 = 9007199254740992) as H53 by reflexivity.
  destruct (Z.eq_dec shift 971) as [E|NE].
  - assert (half = 2 ^ 970) as Hh.
    { unfold half. rewrite E. reflexivity. }
    assert (2 ^ shift = 2 ^ 971) as HS' by (rewrite E; reflexivity).
    rewrite HS' in *.
    set (P := 2 ^ 971) in *. set (H := 2 ^ 970) in *. set (M := 2 ^ 1024) in *.
    rewrite H53 in *.
    clearbody P H M q r half.
    destruct (Z.ltb_spec half r); simpl.
    + assert (q <= 9007199254740990) by nia. nia.
    + destruct (Z.eqb_spec r half); simpl.
      * assert (q <= 9007199254740990) by nia. destruct (Z.odd q); nia.
      * nia.
  - assert (2 ^ shift <= 2 ^ 970) as Hle by (apply Z.pow_le_mono_r; lia).
    set (S := 2 ^ shift) in *. set (H := 2 ^ 970) in *. set (M := 2 ^ 1024) in *.
    set (P := 2 ^ 971) in *.
    rewrite H53 in *.
    clearbody S P H M q r half.
    destruct (_ || _); nia.
Qed.

Lemma float_of_int_nonneg n :
  0 <= n ->
  float_of_int n =
  if 2 ^ 1024 <=? round_to_double n then Raise OverflowError
  else Ok (inject_Z (round_to_double n)).
Proof.
  intros Hn. unfold float_of_int, max_exponent. rewrite (Z.abs_eq n Hn).
  destruct (_ <=? _); [reflexivity|].
  destruct (Z.eq_dec n 0) as [->|Hne]; [reflexivity|].
  rewrite Z.sgn_pos by lia. now rewrite Z.mul_1_l.
Qed.

Lemma float_of_int_ok n :
  0 <= n < 2 ^ 1024 - 2 ^ 970 ->
  float_of_int n = Ok (inject_Z (round_to_double n)).
Proof.
  intros Hn. rewrite float_of_int_nonneg by lia.
  pose proof (round_lt_max n Hn).
  destruct (Z.leb_spec (2 ^ 1024) (round_to_double n)); [lia | reflexivity].
Qed.

Lemma float_of_int_inv n v :
  0 <= n -> float_of_int n = Ok v -> v = inject_Z (round_to_double n).
Proof.
  intros Hn. rewrite float_of_int_nonneg by lia.
  destruct (_ <=? _); [discriminate | congruence].
Qed.

Lemma scaled_S x k : scaled x (S k) = (scaled x k / inject_Z 1024)%Q.
Proof. reflexivity. Qed.

Lemma scaled_shift x k : scaled x (S k) = scaled (x / inject_Z 1024)%Q k.
Proof. unfold scaled. now rewrite Nat.iter_succ_r. Qed.

Lemma div_1024_le m y :
  0 <= m ->
  (inject_Z (1024 * m) <= y)%Q -> (inject_Z m <= y / inject_Z 1024)%Q.
Proof.
  intros Hm H. apply Qle_shift_div_l; [reflexivity|].
  rewrite <- inject_Z_mult. now rewrite Z.mul_comm.
Qed.

Lemma scaled_lower x k : forall m : nat,
  (inject_Z (1024 ^ Z.of_nat (k + m)) <= x)%Q ->
  (inject_Z (1024 ^ Z.of_nat m) <= scaled x k)%Q.
Proof.
  induction k as [|k IH]; intros m H; [exact H|].
  rewrite scaled_S. apply div_1024_le; [apply Z.pow_nonneg; lia|].
  rewrite <- Z.pow_succ_r by lia. rewrite <- Nat2Z.inj_succ.
  apply IH. now replace (k + S m)%nat with (S k + m)%nat by lia.
Qed.

Lemma size_loop_S fuel b i :
  size_loop (S fuel) b i =
  big ← ge_1024 b;
  if (big : bool) && (i <? 8)%nat
  then b' ← div_1024 b; size_loop fuel b' (S i)
  else Ok (b, i).
Proof. reflexivity. Qed.

Lemma size_loop_stop fuel b i big :
  ge_1024 b = Ok big -> big && (i <? 8)%nat = false ->
  size_loop fuel b i = Ok (b, i).
Proof.
  intros Hb H. destruct fuel; cbn [size_loop]; rewrite Hb; cbn [mbind res_bind];
    change (length units - 1)%nat with 8%nat; now rewrite H.
Qed.

Lemma size_loop_stop_float fuel x i :
  Qle_bool (inject_Z 1024) x && (i <? 8)%nat = false ->
  size_loop fuel (PFloat x) i = Ok (PFloat x, i).
Proof. exact (size_loop_stop fuel (PFloat x) i _ eq_refl). Qed.

Lemma size_loop_stop_int fuel n i :
  (1024 <=? n) && (i <? 8)%nat = false ->
  size_loop fuel (PInt n) i = Ok (PInt n, i).
Proof. exact (size_loop_stop fuel (PInt n) i _ eq_refl). Qed.

Lemma size_loop_go fuel b i :
  ge_1024 b = Ok true -> (i < 8)%nat ->
  size_loop (S fuel) b i = b' ← div_1024 b; size_loop fuel b' (S i).
Proof.
  intros Hb Hi. rewrite size_loop_S, Hb. cbn [mbind res_bind andb].
  apply Nat.ltb_lt in Hi. now rewrite Hi.
Qed.

(** The loop on a float: it divides [k] times, stops at index 8 or
    below 1024, and never exhausts a budget of [8 - i] iterations. *)
Lemma size_loop_float fuel : forall x i,
  (i <= 8)%nat -> (8 - i <= fuel)%nat ->
  exists k,
    (i + k <= 8)%nat /\
    size_loop fuel (PFloat x) i = Ok (PFloat (scaled x k), (i + k)%nat) /\
    (forall j, (j < k)%nat -> (inject_Z 1024 <= scaled x j)%Q) /\
    ((i + k < 8)%nat -> (scaled x k < inject_Z 1024)%Q).
Proof.
  induction fuel as [|fuel IH]; intros x i Hi Hf.
  - assert (i = 8)%nat as -> by lia. exists O.
    rewrite size_loop_stop_float by apply andb_false_r.
    repeat split; try lia.
  - destruct (Qle_bool (inject_Z 1024) x && (i <? 8)%nat) eqn:E.
    + apply andb_true_iff in E as [E1 E2]. apply Nat.ltb_lt in E2.
      rewrite size_loop_go by (cbn [ge_1024]; congruence || exact E2).
      destruct (IH (x / inject_Z 1024)%Q (S i)) as (k & Hk & Hrun & Hge & Hlt);
        [lia | lia |].
      exists (S k). split; [lia|]. split.
      { rewrite scaled_shift. cbn [div_1024 mbind res_bind].
        rewrite Hrun. do 2 f_equal. lia. }
      split.
      { intros [|j] Hj; [now apply Qle_bool_iff|].
        rewrite scaled_shift. apply Hge. lia. }
      { intros Hlt8. rewrite scaled_shift. apply Hlt. lia. }
    + exists O. rewrite size_loop_stop_float by exact E.
      split; [lia|]. split; [do 2 f_equal; lia|].
      split; [intros j Hj; lia|].
      intros Hlt8. rewrite Nat.add_0_r in Hlt8.
      apply andb_false_iff in E as [E|E].
      * change (scaled x 0) with x. apply Qnot_le_lt. intros Hle.
        apply Qle_bool_iff in Hle. congruence.
      * apply Nat.ltb_ge in E. lia.
Qed.

Lemma round_nonneg a : 0 <= a -> 0 <= round_to_double a.
Proof.
  intros Ha. destruct (Z.eq_dec a 0) as [->|Hne]; [now rewrite round_small|].
  pose proof (round_ge_pow2 0 a ltac:(lia) ltac:(simpl; lia)). simpl in *. lia.
Qed.

Lemma float_of_int_cases n :
  float_of_int n = Raise OverflowError \/
  float_of_int n = Ok (inject_Z (Z.sgn n * round_to_double (Z.abs n))).
Proof. unfold float_of_int. destruct (_ <=? _); auto. Qed.

Lemma float_of_int_below n v :
  n < 1024 -> float_of_int n = Ok v -> (v < inject_Z 1024)%Q.
Proof.
  intros Hn Hv. destruct (float_of_int_cases n) as [H|H];
    rewrite H in Hv; [discriminate|]. injection Hv as <-.
  rewrite <- Zlt_Qlt.
  destruct (Z.lt_trichotomy n 0) as [Hneg|[->|Hpos]].
  - rewrite Z.sgn_neg by lia.
    pose proof (round_nonneg (Z.abs n) (Z.abs_nonneg n)). lia.
  - reflexivity.
  - rewrite Z.sgn_pos, Z.abs_eq, round_small by lia. lia.
Qed.

Lemma float_of_int_above n v :
  1024 <= n -> float_of_int n = Ok v -> (inject_Z 1024 <= v)%Q.
Proof.
  intros Hn Hv. apply float_of_int_inv in Hv; [|lia]. subst v.
  rewrite <- Zle_Qle. apply (round_ge_pow2 10); [lia | exact Hn].
Qed.

Lemma units_at_ok i : (i <= 8)%nat -> exists u, nth_error units i = Some u.
Proof.
  intros Hi. do 9 (destruct i as [|i]; [eexists; reflexivity|]). lia.
Qed.

(** The shape of every result on a non-zero integer. *)
Lemma human_readable_size_shape n v :
  n <> 0 -> float_of_int n = Ok v ->
  exists i u,
    (i <= 8)%nat /\ nth_error units i = Some u /\
    human_readable_size (PInt n) =
      Ok (format_2f_float (scaled v i) +:+ " " +:+ u) /\
    (forall j, (j < i)%nat -> (inject_Z 1024 <= scaled v j)%Q) /\
    ((i < 8)%nat -> (scaled v i < inject_Z 1024)%Q).
Proof.
  intros Hn Hv. unfold human_readable_size.
  replace (is_zero (PInt n)) with false
    by (symmetry; now apply Z.eqb_neq).
  change (length units) with 9%nat.
  destruct (Z.leb_spec 1024 n) as [Hbig|Hsmall].
  - rewrite size_loop_go
      by (cbn [ge_1024]; (f_equal; now apply Z.leb_le) || lia).
    cbn [div_1024 mbind res_bind].
    rewrite Hv. cbn [mbind res_bind].
    destruct (size_loop_float 8 (v / inject_Z 1024)%Q 1)
      as (k & Hk & Hrun & Hge & Hlt); [lia | lia |].
    rewrite Hrun. cbn [mbind res_bind format_2f].
    destruct (units_at_ok (1 + k)) as [u Hu]; [lia|].
    exists (S k), u. unfold units_at. rewrite Hu. cbn [mbind res_bind].
    rewrite <- scaled_shift. repeat split; auto.
    + intros [|j] Hj; [now apply float_of_int_above with n|].
      rewrite scaled_shift. apply Hge. lia.
    + intros H8. rewrite scaled_shift. apply Hlt. lia.
  - rewrite size_loop_stop_int
      by (apply andb_false_iff; left; now apply Z.leb_gt).
    cbn [mbind res_bind format_2f]. rewrite Hv.
    exists O, "B". repeat split; auto; try lia.
    intros _. now apply float_of_int_below with n.
Qed.

Lemma human_readable_size_overflow n :
  n <> 0 -> float_of_int n = Raise OverflowError ->
  human_readable_size (PInt n) = Raise OverflowError.
Proof.
  intros Hn Hv. unfold human_readable_size.
  replace (is_zero (PInt n)) with false
    by (symmetry; now apply Z.eqb_neq).
  change (length units) with 9%nat.
  destruct (Z.leb_spec 1024 n) as [Hbig|Hsmall].
  - rewrite size_loop_go
      by (cbn [ge_1024]; (f_equal; now apply Z.leb_le) || lia).
    cbn [div_1024 mbind res_bind].
    now rewrite Hv.
  - rewrite size_loop_stop_int
      by (apply andb_false_iff; left; now apply Z.leb_gt).
    cbn [mbind res_bind format_2f]. now rewrite Hv.
Qed.

(** Rounding to hundredths is to the nearest one. *)
Lemma cents_nearest x :
  2 * Z.abs (Z.abs (Qnum x) * 100 - cents x * Z.pos (Qden x)) <= Z.pos (Qden x).
Proof.
  unfold cents.
  set (a := Z.abs (Qnum x) * 100). set (b := Z.pos (Qden x)).
  assert (0 < b) as Hb by (unfold b; lia).
  pose proof (Z.div_mod a b ltac:(lia)) as Hdm.
  pose proof (Z.mod_pos_bound a b Hb) as Hr.
  set (q := a / b) in *. set (r := a mod b) in *.
  destruct (Z.ltb_spec b (2 * r)); simpl; [nia|].
  destruct (Z.eqb_spec (2 * r) b); simpl; [destruct (Z.odd q)|]; nia.
Qed.

Lemma round_reaches_max a :
  2 ^ 1024 - 2 ^ 970 <= a -> 2 ^ 1024 <= round_to_double a.
Proof.
  intros Ha.
  destruct (Z.le_gt_cases (2 ^ 1024) a) as [Hbig|Hlt].
  { apply round_ge_pow2; [lia | exact Hbig]. }
  assert (2 ^ 1024 = 2 ^ 53 * 2 ^ 971) as HM by reflexivity.
  assert (2 ^ 971 = 2 * 2 ^ 970) as HP by reflexivity.
  assert (2 ^ 1024 = 2 * 2 ^ 1023) as HM' by reflexivity.
  assert (2 ^ 1023 = 2 ^ 52 * 2 ^ 971) as HN by reflexivity.
  assert (2 ^ 53 = 9007199254740992) as H53 by reflexivity.
  assert (2 ^ 52 = 4503599627370496) as H52 by reflexivity.
  assert (0 < 2 ^ 970) as HH by (apply Z.pow_pos_nonneg; lia).
  assert (Z.log2 a = 1023) as HL.
  { apply Z.log2_unique; [lia|]. change (Z.succ 1023) with 1024.
    rewrite H52 in HN.
    set (M := 2 ^ 1024) in *. set (N := 2 ^ 1023) in *.
    set (P := 2 ^ 971) in *. set (H := 2 ^ 970) in *.
    clearbody M N P H. lia. }
  unfold round_to_double, significand_bits. rewrite HL.
  change (1023 + 1 <=? 53) with false. cbv beta iota.
  change (1023 + 1 - 53) with 971. change (971 - 1) with 970.
  pose proof (Z.div_mod a (2 ^ 971) ltac:(lia)) as Hdm.
  pose proof (Z.mod_pos_bound a (2 ^ 971) ltac:(lia)) as Hr.
  set (q := a / 2 ^ 971) in *. set (r := a mod 2 ^ 971) in *.
  rewrite H53 in *.
  set (M := 2 ^ 1024) in *. set (P := 2 ^ 971) in *. set (H := 2 ^ 970) in *.
  assert (q = 9007199254740991) as Hq by (clearbody M P H q r; nia).
  assert (H <= r) as Hrh by (clearbody M P H q r; nia).
  destruct (Z.ltb_spec H r) as [Hgt|Hle]; cbn [orb].
  - clearbody M P H q r. nia.
  - assert (r = H) as -> by lia. rewrite Z.eqb_refl, Hq. cbn [andb Z.odd].
    clearbody M P H q. nia.
Qed.

Lemma float_of_int_overflow n :
  2 ^ 1024 - 2 ^ 970 <= n -> float_of_int n = Raise OverflowError.
Proof.
  intros Hn. assert (0 < 2 ^ 1024 - 2 ^ 970) as Hpos by reflexivity.
  unfold float_of_int, max_exponent. rewrite Z.abs_eq by lia.
  pose proof (round_reaches_max n Hn) as H.
  destruct (Z.leb_spec (2 ^ 1024) (round_to_double n)); [reflexivity | lia].
Qed.

Lemma human_readable_size_int_cases n :
  human_readable_size (PInt n) = Raise OverflowError \/
  is_ok (human_readable_size (PInt n)).
Proof.
  destruct (Z.eq_dec n 0) as [->|Hne].
  - right. eexists; reflexivity.
  - destruct (float_of_int_cases n) as [H|H].
    + left. now apply human_readable_size_overflow.
    + right. destruct (human_readable_size_shape n _ Hne H)
        as (i & u & _ & _ & Hr & _).
      eexists; exact Hr.
Qed.

Lemma human_readable_size_float x :
  is_ok (human_readable_size (PFloat x)).
Proof.
  unfold human_readable_size. destruct (is_zero _); [eexists; reflexivity|].
  change (length units) with 9%nat.
  destruct (size_loop_float 9 x 0) as (k & Hk & Hrun & _); [lia | lia |].
  rewrite Hrun. cbn [mbind res_bind format_2f].
  destruct (units_at_ok (0 + k)) as [u Hu]; [lia|].
  unfold units_at. rewrite Hu. eexists; reflexivity.
Qed.

(** The values that are no numbers fail the comparison with 1024. *)
Lemma human_readable_size_type_error v :
  match v with
  | PNone | PStr _ | PList _ | PDict _ =>
      human_readable_size v =
      Raise (TypeError ("'>=' not supported between instances of '"
                          +:+ type_name v +:+ "' and 'int'"))
  | _ => True
  end.
Proof. destruct v; try exact I; reflexivity. Qed.

Lemma human_readable_size_no_timeout v : human_readable_size v <> Timeout.
Proof.
  destruct v as [n|x|[|]| |[|]| |s|items|members]; try discriminate.
  - destruct (human_readable_size_int_cases n) as [-> | [s ->]]; discriminate.
  - destruct (human_readable_size_float x) as [s ->]. discriminate.
Qed.

Lemma round_le_pow2 k a :
  0 <= a < 2 ^ k -> round_to_double a <= 2 ^ k.
Proof.
  intros [H0 Ha].
  unfold round_to_double, significand_bits.
  destruct (Z.leb_spec (Z.log2 a + 1) 53) as [|Hb]; [lia|].
  destruct (Z.eq_dec a 0) as [->|Hne]; [simpl in Hb; lia|].
  assert (0 < a) as Hpos by lia.
  assert (0 <= k) as Hk.
  { destruct (Z.le_gt_cases 0 k); [assumption|].
    rewrite Z.pow_neg_r in Ha by lia. lia. }
  pose proof (Z.log2_spec a Hpos) as [_ Hhi].
  assert (Z.log2 a < k) as HL by (apply Z.log2_lt_pow2; assumption).
  set (L := Z.log2 a) in *. set (shift := L + 1 - 53).
  assert (0 < shift) as Hs by (unfold shift; lia).
  assert (2 ^ Z.succ L = 2 ^ 53 * 2 ^ shift) as HL1.
  { rewrite <- Z.pow_add_r by lia. f_equal. unfold shift. lia. }
  assert (0 < 2 ^ shift) as HS by (apply Z.pow_pos_nonneg; lia).
  pose proof (Z.div_mod a (2 ^ shift) ltac:(lia)) as Hdm.
  pose proof (Z.mod_pos_bound a (2 ^ shift) HS) as Hr.
  assert (2 ^ Z.succ L <= 2 ^ k) as Hle by (apply Z.pow_le_mono_r; lia).
  set (q := a / 2 ^ shift) in *. set (r := a mod 2 ^ shift) in *.
  assert (q < 2 ^ 53) as Hq by nia.
  destruct (_ || _); nia.
Qed.

(** A float sum is not below an integer that its exact value reaches. *)
Lemma round_float_above (y : Q) (t : Z) :
  0 < t -> (inject_Z t <= y)%Q -> (y < inject_Z (2 ^ 53))%Q ->
  (inject_Z t <= round_float y)%Q.
Proof.
  intros Ht Hlo Hhi. destruct y as [a b].
  unfold Qle, Qlt in Hlo, Hhi. cbn [Qnum Qden inject_Z] in Hlo, Hhi.
  rewrite Z.mul_1_r in Hlo, Hhi.
  set (B := Z.pos b) in *.
  assert (0 < B) as HB by (unfold B; lia).
  assert (0 < a) as Hpos by nia.
  unfold round_float, significand_bits. cbn [Qnum Qden]. fold B.
  rewrite (Z.abs_eq a) by lia.
  replace (a =? 0) with false by (symmetry; apply Z.eqb_neq; lia).
  cbv zeta.
  set (k := Z.log2 a - Z.log2 B).
  set (l := if B * 2 ^ Z.max 0 k <=? a * 2 ^ Z.max 0 (- k) then k else k - 1).
  pose proof (Z.log2_spec a Hpos) as [Ha1 Ha2].
  pose proof (Z.log2_spec B HB) as [Hb1 Hb2].
  pose proof (Z.log2_nonneg a) as Hla. pose proof (Z.log2_nonneg B) as Hlb.
  assert (Hl : B * 2 ^ Z.max 0 l <= a * 2 ^ Z.max 0 (- l)).
  { unfold l.
    destruct (Z.leb_spec (B * 2 ^ Z.max 0 k) (a * 2 ^ Z.max 0 (- k))) as [H1|H1];
      [exact H1|].
    destruct (Z.le_gt_cases 1 k) as [Hk|Hk].
    - rewrite (Z.max_r 0 (k - 1)), (Z.max_l 0 (- (k - 1))) by lia.
      rewrite Z.pow_0_r, Z.mul_1_r.
      assert (2 ^ Z.succ (Z.log2 B) * 2 ^ (k - 1) = 2 ^ Z.log2 a) as E.
      { rewrite <- Z.pow_add_r by lia. f_equal. unfold k. lia. }
      assert (0 < 2 ^ (k - 1)) by (apply Z.pow_pos_nonneg; lia).
      nia.
    - rewrite (Z.max_l 0 (k - 1)), (Z.max_r 0 (- (k - 1))) by lia.
      rewrite Z.pow_0_r, Z.mul_1_r.
      assert (2 ^ Z.log2 a * 2 ^ (- (k - 1)) = 2 ^ Z.succ (Z.log2 B)) as E.
      { rewrite <- Z.pow_add_r by lia. f_equal. unfold k. lia. }
      assert (0 < 2 ^ (- (k - 1))) by (apply Z.pow_pos_nonneg; lia).
      nia. }
  assert (Hl52 : l <= 52).
  { destruct (Z.le_gt_cases l 52) as [|Hgt]; [assumption|]. exfalso.
    rewrite (Z.max_r 0 l), (Z.max_l 0 (- l)) in Hl by lia.
    rewrite Z.pow_0_r, Z.mul_1_r in Hl.
    assert (2 ^ 53 <= 2 ^ l) by (apply Z.pow_le_mono_r; lia). nia. }
  clearbody l. clear k Hl.
  rewrite (Z.max_l 0 (l + 1 - 53)), (Z.max_r 0 (- (l + 1 - 53))) by lia.
  rewrite Z.pow_0_r, !Z.mul_1_r.
  set (s := - (l + 1 - 53)).
  assert (0 < 2 ^ s) as Hs by (apply Z.pow_pos_nonneg; unfold s; lia).
  assert (t * 2 ^ s <= a * 2 ^ s / B) as Hq
    by (apply Z.div_le_lower_bound; [exact HB | nia]).
  rewrite Z.sgn_pos by lia. rewrite Z.mul_1_l.
  apply Qle_shift_div_l.
  { change 0%Q with (inject_Z 0). now rewrite <- Zlt_Qlt. }
  rewrite <- inject_Z_mult, <- Zle_Qle.
  destruct (_ || _); lia.
Qed.

End PyNumFacts.

(** ** The recursive walk *)

Section Walk.

Variable bucket : string.
Variable store : list object_entry.

Local Abbreviation list_objects := (list_objects_v2 bucket store).
Local Abbreviation walk := (calculate_folder_size_rec bucket store).

(** One iteration of the loop over the sub-folders. *)
Local Abbreviation step fuel prefix :=
  (fun folder '(total_size, cache) =>
     '(sub, cache) ← walk fuel (child_prefix prefix folder) cache;
     Ok (total_size + sub, cache)).

Lemma files_loop (files : list object_entry) (t : Z) (c : gmap string pyval) :
  for_each files (fun file '(total_size, cache) =>
    Ok (total_size + Size file, cache)) (t, c) = Ok (t + sizes files, c).
Proof.
  revert t. induction files as [|o files IH]; intros t; simpl.
  - now rewrite Z.add_0_r.
  - rewrite IH. f_equal. f_equal. unfold sizes. simpl. lia.
Qed.

Lemma walk_S fuel prefix c :
  walk (S fuel) prefix c =
  '(t, c1) ← for_each (CommonPrefixes (list_objects prefix))
               (step fuel prefix) (0, c);
  let total := t + sizes (Contents (list_objects prefix)) in
  Ok (total, <[prefix := PInt total]> c1).
Proof.
  simpl. unfold child_prefix.
  destruct (for_each _ _ _) as [[t c1]| |]; simpl; try reflexivity.
  now rewrite files_loop.
Qed.

Lemma key_length_bound o :
  In o store -> (String.length (Key o) <= max_key_length store)%nat.
Proof.
  unfold max_key_length. induction store as [|x l IH]; simpl; [easy|].
  intros [->|H]; [lia|]. specialize (IH H). lia.
Qed.

Lemma common_prefix_inv prefix folder :
  In folder (CommonPrefixes (list_objects prefix)) ->
  exists o, In o store /\ under prefix o = true /\ nested prefix o = true
            /\ folder = common_prefix_of prefix o.
Proof.
  simpl. intros H.
  rewrite <- list_elem_of_In, elem_of_remove_dups, list_elem_of_In in H.
  apply in_map_iff in H as (o & <- & H).
  apply filter_In in H as [H Hn]. apply filter_In in H as [H Hu].
  exists o. auto.
Qed.

Lemma common_prefix_room prefix folder :
  In folder (CommonPrefixes (list_objects prefix)) ->
  (String.length prefix < max_key_length store)%nat.
Proof.
  intros H. apply common_prefix_inv in H as (o & Ho & Hu & Hn & _).
  apply key_length_bound in Ho.
  apply PyStrFacts.contains_nonempty in Hn.
  unfold rest_of in Hn. rewrite PyStrFacts.length_drop in Hn. lia.
Qed.

Lemma child_prefix_length prefix folder :
  (String.length prefix < String.length (child_prefix prefix folder))%nat.
Proof.
  unfold child_prefix. rewrite !PyStrFacts.length_app. simpl. lia.
Qed.

(** Enough budget: the walk returns. *)
Lemma walk_total fuel : forall prefix c,
  (depth_budget store prefix <= fuel)%nat -> is_ok (walk fuel prefix c).
Proof.
  induction fuel as [|fuel IH]; intros prefix c Hb.
  - unfold depth_budget in Hb. lia.
  - rewrite walk_S.
    destruct (for_each_total (CommonPrefixes (list_objects prefix))
                (step fuel prefix)) with (s := (0, c)) as [[t c1] ->].
    + intros folder [t c0] Hin.
      pose proof (common_prefix_room _ _ Hin) as Hroom.
      pose proof (child_prefix_length prefix folder) as Hlen.
      destruct (IH (child_prefix prefix folder) c0) as [[sub c'] ->].
      * unfold depth_budget in *. lia.
      * eexists; reflexivity.
    + eexists; reflexivity.
Qed.

Lemma for_each_mono {A S} (xs : list A) (f g : A -> S -> res S) :
  (forall x s s', f x s = Ok s' -> g x s = Ok s') ->
  forall s s', for_each xs f s = Ok s' -> for_each xs g s = Ok s'.
Proof.
  intros Hfg. induction xs as [|x xs IH]; intros s s'; simpl; [easy|].
  intros H. apply bind_ok_inv in H as (s1 & H1 & H2).
  rewrite (Hfg _ _ _ H1). simpl. now apply IH.
Qed.

(** A larger budget does not change a result. *)
Lemma walk_S_mono fuel : forall prefix c r,
  walk fuel prefix c = Ok r -> walk (S fuel) prefix c = Ok r.
Proof.
  induction fuel as [|fuel IH]; intros prefix c r; [discriminate|].
  rewrite (walk_S (S fuel)), (walk_S fuel).
  intros H. apply bind_ok_inv in H as ([t c1] & H1 & H2).
  rewrite (for_each_mono _ (step fuel prefix) (step (S fuel) prefix)
             ltac:(intros folder [t0 c0] s' Hs;
                   apply bind_ok_inv in Hs as ([sub c'] & Hs1 & Hs2);
                   now rewrite (IH _ _ _ Hs1)) _ _ H1).
  exact H2.
Qed.

Lemma walk_mono fuel fuel' prefix c r :
  (fuel <= fuel')%nat ->
  walk fuel prefix c = Ok r -> walk fuel' prefix c = Ok r.
Proof.
  induction 1 as [|k _ IH]; [easy|]. intros H. now apply walk_S_mono, IH.
Qed.

Lemma walk_enough fuel prefix c :
  (depth_budget store prefix <= fuel)%nat ->
  walk fuel prefix c = calculate_folder_size bucket store prefix c.
Proof.
  intros Hb. unfold calculate_folder_size.
  destruct (walk_total (depth_budget store prefix) prefix c (le_n _)) as [r Hr].
  rewrite Hr. now apply (walk_mono _ _ _ _ _ Hb).
Qed.

(** The walk only writes: run over any prior cache, it returns the
    total and the entries it returns over the empty cache, laid over
    the prior entries. *)
Lemma walk_over fuel : forall prefix c,
  walk fuel prefix c = over c (walk fuel prefix ∅).
Proof.
  induction fuel as [|fuel IH]; intros prefix c; [reflexivity|].
  rewrite !walk_S.
  assert (Hloop : forall fs t c0,
    for_each fs (step fuel prefix) (t, c0) =
    '(t', m) ← for_each fs (step fuel prefix) (0, ∅); Ok (t + t', m ∪ c0)).
  { induction fs as [|x fs IHfs]; intros t c0; simpl.
    - now rewrite Z.add_0_r, (left_id_L ∅ (∪)).
    - rewrite (IH _ c0). unfold over.
      destruct (walk fuel (child_prefix prefix x) ∅) as [[sub m1]| |];
        simpl; try reflexivity.
      rewrite (IHfs (t + sub) (m1 ∪ c0)), (IHfs (0 + sub) m1).
      destruct (for_each fs _ (0, ∅)) as [[t' m2]| |]; simpl; try reflexivity.
      f_equal. f_equal; [lia|]. now rewrite (assoc_L (∪)). }
  rewrite (Hloop _ 0 c). unfold over.
  destruct (for_each _ _ (0, ∅)) as [[t m]| |]; simpl; try reflexivity.
  rewrite Z.add_0_l. now rewrite insert_union_l.
Qed.

End Walk.

(** ** refresh_cache and load_cache *)

Section Refresh.

Variable bucket : string.
Variable store : list object_entry.
Variable s3_reachable write_json : reply unit.

Local Abbreviation top_level := (CommonPrefixes (list_objects_v2 bucket store "")).
Local Abbreviation refresh := (refresh_cache bucket store s3_reachable write_json).

(** One iteration of the loop over the top-level folders. *)
Local Abbreviation refresh_step :=
  (fun (folder : string) (cache : gmap string pyval) =>
     '(size, cache) ← calculate_folder_size bucket store folder cache;
     Ok (<[folder := PInt size]> cache)).

Lemma calculate_folder_size_total prefix c :
  is_ok (calculate_folder_size bucket store prefix c).
Proof. apply walk_total. constructor. Qed.

Lemma calculate_folder_size_over prefix c :
  calculate_folder_size bucket store prefix c =
  over c (calculate_folder_size bucket store prefix ∅).
Proof. apply walk_over. Qed.

(** The entry of the prefix itself holds the returned total. *)
Lemma calculate_folder_size_root prefix c total c' :
  calculate_folder_size bucket store prefix c = Ok (total, c') ->
  c' !! prefix = Some (PInt total).
Proof.
  unfold calculate_folder_size, depth_budget. rewrite walk_S.
  intros H. apply bind_ok_inv in H as ([t c1] & _ & H).
  simpl in H. injection H as <- <-. apply lookup_insert_eq.
Qed.

Lemma refresh_loop_total fs c : is_ok (for_each fs refresh_step c).
Proof.
  apply for_each_total. intros folder c0 _.
  destruct (calculate_folder_size_total folder c0) as [[t c1] ->].
  eexists; reflexivity.
Qed.

Lemma refresh_loop_over fs : forall c,
  for_each fs refresh_step c = m ← for_each fs refresh_step ∅; Ok (m ∪ c).
Proof.
  induction fs as [|x fs IH]; intros c; simpl.
  - now rewrite (left_id_L ∅ (∪)).
  - rewrite (calculate_folder_size_over x c). unfold over.
    destruct (calculate_folder_size bucket store x ∅) as [[t m1]| |];
      simpl; try reflexivity.
    rewrite (IH (<[x:=PInt t]> (m1 ∪ c))), (IH (<[x:=PInt t]> m1)).
    destruct (for_each fs _ ∅) as [m2| |]; simpl; try reflexivity.
    now rewrite insert_union_l, (assoc_L (∪)).
Qed.

(** A refresh returns exactly when the store is reached and the file
    is written. *)
Lemma refresh_cache_total now c :
  s3_reachable = Response tt -> write_json = Response tt ->
  is_ok (refresh now c).
Proof.
  intros Hs Hw. unfold refresh_cache. rewrite Hs, Hw. cbn [call mbind res_bind].
  destruct (refresh_loop_total top_level c) as [c' ->]. eexists; reflexivity.
Qed.

Lemma refresh_cache_unreachable now c e :
  s3_reachable = Fault e -> refresh now c = Raise e.
Proof. intros Hs. unfold refresh_cache. now rewrite Hs. Qed.

Lemma refresh_cache_unwritable now c e :
  s3_reachable = Response tt -> write_json = Fault e -> refresh now c = Raise e.
Proof.
  intros Hs Hw. unfold refresh_cache. rewrite Hs, Hw. cbn [call mbind res_bind].
  now destruct (refresh_loop_total top_level c) as [c' ->].
Qed.

Lemma refresh_cache_ok_inv now c :
  is_ok (refresh now c) ->
  s3_reachable = Response tt /\ write_json = Response tt.
Proof.
  intros [r Hr]. unfold refresh_cache in Hr.
  destruct s3_reachable as [[]|e]; [|discriminate].
  cbn [call mbind res_bind] in Hr. apply bind_ok_inv in Hr as (m & _ & Hr).
  destruct write_json as [[]|e]; [auto | discriminate].
Qed.

Lemma refresh_cache_over now c fresh :
  refresh now ∅ = Ok fresh ->
  refresh now c = Ok (fresh ∪ c).
Proof.
  unfold refresh_cache.
  destruct (call s3_reachable) as [[]| |]; cbn [mbind res_bind]; try discriminate.
  rewrite (refresh_loop_over _ c).
  destruct (for_each top_level _ ∅) as [m| |]; cbn [mbind res_bind];
    try discriminate.
  destruct (call write_json) as [[]| |]; cbn [mbind res_bind]; try discriminate.
  intros [= <-]. now rewrite insert_union_l.
Qed.

(** Every result of a refresh is the refresh of the empty cache laid
    over the prior cache. *)
Lemma refresh_cache_over_inv now c cache :
  refresh now c = Ok cache ->
  exists fresh, refresh now ∅ = Ok fresh /\ cache = fresh ∪ c.
Proof.
  intros H.
  destruct (refresh_cache_ok_inv now c (ex_intro _ _ H)) as [Hs Hw].
  destruct (refresh_cache_total now ∅ Hs Hw) as [fresh Hf].
  exists fresh. split; [exact Hf|].
  rewrite (refresh_cache_over _ _ _ Hf) in H. congruence.
Qed.

Lemma refresh_cache_stamp now c c' :
  refresh now c = Ok c' ->
  c' !! "time" = Some (PFloat now).
Proof.
  unfold refresh_cache. intros H.
  apply bind_ok_inv in H as (u & _ & H).
  apply bind_ok_inv in H as (m & _ & H).
  apply bind_ok_inv in H as (u' & _ & [= <-]).
  apply lookup_insert_eq.
Qed.

(** A snapshot whose stamp is below the float [now + 900] is
    refreshed: every snapshot written in the past is. *)
Lemma load_cache_refreshes now refreshed content stamp :
  content !! "time" = Some stamp ->
  PyNum.lt_num stamp (PyNum.add_float now 900) = Ok true ->
  load_cache bucket store s3_reachable write_json now refreshed (Snapshot content) =
  refresh refreshed content.
Proof.
  intros Hs Hlt. unfold load_cache, Snapshot, getitem.
  cbn [json_load mbind res_bind]. rewrite Hs. cbn [mbind res_bind].
  now rewrite Hlt.
Qed.

Lemma load_cache_keeps now refreshed content stamp :
  content !! "time" = Some stamp ->
  PyNum.lt_num stamp (PyNum.add_float now 900) = Ok false ->
  load_cache bucket store s3_reachable write_json now refreshed (Snapshot content) =
  Ok content.
Proof.
  intros Hs Hlt. unfold load_cache, Snapshot, getitem.
  cbn [json_load mbind res_bind]. rewrite Hs. cbn [mbind res_bind].
  now rewrite Hlt.
Qed.

End Refresh.

(** ** Listings partition the objects under a prefix *)

Module ListingFacts.
Import PyStr PyStrFacts.

Lemma startswith_trans p q s :
  startswith p q = true -> startswith q s = true -> startswith p s = true.
Proof.
  intros Hpq Hqs. rewrite (startswith_split q s Hqs).
  rewrite (startswith_split p q Hpq), app_assoc. apply startswith_app.
Qed.

Lemma startswith_through c s : startswith (through c s) s = true.
Proof.
  induction s as [|d s IH]; [reflexivity|]. simpl.
  destruct (Ascii.eqb d c); simpl; rewrite Ascii.eqb_refl; [reflexivity | exact IH].
Qed.

Lemma contains_app_l c s t : contains c s = true -> contains c (s +:+ t) = true.
Proof.
  induction s as [|d s IH]; [discriminate|]. rewrite app_cons. simpl.
  destruct (Ascii.eqb d c); auto.
Qed.

Lemma contains_through c s : contains c s = true -> contains c (through c s) = true.
Proof.
  induction s as [|d s IH]; [discriminate|]. simpl.
  destruct (Ascii.eqb d c) eqn:E; simpl; rewrite E; auto.
Qed.

(** The text up to the first separator is not changed by what follows. *)
Lemma through_app c s t :
  contains c s = true -> through c (through c s +:+ t) = through c s.
Proof.
  induction s as [|d s IH]; [discriminate|]. simpl.
  destruct (Ascii.eqb d c) eqn:E; intros H.
  - rewrite app_cons. simpl. now rewrite E.
  - rewrite app_cons. simpl. rewrite E. f_equal. now apply IH.
Qed.

Lemma count_through c s : contains c s = true -> count c (through c s) = 1%nat.
Proof.
  induction s as [|d s IH]; [discriminate|]. simpl.
  destruct (Ascii.eqb d c) eqn:E; simpl; rewrite E; auto.
Qed.

Lemma count_app c s t : count c (s +:+ t) = (count c s + count c t)%nat.
Proof.
  induction s as [|d s IH]; [reflexivity|]. rewrite app_cons. simpl.
  destruct (Ascii.eqb d c); simpl; now rewrite IH.
Qed.

Lemma drop_last_through c s :
  contains c s = true ->
  drop_last (through c s) +:+ String c "" = through c s.
Proof.
  induction s as [|d s IH]; [discriminate|]. simpl.
  destruct (Ascii.eqb_spec d c) as [->|Hne]; [reflexivity|]. intros H.
  specialize (IH H).
  destruct (through c s) as [|e t] eqn:Et.
  - destruct s; simpl in *; [discriminate|].
    destruct (Ascii.eqb a c); discriminate.
  - change (drop_last (String d (String e t)))
      with (String d (drop_last (String e t))).
    rewrite app_cons. now rewrite IH.
Qed.

Lemma endswith_app c a b : b <> "" -> endswith c (a +:+ b) = endswith c b.
Proof.
  intros Hb. induction a as [|d a IH]; [reflexivity|]. rewrite app_cons.
  simpl. destruct (a +:+ b) eqn:E; [|exact IH].
  destruct a; [rewrite app_nil_l in E; congruence | discriminate].
Qed.

Lemma endswith_contains c s : endswith c s = true -> contains c s = true.
Proof.
  induction s as [|d s IH]; [discriminate|]. simpl.
  destruct s as [|e s]; [now intros -> |].
  intros H. destruct (Ascii.eqb d c); auto.
Qed.

(** The text up to the first separator is decided by a part that holds
    one. *)
Lemma through_app_l c s t :
  contains c s = true -> through c (s +:+ t) = through c s.
Proof.
  induction s as [|d s IH]; [discriminate|]. rewrite app_cons. simpl.
  destruct (Ascii.eqb d c); [reflexivity|]. intros H. f_equal. now apply IH.
Qed.

(** *** Sums over filtered lists *)

Lemma sizes_cons o l : sizes (o :: l) = Size o + sizes l.
Proof. reflexivity. Qed.

Lemma sizes_split (P : object_entry -> bool) l :
  sizes l = sizes (List.filter P l) + sizes (List.filter (fun o => negb (P o)) l).
Proof.
  induction l as [|o l IH]; [reflexivity|]. cbn [List.filter].
  destruct (P o); cbn [negb]; rewrite !sizes_cons; lia.
Qed.

Lemma filter_filter {A} (P Q : A -> bool) l :
  List.filter Q (List.filter P l) = List.filter (fun x => P x && Q x) l.
Proof.
  induction l as [|x l IH]; [reflexivity|]. simpl.
  destruct (P x); simpl; [destruct (Q x)|]; now rewrite IH.
Qed.

Lemma sum_no_group (fs : list string) (x : string) (w : Z) :
  x ∉ fs ->
  foldr (fun f acc => (if String.eqb x f then w else 0) + acc) 0 fs = 0.
Proof.
  induction fs as [|g fs IH]; [reflexivity|]. intros Hnot. simpl.
  apply not_elem_of_cons in Hnot as [Hne Hnot].
  destruct (String.eqb_spec x g); [congruence|]. now rewrite IH.
Qed.

(** One group takes the whole weight of an element. *)
Lemma sum_one_group (fs : list string) (x : string) (w : Z) :
  NoDup fs -> x ∈ fs ->
  foldr (fun f acc => (if String.eqb x f then w else 0) + acc) 0 fs = w.
Proof.
  induction 1 as [|f fs Hnot Hnd IH]; intros Hin; [now apply elem_of_nil in Hin|].
  simpl. destruct (String.eqb_spec x f) as [->|Hne].
  - rewrite sum_no_group by exact Hnot. lia.
  - apply elem_of_cons in Hin as [Heq|Hin]; [contradiction|].
    now rewrite IH.
Qed.

(** Grouping the objects by a key that ranges over a duplicate-free
    list keeps the sum of the sizes. *)
Lemma sum_by_group (g : object_entry -> string) (fs : list string) l :
  NoDup fs -> (forall o, In o l -> g o ∈ fs) ->
  foldr (fun f acc =>
           sizes (List.filter (fun o => String.eqb (g o) f) l) + acc) 0 fs
  = sizes l.
Proof.
  intros Hnd. induction l as [|o l IH]; intros Hin.
  - simpl. clear. induction fs as [|f fs IH]; [reflexivity|]. simpl. now rewrite IH.
  - assert (Hsplit :
      foldr (fun f acc =>
               sizes (List.filter (fun o => String.eqb (g o) f) (o :: l)) + acc) 0 fs
      = foldr (fun f acc => (if String.eqb (g o) f then Size o else 0) + acc) 0 fs
        + foldr (fun f acc =>
                   sizes (List.filter (fun o => String.eqb (g o) f) l) + acc) 0 fs).
    { clear. induction fs as [|f fs IHf]; [reflexivity|].
      cbn [foldr]. rewrite IHf. cbn [List.filter].
      destruct (String.eqb (g o) f); rewrite ?sizes_cons; lia. }
    rewrite Hsplit, IH by (intros o' Ho'; apply Hin; now right).
    rewrite (sum_one_group fs (g o) (Size o) Hnd (Hin o (or_introl eq_refl))).
    now rewrite sizes_cons.
Qed.

Lemma startswith_app_app p a b :
  startswith (p +:+ a) (p +:+ b) = startswith a b.
Proof.
  induction p as [|c p IH]; [reflexivity|]. rewrite !app_cons. simpl.
  now rewrite Ascii.eqb_refl.
Qed.

Lemma sum_ext (F G : string -> Z) (fs : list string) :
  (forall f, In f fs -> F f = G f) ->
  foldr (fun f acc => F f + acc) 0 fs = foldr (fun f acc => G f + acc) 0 fs.
Proof.
  induction fs as [|f fs IH]; intros H; [reflexivity|]. simpl.
  rewrite (H f (or_introl eq_refl)), IH; [reflexivity|].
  intros f' Hf'. apply H. now right.
Qed.

Section Partition.

Variable bucket : string.
Variable store : list object_entry.

(** The objects under a listed sub-folder are the nested objects under
    the prefix that are grouped into that sub-folder. *)
Lemma under_common_prefix prefix o0 o :
  nested prefix o0 = true ->
  under (common_prefix_of prefix o0) o =
  under prefix o && nested prefix o
    && String.eqb (common_prefix_of prefix o) (common_prefix_of prefix o0).
Proof.
  intros Hn0. unfold common_prefix_of, nested in *.
  set (t := through slash (rest_of prefix o0)).
  destruct (under (prefix +:+ t) o) eqn:E.
  - unfold under in E. apply startswith_split in E.
    rewrite app_assoc in E. set (r := drop _ (Key o)) in E.
    unfold under, rest_of. rewrite E, startswith_app, drop_app.
    unfold t. rewrite contains_app_l by now apply contains_through.
    rewrite through_app by exact Hn0. simpl. symmetry. apply String.eqb_refl.
  - symmetry. apply not_true_is_false. intros H.
    apply andb_true_iff in H as [H He]. apply andb_true_iff in H as [Hu Hn].
    apply String.eqb_eq in He. fold t in He.
    unfold under in E, Hu. rewrite <- He in E.
    pose proof (startswith_split _ _ Hu) as Hk.
    fold (rest_of prefix o) in Hk. rewrite Hk in E.
    rewrite startswith_app_app in E.
    now rewrite startswith_through in E.
Qed.

Lemma size_under_partition prefix :
  size_under store prefix =
  sizes (Contents (list_objects_v2 bucket store prefix))
  + total_of store (CommonPrefixes (list_objects_v2 bucket store prefix)).
Proof.
  change (size_under store prefix)
    with (sizes (List.filter (under prefix) store)).
  rewrite (sizes_split (nested prefix) (List.filter (under prefix) store)).
  rewrite Z.add_comm. f_equal. simpl.
  set (N := List.filter (nested prefix) (List.filter (under prefix) store)).
  rewrite <- (sum_by_group (common_prefix_of prefix)
                (remove_dups (map (common_prefix_of prefix) N)) N).
  - unfold total_of. apply sum_ext. intros f Hf.
    rewrite <- list_elem_of_In, elem_of_remove_dups, list_elem_of_In in Hf.
    apply in_map_iff in Hf as (o0 & <- & Ho0).
    apply filter_In in Ho0 as [_ Hn0].
    change (size_under store (common_prefix_of prefix o0))
      with (sizes (List.filter (under (common_prefix_of prefix o0)) store)).
    unfold N. rewrite !filter_filter. f_equal.
    apply List.filter_ext. intros o.
    rewrite (under_common_prefix prefix o0 o Hn0). now rewrite andb_assoc.
  - apply NoDup_remove_dups.
  - intros o Ho. apply elem_of_remove_dups, list_elem_of_In, in_map, Ho.
Qed.

End Partition.

End ListingFacts.

(** ** The walk where it recurses faithfully *)

Section FaithfulWalk.

Variable bucket : string.
Variable store : list object_entry.

Local Abbreviation list_objects := (list_objects_v2 bucket store).
Local Abbreviation walk := (calculate_folder_size_rec bucket store).

Lemma startswith_refl p : PyStr.startswith p p = true.
Proof.
  rewrite <- (PyStrFacts.app_empty_r p) at 2. apply PyStrFacts.startswith_app.
Qed.

Lemma startswith_child prefix folder :
  PyStr.startswith prefix (child_prefix prefix folder) = true.
Proof. unfold child_prefix. apply PyStrFacts.startswith_app. Qed.

(** Below a prefix where the walk recurses faithfully, it returns the
    sum of the sizes of the objects under the prefix. *)
Lemma walk_sums fuel : forall prefix c,
  (forall q, PyStr.startswith prefix q = true -> faithful bucket store q) ->
  (depth_budget store prefix <= fuel)%nat ->
  exists c', walk fuel prefix c = Ok (size_under store prefix, c').
Proof.
  induction fuel as [|fuel IH]; intros prefix c Hf Hb.
  - unfold depth_budget in Hb. lia.
  - rewrite walk_S.
    assert (Hloop : forall fs,
      (forall f, In f fs -> In f (CommonPrefixes (list_objects prefix))) ->
      forall t c0, exists c',
        for_each fs (fun folder '(total_size, cache) =>
          '(sub, cache) ← walk fuel (child_prefix prefix folder) cache;
          Ok (total_size + sub, cache)) (t, c0)
        = Ok (t + total_of store fs, c')).
    { induction fs as [|f fs IHfs]; intros Hin t c0.
      - exists c0. simpl. now rewrite Z.add_0_r.
      - assert (In f (CommonPrefixes (list_objects prefix))) as Hfin
          by (apply Hin; now left).
        pose proof (Hf prefix (startswith_refl prefix) f Hfin) as Hchild.
        pose proof (common_prefix_room _ _ _ _ Hfin) as Hroom.
        pose proof (child_prefix_length prefix f) as Hlen.
        destruct (IH (child_prefix prefix f) c0) as [c1 Hc1].
        + intros q Hq. apply Hf.
          apply (ListingFacts.startswith_trans _ _ _ (startswith_child prefix f) Hq).
        + unfold depth_budget in *. lia.
        + destruct (IHfs (fun f' H' => Hin f' (or_intror H'))
                      (t + size_under store (child_prefix prefix f)) c1)
            as [c' Hc']. exists c'.
          cbn [for_each]. rewrite Hc1. cbn [mbind res_bind].
          rewrite Hc'. rewrite Hchild. do 2 f_equal.
          unfold total_of. simpl. lia. }
    destruct (Hloop _ (fun f H => H) 0 c) as [c1 Hc1].
    rewrite Hc1. cbn [mbind res_bind]. eexists. do 2 f_equal.
    rewrite (ListingFacts.size_under_partition bucket store prefix). lia.
Qed.

Lemma calculate_folder_size_sums prefix c :
  (forall q, PyStr.startswith prefix q = true -> faithful bucket store q) ->
  exists c',
    calculate_folder_size bucket store prefix c
    = Ok (size_under store prefix, c').
Proof. intros Hf. now apply walk_sums. Qed.

(** A prefix holding two delimiters cannot occur in a folder name, so
    the walk recurses faithfully at it. *)
Lemma faithful_deep q :
  (2 <= PyStr.count slash q)%nat -> faithful bucket store q.
Proof.
  intros Hq folder Hin.
  apply common_prefix_inv in Hin as (o & _ & _ & Hn & ->).
  unfold common_prefix_of, child_prefix, nested in *.
  set (r := rest_of q o) in *.
  assert (q <> "") as Hne by (intros ->; simpl in Hq; lia).
  assert (~ occurs q (PyStr.through slash r)) as Hocc.
  { intros (u & v & H). apply (f_equal (PyStr.count slash)) in H.
    rewrite !ListingFacts.count_app, ListingFacts.count_through in H by exact Hn.
    lia. }
  apply (ReplaceFacts.replace_is_suffix_iff q _ Hne) in Hocc. rewrite Hocc.
  f_equal. now apply ListingFacts.drop_last_through.
Qed.

Lemma calculate_folder_size_sums_deep prefix c :
  (2 <= PyStr.count slash prefix)%nat ->
  exists c',
    calculate_folder_size bucket store prefix c
    = Ok (size_under store prefix, c').
Proof.
  intros Hp. apply calculate_folder_size_sums. intros q Hq.
  apply faithful_deep. rewrite (PyStrFacts.startswith_split _ _ Hq).
  rewrite ListingFacts.count_app. lia.
Qed.

End FaithfulWalk.

(** ** What the faithful walk leaves in the cache *)

Section Memo.

Variable bucket : string.
Variable store : list object_entry.

Local Abbreviation list_objects := (list_objects_v2 bucket store).
Local Abbreviation walk := (calculate_folder_size_rec bucket store).

Lemma exact_union m c : exact store m -> exact store c -> exact store (m ∪ c).
Proof.
  intros Hm Hc key v H. apply lookup_union_Some_raw in H as [H|[_ H]]; eauto.
Qed.

Lemma exact_insert key c :
  exact store c -> exact store (<[key := PInt (size_under store key)]> c).
Proof.
  intros Hc k v H. destruct (decide (key = k)) as [->|Hne].
  - rewrite lookup_insert_eq in H. congruence.
  - rewrite lookup_insert_ne in H by exact Hne. eauto.
Qed.

Lemma exact_empty : exact store ∅.
Proof. intros key v H. now rewrite lookup_empty in H. Qed.

(** A folder strictly below a prefix lies under one of the listed
    sub-folders. *)
Lemma folder_under_listed prefix q :
  folder_under store prefix q -> q <> prefix ->
  exists f,
    In f (CommonPrefixes (list_objects prefix)) /\ folder_under store f q.
Proof.
  intros (r & -> & [->|(He & o & Ho & Hu)]) Hne.
  - now rewrite PyStrFacts.app_empty_r in Hne.
  - pose proof (ListingFacts.endswith_contains _ _ He) as Hc.
    pose proof (PyStrFacts.startswith_split _ _ Hu) as Hk.
    rewrite PyStrFacts.app_assoc in Hk. set (s := PyStr.drop _ (Key o)) in Hk.
    assert (Hup : under prefix o = true).
    { unfold under. rewrite Hk. apply PyStrFacts.startswith_app. }
    assert (Hrest : rest_of prefix o = r +:+ s).
    { unfold rest_of. rewrite Hk. apply PyStrFacts.drop_app. }
    assert (Hnest : nested prefix o = true).
    { unfold nested. rewrite Hrest. now apply ListingFacts.contains_app_l. }
    exists (prefix +:+ PyStr.through slash r). split.
    + simpl. rewrite <- list_elem_of_In, elem_of_remove_dups, list_elem_of_In.
      apply in_map_iff. exists o. split.
      * unfold common_prefix_of. rewrite Hrest.
        now rewrite ListingFacts.through_app_l.
      * apply filter_In. split; [|exact Hnest].
        apply filter_In. split; [exact Ho | exact Hup].
    + pose proof (PyStrFacts.startswith_split _ _
                    (ListingFacts.startswith_through slash r)) as Hr.
      set (r' := PyStr.drop _ r) in Hr.
      exists r'. split.
      * rewrite PyStrFacts.app_assoc. now rewrite <- Hr.
      * destruct (decide (r' = "")) as [Er|Er]; [now left|]. right. split.
        -- rewrite Hr, ListingFacts.endswith_app in He by exact Er. exact He.
        -- exists o. split; [exact Ho | exact Hu].
Qed.

(** Below a prefix where the walk recurses faithfully, the entries it
    writes hold the total size of their folder, and every folder under
    the prefix gets one. *)
Lemma walk_memoizes fuel : forall prefix,
  (forall q, PyStr.startswith prefix q = true -> faithful bucket store q) ->
  (depth_budget store prefix <= fuel)%nat ->
  exists m,
    walk fuel prefix ∅ = Ok (size_under store prefix, m) /\
    exact store m /\
    forall q, folder_under store prefix q -> is_Some (m !! q).
Proof.
  induction fuel as [|fuel IH]; intros prefix Hf Hb.
  - unfold depth_budget in Hb. lia.
  - destruct (walk_sums bucket store (S fuel) prefix ∅ Hf Hb) as [m Hm].
    exists m. split; [exact Hm|].
    rewrite walk_S in Hm.
    assert (Hloop : forall fs,
      (forall f, In f fs -> In f (CommonPrefixes (list_objects prefix))) ->
      forall t c0 t' c',
        exact store c0 ->
        for_each fs (fun folder '(total_size, cache) =>
          '(sub, cache) ← walk fuel (child_prefix prefix folder) cache;
          Ok (total_size + sub, cache)) (t, c0) = Ok (t', c') ->
        exact store c' /\
        (forall q, is_Some (c0 !! q) -> is_Some (c' !! q)) /\
        (forall f q, In f fs -> folder_under store f q -> is_Some (c' !! q))).
    { induction fs as [|f fs IHfs]; intros Hin t c0 t' c' Hc0 Hrun.
      - injection Hrun as <- <-. split; [exact Hc0|]. split; [auto|].
        intros f q [].
      - assert (In f (CommonPrefixes (list_objects prefix))) as Hfin
          by (apply Hin; now left).
        pose proof (Hf prefix (startswith_refl prefix) f Hfin) as Hchild.
        pose proof (common_prefix_room _ _ _ _ Hfin) as Hroom.
        pose proof (child_prefix_length prefix f) as Hlen.
        destruct (IH (child_prefix prefix f)) as (mf & Hmf & Hex & Hcov).
        + intros q Hq. apply Hf.
          apply (ListingFacts.startswith_trans _ _ _ (startswith_child prefix f) Hq).
        + unfold depth_budget in *. lia.
        + cbn [for_each] in Hrun.
          rewrite (walk_over bucket store fuel _ c0), Hmf in Hrun.
          cbn [over mbind res_bind] in Hrun.
          destruct (IHfs (fun f' H' => Hin f' (or_intror H')) _ _ _ _
                      (exact_union _ _ Hex Hc0) Hrun) as (Hex' & Hmono & Hcov').
          split; [exact Hex'|]. split.
          * intros q Hq. apply Hmono. apply lookup_union_is_Some. now right.
          * intros f' q [<-|Hf'] Hq; [|now apply (Hcov' f')].
            apply Hmono. apply lookup_union_is_Some. left.
            apply Hcov. now rewrite Hchild. }
    apply bind_ok_inv in Hm as ([t c1] & Hrun & Hm).
    cbn zeta in Hm. injection Hm as Ht <-.
    destruct (Hloop _ (fun f H => H) _ _ _ _ exact_empty Hrun)
      as (Hex & _ & Hcov).
    rewrite Ht. split; [now apply exact_insert|].
    intros q Hq. destruct (decide (q = prefix)) as [->|Hne].
    + rewrite lookup_insert_eq. eauto.
    + rewrite lookup_insert_ne by congruence.
      destruct (folder_under_listed prefix q Hq Hne) as (f & Hfin & Hfq).
      now apply (Hcov f).
Qed.

(** The cache after a faithful walk: every folder under the prefix is
    mapped to the sum of the sizes of the objects under it. *)
Lemma calculate_folder_size_memoizes prefix c total c' :
  (forall q, PyStr.startswith prefix q = true -> faithful bucket store q) ->
  calculate_folder_size bucket store prefix c = Ok (total, c') ->
  total = size_under store prefix /\
  forall q, folder_under store prefix q ->
            c' !! q = Some (PInt (size_under store q)).
Proof.
  intros Hf. unfold calculate_folder_size. rewrite walk_over.
  destruct (walk_memoizes _ prefix Hf (le_n _)) as (m & -> & Hex & Hcov).
  cbn [over mbind res_bind]. intros [= <- <-]. split; [reflexivity|].
  intros q Hq. destruct (Hcov q Hq) as [v Hv].
  rewrite (lookup_union_Some_l _ _ _ _ Hv). f_equal. now apply Hex.
Qed.

End Memo.

(** ** The gateway *)

Section GatewayFacts.

Variable bucket : string.
Variable cache : gmap string pyval.
Variable s3_list_objects_v2 : string -> reply listing.
Variable s3_get_body : string -> reply string.
Variable s3_head_object : string -> reply head_response.
Variable s3_delete_object : string -> reply (option Z).
Variable s3_put : string -> string -> reply (option Z).

Lemma for_each_no_timeout {A S} (xs : list A) (body : A -> S -> res S) :
  (forall x s, body x s <> Timeout) ->
  forall s, for_each xs body s <> Timeout.
Proof.
  intros Hb. induction xs as [|x xs IH]; intros s; simpl; [discriminate|].
  destruct (body x s) as [s'| |] eqn:E; simpl; [apply IH | discriminate|].
  now apply Hb in E.
Qed.

Lemma try_except_ok {A} (body : res A) (handler : exn -> res A) :
  body <> Timeout -> (forall e, is_ok (handler e)) ->
  is_ok (try_except body handler).
Proof.
  intros Hb Hh. destruct body as [a|e|]; simpl;
    [eexists; reflexivity | apply Hh | congruence].
Qed.

Lemma bind_no_timeout {A B} (m : res A) (k : A -> res B) :
  m <> Timeout -> (forall a, k a <> Timeout) -> m ≫= k <> Timeout.
Proof.
  intros Hm Hk. destruct m; simpl; [auto | discriminate | congruence].
Qed.

Lemma call_no_timeout {A} (r : reply A) : call r <> Timeout.
Proof. destruct r; discriminate. Qed.

(** The four methods with a [try] always hand back a value. *)
Lemma get_bucket_objects_returns prefix :
  is_ok (get_bucket_objects cache s3_list_objects_v2 prefix).
Proof.
  apply try_except_ok; [|intros e; eexists; reflexivity].
  apply bind_no_timeout; [apply call_no_timeout|]. intros objs.
  apply bind_no_timeout.
  { apply for_each_no_timeout. intros folder rows.
    apply bind_no_timeout; [|discriminate].
    apply bind_no_timeout; [apply PyNumFacts.human_readable_size_no_timeout | discriminate]. }
  intros rows. apply bind_no_timeout; [|discriminate].
  apply for_each_no_timeout. intros file items.
  apply bind_no_timeout; [|discriminate].
  apply bind_no_timeout; [apply PyNumFacts.human_readable_size_no_timeout | discriminate].
Qed.

Lemma get_object_info_returns key :
  is_ok (get_object_info s3_head_object key).
Proof.
  apply try_except_ok; [|intros e; eexists; reflexivity].
  apply bind_no_timeout; [apply call_no_timeout|]. intros response.
  apply bind_no_timeout; [apply PyNumFacts.human_readable_size_no_timeout | discriminate].
Qed.

Lemma delete_object_returns key :
  is_ok (delete_object bucket s3_delete_object key).
Proof.
  apply try_except_ok; [|intros e; eexists; reflexivity].
  apply bind_no_timeout; [apply call_no_timeout | discriminate].
Qed.

Lemma put_object_returns key data :
  is_ok (put_object s3_put key data).
Proof.
  apply try_except_ok; [|intros e; eexists; reflexivity].
  apply bind_no_timeout; [apply call_no_timeout|]. intros response.
  apply bind_no_timeout; [destruct response; discriminate|].
  intros status. destruct (negb _); discriminate.
Qed.

(** A failure of the store call is handed back as [(None, error)]. *)
Lemma get_bucket_objects_catches prefix e :
  s3_list_objects_v2 prefix = Fault e ->
  get_bucket_objects cache s3_list_objects_v2 prefix = Ok (None, Some (str_exn e)).
Proof. unfold get_bucket_objects. now intros ->. Qed.

Lemma get_object_info_catches key e :
  s3_head_object key = Fault e ->
  get_object_info s3_head_object key = Ok (None, Some e).
Proof. unfold get_object_info. now intros ->. Qed.

Lemma delete_object_catches key e :
  s3_delete_object key = Fault e ->
  delete_object bucket s3_delete_object key =
  Ok (None, Some ("Could not delete object '" +:+ key +:+ "' , " +:+ str_exn e)).
Proof. unfold delete_object. now intros ->. Qed.

Lemma put_object_catches key data e :
  s3_put key data = Fault e ->
  put_object s3_put key data = Ok (PutPair None (Some (str_exn e))).
Proof. unfold put_object. now intros ->. Qed.

(** [get_object] has no [try]: the failure leaves the method. *)
Lemma get_object_propagates path e :
  s3_get_body path = Fault e -> get_object s3_get_body path = Raise e.
Proof. unfold get_object. now intros ->. Qed.

(** Rows collected by a loop that appends one row per element. *)
Lemma for_each_rows {A R B} (make : A -> res R) (g : R -> B) (h : A -> B)
    (xs : list A) :
  (forall x r, make x = Ok r -> g r = h x) ->
  forall acc rows,
    for_each xs (fun x rows => row ← make x; Ok (rows ++ [row])%list) acc
      = Ok rows ->
    map g rows = (map g acc ++ map h xs)%list.
Proof.
  intros Hm. induction xs as [|x xs IH]; intros acc rows; simpl.
  - intros [= <-]. now rewrite app_nil_r.
  - intros H. apply bind_ok_inv in H as (acc' & H1 & H2).
    apply bind_ok_inv in H1 as (r & Hr & [= <-]).
    rewrite (IH _ _ H2), map_app. simpl. rewrite (Hm _ _ Hr).
    now rewrite <- app_assoc.
Qed.

Lemma rows_forall2 {R} (path : R -> string) (P : string -> R -> Prop)
    (rows : list R) :
  (forall row, In row rows -> P (path row) row) ->
  Forall2 P (map path rows) rows.
Proof.
  induction rows as [|row rows IH]; intros H; [constructor|].
  constructor; [apply H; now left|]. apply IH. intros r Hr. apply H. now right.
Qed.

Lemma listing_names prefix objs response :
  s3_list_objects_v2 prefix = Response objs ->
  get_bucket_objects cache s3_list_objects_v2 prefix = Ok (Some response, None) ->
  map file_key (files response) =
    map (fun file => PyStr.replace (Key file) prefix "") (Contents objs) /\
  map folder_name (folders response) =
    map (fun folder => PyStr.drop_last (PyStr.replace folder prefix ""))
        (CommonPrefixes objs).
Proof.
  intros Hl. unfold get_bucket_objects. rewrite Hl. simpl.
  destruct (for_each (CommonPrefixes objs) _ _) as [rows| |] eqn:Er;
    simpl; try discriminate.
  destruct (for_each (Contents objs) _ _) as [items| |] eqn:Ei;
    simpl; try discriminate.
  intros [= <-]. simpl. split.
  - apply (for_each_rows (file_row prefix) file_key
             (fun file => PyStr.replace (Key file) prefix "")) in Ei;
      [exact Ei|].
    intros file r Hr. unfold file_row in Hr.
    apply bind_ok_inv in Hr as (shown & _ & [= <-]). reflexivity.
  - apply (for_each_rows (folder_row cache prefix) folder_name
             (fun folder => PyStr.drop_last (PyStr.replace folder prefix "")))
      in Er; [exact Er|].
    intros folder r Hr. unfold folder_row in Hr.
    apply bind_ok_inv in Hr as (shown & _ & [= <-]). reflexivity.
Qed.

End GatewayFacts.

(** ** Claims on loading and refreshing *)

(** C1 (the code departs from the claim).  The claim: Load rebuilds the
    cache if and only if [now - last_refreshed] exceeds 900 seconds, and
    otherwise uses the persisted snapshot unchanged.  The code compares
    [cache['time'] < time() + 900]: at a start at time 1000, the snapshot
    stamped 990 (ten seconds old) is not used as it is but handed to
    [refresh_cache], whatever becomes of the refresh. *)
Theorem load_cache_rebuilds_recent_snapshot :
  (inject_Z 1000 - inject_Z 990 <= inject_Z 900)%Q /\
  forall s3_reachable write_json refreshed,
    load_cache "bk" sample_store s3_reachable write_json
      (inject_Z 1000) refreshed (Snapshot recent_snapshot) =
      refresh_cache "bk" sample_store s3_reachable write_json
        refreshed recent_snapshot /\
    load_cache "bk" sample_store s3_reachable write_json
      (inject_Z 1000) refreshed (Snapshot recent_snapshot) <>
      Ok recent_snapshot.
Proof.
  split; [unfold Qle; simpl; lia|].
  intros s3_reachable write_json refreshed.
  assert (Hl : load_cache "bk" sample_store s3_reachable write_json
                 (inject_Z 1000) refreshed (Snapshot recent_snapshot) =
               refresh_cache "bk" sample_store s3_reachable write_json
                 refreshed recent_snapshot).
  { apply (load_cache_refreshes _ _ _ _ _ _ _ (PFloat (inject_Z 990)));
      [reflexivity | vm_compute; reflexivity]. }
  split; [exact Hl|]. rewrite Hl. intros H.
  apply (f_equal (fun r => c ← r; Ok (c !! "a/"))) in H.
  destruct s3_reachable as [[]|e], write_json as [[]|e'];
    vm_compute in H; discriminate.
Qed.

(** C3, counterexample.  The refreshed cache is not exactly the entries
    computed in the refresh: ["old/"], present before and absent from
    the store's folder tree, survives with its old size. *)
Lemma refresh_cache_keeps_stale_key :
  CommonPrefixes (list_objects_v2 "bk" sample_store "old/") = [] /\
  Contents (list_objects_v2 "bk" sample_store "old/") = [] /\
  (c ← refresh_cache "bk" sample_store done done (inject_Z 1000) stale_cache;
   Ok (c !! "old/")) = Ok (Some (PInt 5)) /\
  (c ← refresh_cache "bk" sample_store done done (inject_Z 1000) ∅;
   Ok (c !! "old/")) = Ok None.
Proof. repeat split; vm_compute; reflexivity. Qed.

(** C3, as amended.  When a refresh completes, its result is the
    entries it computes (those a refresh of the empty cache returns,
    timestamp included) laid over the prior cache: a key is mapped to its
    newly computed value if the refresh computes one, and keeps its prior
    value otherwise.  The result is exactly the computed entries if and
    only if every key of the prior cache is a key the refresh
    computes. *)
Theorem refresh_cache_lays_over_prior bucket store s3_reachable write_json
    now prior cache :
  refresh_cache bucket store s3_reachable write_json now prior = Ok cache ->
    exists fresh,
      refresh_cache bucket store s3_reachable write_json now ∅ = Ok fresh /\
      fresh !! "time" = Some (PFloat now) /\
      cache = fresh ∪ prior /\
      (forall key,
         cache !! key =
         match fresh !! key with
         | Some v => Some v
         | None => prior !! key
         end) /\
      (cache = fresh <->
         forall key, is_Some (prior !! key) -> is_Some (fresh !! key)).
Proof.
  intros H.
  destruct (refresh_cache_over_inv _ _ _ _ _ _ _ H) as (fresh & Hf & ->).
  exists fresh. split; [exact Hf|].
  split; [exact (refresh_cache_stamp _ _ _ _ _ _ _ Hf)|].
  split; [reflexivity|].
  assert (Hlook : forall key,
    (fresh ∪ prior) !! key =
    match fresh !! key with Some v => Some v | None => prior !! key end).
  { intros key. rewrite lookup_union.
    destruct (fresh !! key), (prior !! key); reflexivity. }
  split; [exact Hlook|]. split.
  - intros E key [v Hv]. specialize (Hlook key). rewrite E in Hlook.
    destruct (fresh !! key); [eauto | congruence].
  - intros Hsub. apply map_eq. intros key. rewrite Hlook.
    destruct (fresh !! key) eqn:Ef; [reflexivity|].
    destruct (prior !! key) eqn:Ep; [|reflexivity].
    destruct (Hsub key (ex_intro _ _ Ep)) as [v Hv]. congruence.
Qed.

Lemma refresh_cache_lays_over_prior_witness :
  exists cache fresh,
    refresh_cache "bk" sample_store done done (inject_Z 1000) stale_cache
      = Ok cache /\
    refresh_cache "bk" sample_store done done (inject_Z 1000) ∅ = Ok fresh /\
    cache = fresh ∪ stale_cache /\
    cache <> fresh.
Proof.
  pose (r := refresh_cache "bk" sample_store done done (inject_Z 1000) stale_cache).
  pose (cache := match r with Ok c => c | _ => ∅ end).
  assert (H : refresh_cache "bk" sample_store done done (inject_Z 1000) stale_cache
              = Ok cache) by (vm_compute; reflexivity).
  destruct (refresh_cache_lays_over_prior "bk" sample_store done done
              (inject_Z 1000) stale_cache cache H)
    as (fresh & Hf & _ & Hc & _ & Hiff).
  exists cache, fresh. split; [exact H|]. split; [exact Hf|].
  split; [exact Hc|].
  intros E. destruct Hiff as [Hto _]. specialize (Hto E).
  destruct (Hto "old/") as [v Hv]; [vm_compute; eauto|].
  assert (Hn : (c ← refresh_cache "bk" sample_store done done (inject_Z 1000) ∅;
                Ok (c !! "old/")) = Ok None) by (vm_compute; reflexivity).
  rewrite Hf in Hn. cbn [mbind res_bind] in Hn. congruence.
Defined.

(** C4, counterexample.  A cache file holding malformed JSON makes
    [load_cache] raise; so do a snapshot without a ['time'] entry, a
    snapshot whose ['time'] is a string and a JSON array. *)
Lemma load_cache_raises_on_malformed_file :
  load_cache "bk" sample_store done done (inject_Z 1000) (inject_Z 1001) Malformed
    = Raise JSONDecodeError /\
  load_cache "bk" sample_store done done (inject_Z 1000) (inject_Z 1001)
    (Snapshot {["a/" := PInt 1]}) = Raise (KeyError "time") /\
  load_cache "bk" sample_store done done (inject_Z 1000) (inject_Z 1001)
    (Snapshot {["time" := PStr "abc"]})
    = Raise (TypeError "'<' not supported between instances of 'str' and 'float'") /\
  load_cache "bk" sample_store done done (inject_Z 1000) (inject_Z 1001)
    (Document (PList [PInt 1]))
    = Raise (TypeError "list indices must be integers or slices, not str").
Proof. repeat split; reflexivity. Qed.

(** C4, as amended.  [load_cache] returns a cache exactly when the file
    is absent and the refresh of the empty cache completes, or the file
    holds a JSON object whose ['time'] is a number and, if that stamp is
    below [time() + 900], the refresh of the snapshot completes.  There
    is no fallback: an unreadable file, malformed JSON, a missing
    ['time'], a ['time'] that is no number and a document that is no
    object raise out of [load_cache], as does the exception of a refresh
    that fails. *)
Theorem load_cache_returns_iff bucket store s3_reachable write_json
    now refreshed (my_file : cache_file) :
  (is_ok (load_cache bucket store s3_reachable write_json now refreshed my_file) <->
     (my_file = Absent /\
      is_ok (refresh_cache bucket store s3_reachable write_json refreshed ∅)) \/
     exists content stamp,
       my_file = Snapshot content /\ content !! "time" = Some stamp /\
       numeric stamp = true /\
       (PyNum.lt_num stamp (PyNum.add_float now 900) = Ok true ->
        is_ok (refresh_cache bucket store s3_reachable write_json
                 refreshed content))) /\
  load_cache bucket store s3_reachable write_json now refreshed Absent =
    refresh_cache bucket store s3_reachable write_json refreshed ∅ /\
  load_cache bucket store s3_reachable write_json now refreshed Unreadable =
    Raise OSError /\
  load_cache bucket store s3_reachable write_json now refreshed Malformed =
    Raise JSONDecodeError /\
  (forall e,
     refresh_cache bucket store s3_reachable write_json refreshed ∅ = Raise e ->
     load_cache bucket store s3_reachable write_json now refreshed Absent
       = Raise e) /\
  (forall content,
     content !! "time" = None ->
     load_cache bucket store s3_reachable write_json now refreshed
       (Snapshot content) = Raise (KeyError "time")) /\
  (forall content stamp,
     content !! "time" = Some stamp -> numeric stamp = false ->
     exists msg,
       load_cache bucket store s3_reachable write_json now refreshed
         (Snapshot content) = Raise (TypeError msg)) /\
  (forall content,
     (forall members, content <> PDict members) ->
     exists msg,
       load_cache bucket store s3_reachable write_json now refreshed
         (Document content) = Raise (TypeError msg)).
Proof.
  assert (Hnum : forall stamp q,
    numeric stamp = true -> exists stale, PyNum.lt_num stamp q = Ok stale).
  { intros stamp q. destruct stamp; try discriminate; intros _;
      eexists; reflexivity. }
  assert (Hnot : forall stamp q,
    numeric stamp = false -> exists msg, PyNum.lt_num stamp q = Raise (TypeError msg)).
  { intros stamp q. destruct stamp; try discriminate; intros _;
      eexists; reflexivity. }
  split; [|repeat split].
  - split.
    + intros [c Hc]. destruct my_file as [| | |content]; try discriminate.
      * left. split; [reflexivity|]. exists c. exact Hc.
      * right. unfold load_cache, getitem in Hc. cbn [json_load mbind res_bind] in Hc.
        destruct content as [| | | | | | | |content];
          try (destruct content; discriminate); try discriminate.
        destruct (content !! "time") as [stamp|] eqn:Es; [|discriminate].
        cbn [mbind res_bind] in Hc.
        destruct (numeric stamp) eqn:En.
        -- exists content, stamp. split; [reflexivity|].
           split; [exact Es|]. split; [exact En|]. intros Hlt.
           rewrite Hlt in Hc. cbn [mbind res_bind] in Hc. exists c. exact Hc.
        -- destruct (Hnot stamp (PyNum.add_float now 900) En) as [msg Hm].
           rewrite Hm in Hc. discriminate.
    + intros [(-> & Hr)|(content & stamp & -> & Hst & Hn & Hr)].
      * exact Hr.
      * destruct (Hnum stamp (PyNum.add_float now 900) Hn) as [[|] Hlt].
        -- rewrite (load_cache_refreshes _ _ _ _ _ _ _ _ Hst Hlt).
           exact (Hr Hlt).
        -- rewrite (load_cache_keeps _ _ _ _ _ _ _ _ Hst Hlt).
           eexists; reflexivity.
  - intros e He. exact He.
  - intros content Hc. unfold load_cache, Snapshot, getitem.
    cbn [json_load mbind res_bind]. now rewrite Hc.
  - intros content stamp Hc Hn.
    destruct (Hnot stamp (PyNum.add_float now 900) Hn) as [msg Hm].
    exists msg. unfold load_cache, Snapshot, getitem.
    cbn [json_load mbind res_bind]. rewrite Hc. cbn [mbind res_bind].
    now rewrite Hm.
  - intros content Hc. unfold load_cache. cbn [json_load mbind res_bind].
    destruct content as [| | | | | | | |members];
      try (eexists; reflexivity).
    now destruct (Hc members).
Qed.

Lemma load_cache_returns_iff_witness :
  is_ok (load_cache "bk" sample_store done done (inject_Z 1000) (inject_Z 1001)
           Absent) /\
  is_ok (load_cache "bk" sample_store done done (inject_Z 1000) (inject_Z 1001)
           (Snapshot recent_snapshot)) /\
  (exists msg,
     load_cache "bk" sample_store done done (inject_Z 1000) (inject_Z 1001)
       (Snapshot {["time" := PNone]}) = Raise (TypeError msg)) /\
  ~ is_ok (load_cache "bk" sample_store (Fault OSError) done
             (inject_Z 1000) (inject_Z 1001) Absent).
Proof.
  split; [|split; [|split]].
  - destruct (load_cache_returns_iff "bk" sample_store done done
                (inject_Z 1000) (inject_Z 1001) Absent) as [[_ H] _].
    apply H. left. split; [reflexivity|]. vm_compute. eauto.
  - destruct (load_cache_returns_iff "bk" sample_store done done
                (inject_Z 1000) (inject_Z 1001) (Snapshot recent_snapshot))
      as [[_ H] _].
    apply H. right. exists recent_snapshot, (PFloat (inject_Z 990)).
    split; [reflexivity|]. split; [reflexivity|]. split; [reflexivity|].
    intros _. vm_compute. eauto.
  - destruct (load_cache_returns_iff "bk" sample_store done done
                (inject_Z 1000) (inject_Z 1001) Absent)
      as (_ & _ & _ & _ & _ & _ & H & _).
    apply (H {["time" := PNone]} PNone); reflexivity.
  - intros Hok.
    destruct (load_cache_returns_iff "bk" sample_store (Fault OSError) done
                (inject_Z 1000) (inject_Z 1001) Absent) as [[H _] _].
    destruct (H Hok) as [(_ & [c Hc])|(content & stamp & Hf & _)];
      discriminate.
Defined.

(** ** Claims on human_readable_size *)

(** C8.  [human_readable_size] renders byte counts in binary units:
    zero is "0 B", 1536 is "1.50 KB", 2^30 is "1.00 GB"; for every
    positive count the value is divided by 1024 until it is below 1024
    or the unit YB is reached, printed with two decimals (the nearest
    hundredth) and followed by the unit of that index. *)
Theorem human_readable_size_binary_units :
  human_readable_size (PInt 0) = Ok "0 B" /\
  human_readable_size (PInt 1536) = Ok "1.50 KB" /\
  human_readable_size (PInt 1073741824) = Ok "1.00 GB" /\
  (forall x : Q,
     2 * Z.abs (Z.abs (Qnum x) * 100 - PyNum.cents x * Z.pos (Qden x))
       <= Z.pos (Qden x)) /\
  forall n v,
    0 < n -> PyNum.float_of_int n = Ok v ->
    exists i u,
      (i <= 8)%nat /\ nth_error units i = Some u /\
      human_readable_size (PInt n) =
        Ok (PyNum.format_2f_float (scaled v i) +:+ " " +:+ u) /\
      (forall j, (j < i)%nat -> (inject_Z 1024 <= scaled v j)%Q) /\
      ((i < 8)%nat -> (scaled v i < inject_Z 1024)%Q).
Proof.
  split; [reflexivity|]. split; [vm_compute; reflexivity|].
  split; [vm_compute; reflexivity|]. split; [apply PyNumFacts.cents_nearest|].
  intros n v Hn Hv. apply PyNumFacts.human_readable_size_shape; [lia | exact Hv].
Qed.

Lemma human_readable_size_binary_units_witness :
  0 < 1536 /\
  PyNum.float_of_int 1536 = Ok (inject_Z 1536) /\
  exists i u,
    (i <= 8)%nat /\ nth_error units i = Some u /\
    human_readable_size (PInt 1536) =
      Ok (PyNum.format_2f_float (scaled (inject_Z 1536) i) +:+ " " +:+ u).
Proof.
  split; [lia|]. split; [reflexivity|].
  destruct human_readable_size_binary_units as (_ & _ & _ & _ & H).
  destruct (H 1536 (inject_Z 1536)) as (i & u & Hi & Hu & Hr & _);
    [lia | reflexivity |].
  exists i, u. auto.
Defined.

(** C9, counterexample.  2^1024 is at least 1024^8, yet it is not
    rendered in YB: converting it to a float for [bytes /= 1024.0]
    raises OverflowError. *)
Lemma human_readable_size_overflows :
  1024 ^ 8 <= 2 ^ 1024 /\
  human_readable_size (PInt (2 ^ 1024)) = Raise OverflowError.
Proof. split; [vm_compute; discriminate | vm_compute; reflexivity]. Qed.

(** C9, as amended.  On every integer [human_readable_size] terminates
    without an out-of-range unit access: it returns a string or raises
    OverflowError, and the index the loop returns is below the number of
    units.  Every nonnegative input below 2^1024 - 2^970 (the integers
    Python converts to a float) is rendered, and from 1024^8 on it is
    rendered in YB; from 2^1024 - 2^970 on the conversion raises
    OverflowError. *)
Theorem human_readable_size_index_bounded :
  (forall n,
     human_readable_size (PInt n) = Raise OverflowError \/
     is_ok (human_readable_size (PInt n))) /\
  (forall n b i,
     size_loop (length units) (PInt n) O = Ok (b, i) ->
     (i < length units)%nat) /\
  (forall n,
     0 <= n < 2 ^ 1024 - 2 ^ 970 -> is_ok (human_readable_size (PInt n))) /\
  (forall n,
     1024 ^ 8 <= n < 2 ^ 1024 - 2 ^ 970 ->
     exists num, human_readable_size (PInt n) = Ok (num +:+ " YB")) /\
  (forall n,
     2 ^ 1024 - 2 ^ 970 <= n ->
     human_readable_size (PInt n) = Raise OverflowError).
Proof.
  assert (Hrendered : forall n,
    0 <= n < 2 ^ 1024 - 2 ^ 970 -> is_ok (human_readable_size (PInt n))).
  { intros n Hn. destruct (Z.eq_dec n 0) as [->|Hne].
    - eexists; reflexivity.
    - destruct (PyNumFacts.human_readable_size_shape n _ Hne
                  (PyNumFacts.float_of_int_ok n Hn))
        as (i & u & _ & _ & Hr & _).
      eexists; exact Hr. }
  split; [|split; [|split; [|split]]].
  - apply PyNumFacts.human_readable_size_int_cases.
  - intros n b i. change (length units) with 9%nat.
    destruct (Z.leb_spec 1024 n) as [Hbig|Hsmall].
    + rewrite PyNumFacts.size_loop_go
        by (cbn [PyNum.ge_1024]; (f_equal; now apply Z.leb_le) || lia).
      cbn [PyNum.div_1024 mbind res_bind].
      destruct (PyNum.float_of_int n) as [v| |]; try discriminate.
      cbn [mbind res_bind].
      destruct (PyNumFacts.size_loop_float 8 (v / inject_Z 1024)%Q 1)
        as (k & Hk & Hrun & _); [lia | lia |].
      rewrite Hrun. intros [= _ <-]. lia.
    + rewrite PyNumFacts.size_loop_stop_int
        by (apply andb_false_iff; left; now apply Z.leb_gt).
      intros [= _ <-]. lia.
  - exact Hrendered.
  - intros n [Hlo Hhi].
    assert (n <> 0) as Hne by (change (1024 ^ 8) with 1208925819614629174706176 in Hlo; lia).
    assert (0 <= n < 2 ^ 1024 - 2 ^ 970) as Hn
      by (change (1024 ^ 8) with 1208925819614629174706176 in Hlo; lia).
    destruct (PyNumFacts.human_readable_size_shape n _ Hne
                (PyNumFacts.float_of_int_ok n Hn))
      as (i & u & Hi & Hu & Hr & _ & Hlt).
    assert (i = 8%nat) as ->.
    { destruct (Nat.eq_dec i 8%nat) as [|Hi8]; [assumption|]. exfalso.
      specialize (Hlt ltac:(lia)).
      assert (inject_Z (1024 ^ Z.of_nat 1)
                <= scaled (inject_Z (PyNum.round_to_double n)) i)%Q as Hge.
      { apply PyNumFacts.scaled_lower. rewrite <- Zle_Qle.
        transitivity (2 ^ 80).
        - change (2 ^ 80) with (1024 ^ 8).
          apply Z.pow_le_mono_r; lia.
        - apply PyNumFacts.round_ge_pow2; [lia|].
          change (2 ^ 80) with (1024 ^ 8). exact Hlo. }
      exact (Qlt_not_le _ _ Hlt Hge). }
    injection Hu as <-. eexists; exact Hr.
  - intros n Hn. assert (0 < 2 ^ 1024 - 2 ^ 970) as Hpos by reflexivity.
    apply PyNumFacts.human_readable_size_overflow; [lia|].
    now apply PyNumFacts.float_of_int_overflow.
Qed.

Lemma human_readable_size_index_bounded_witness :
  1024 ^ 8 <= 1024 ^ 8 < 2 ^ 1024 - 2 ^ 970 /\
  (1 < length units)%nat /\
  is_ok (human_readable_size (PInt (1024 ^ 8))) /\
  exists num, human_readable_size (PInt (1024 ^ 8)) = Ok (num +:+ " YB").
Proof.
  destruct human_readable_size_index_bounded as (_ & H0 & H1 & H2 & _).
  split; [split; [vm_compute; discriminate | vm_compute; reflexivity]|].
  split; [|split].
  - apply (H0 1536 (PFloat (inject_Z 1536 / inject_Z 1024)%Q) 1%nat).
    reflexivity.
  - apply H1. split; [vm_compute; discriminate | vm_compute; reflexivity].
  - apply H2. split; [vm_compute; discriminate | vm_compute; reflexivity].
Defined.

(** ** Claims on calculate_folder_size *)

(** C2 (the code departs from the claim).  The claim: for every store
    and '/'-terminated prefix the call returns the sum of the sizes of
    all objects whose key starts with the prefix.  In [photo_store] the
    objects under "photos/" sum to 107, and the call returns 7: the
    folder name is cut out with [str.replace], which also removes the
    "photos/" ending "old-photos/", so the walk lists "photos/old/".
    Where the walk recurses into every listed folder under its own
    prefix the sum is returned ([calculate_folder_size_sums]), as it is
    from every prefix holding two delimiters
    ([calculate_folder_size_sums_deep]). *)
Theorem calculate_folder_size_misses_subfolder :
  size_under photo_store "photos/" = 107 /\
  ('(total, _) ← calculate_folder_size "bk" photo_store "photos/" ∅; Ok total)
    = Ok 7.
Proof. split; vm_compute; reflexivity. Qed.

(** C7 (the code departs from the claim).  The claim: one call from a
    root leaves in the cache the total size of every folder under it.
    "photos/old-photos/" is a folder listed under "photos/" and holds
    100 bytes; after the call it has no entry, "photos/" is mapped to 7
    and the entry written instead is "photos/old/", mapped to 0.
    Where the walk recurses into every listed folder under its own
    prefix, every folder under the root is mapped to its total
    ([calculate_folder_size_memoizes]). *)
Theorem calculate_folder_size_leaves_folder_out :
  In "photos/old-photos/"
     (CommonPrefixes (list_objects_v2 "bk" photo_store "photos/")) /\
  folder_under photo_store "photos/" "photos/old-photos/" /\
  size_under photo_store "photos/old-photos/" = 100 /\
  ('(_, cache) ← calculate_folder_size "bk" photo_store "photos/" ∅;
   Ok (cache !! "photos/old-photos/", cache !! "photos/", cache !! "photos/old/"))
    = Ok (None, Some (PInt 7), Some (PInt 0)).
Proof.
  split; [left; reflexivity|]. split.
  - exists "old-photos/". split; [reflexivity|]. right. split; [reflexivity|].
    exists (object "photos/old-photos/img.jpg" 100).
    split; [right; left; reflexivity | reflexivity].
  - split; vm_compute; reflexivity.
Qed.

(** * Further properties *)

(** ** The entries the walk writes *)

Section Consistency.

Variable bucket : string.
Variable store : list object_entry.

Local Abbreviation list_objects := (list_objects_v2 bucket store).
Local Abbreviation walk := (calculate_folder_size_rec bucket store).
Local Abbreviation size_of := (calculate_folder_size bucket store).

(** A result of the walk under any budget is the result of the call. *)
Lemma walk_value fuel prefix c r :
  walk fuel prefix c = Ok r -> size_of prefix c = Ok r.
Proof.
  intros H.
  destruct (Nat.le_ge_cases fuel (depth_budget store prefix)) as [Hle|Hge].
  - exact (walk_mono _ _ _ _ _ _ _ Hle H).
  - rewrite <- (walk_enough bucket store fuel prefix c Hge). exact H.
Qed.

Lemma consistent_empty : consistent bucket store ∅.
Proof. intros key v H. now rewrite lookup_empty in H. Qed.

Lemma consistent_union m c :
  consistent bucket store m -> consistent bucket store c ->
  consistent bucket store (m ∪ c).
Proof.
  intros Hm Hc key v H. apply lookup_union_Some_raw in H as [H|[_ H]]; eauto.
Qed.

Lemma consistent_insert key total written c :
  size_of key ∅ = Ok (total, written) ->
  consistent bucket store c ->
  consistent bucket store (<[key := PInt total]> c).
Proof.
  intros Hk Hc k v H. destruct (decide (key = k)) as [<-|Hne].
  - rewrite lookup_insert_eq in H. injection H as <-. eauto.
  - rewrite lookup_insert_ne in H by exact Hne. eauto.
Qed.

Lemma walk_consistent fuel : forall prefix total m,
  walk fuel prefix ∅ = Ok (total, m) -> consistent bucket store m.
Proof.
  induction fuel as [|fuel IH]; intros prefix total m Hrun; [discriminate|].
  pose proof (walk_value _ _ _ _ Hrun) as Hval.
  rewrite walk_S in Hrun.
  assert (Hloop : forall fs t c0 t' c',
    consistent bucket store c0 ->
    for_each fs (fun folder '(total_size, cache) =>
      '(sub, cache) ← walk fuel (child_prefix prefix folder) cache;
      Ok (total_size + sub, cache)) (t, c0) = Ok (t', c') ->
    consistent bucket store c').
  { induction fs as [|f fs IHfs]; intros t c0 t' c' Hc0 Hfs.
    - now injection Hfs as <- <-.
    - cbn [for_each] in Hfs. rewrite (walk_over bucket store fuel _ c0) in Hfs.
      destruct (walk fuel (child_prefix prefix f) ∅) as [[sub mf]| |] eqn:Ef;
        try discriminate.
      cbn [over mbind res_bind] in Hfs.
      apply (IHfs _ _ _ _ (consistent_union _ _ (IH _ _ _ Ef) Hc0) Hfs). }
  apply bind_ok_inv in Hrun as ([t c1] & Hfs & Hm).
  cbn zeta in Hm. injection Hm as Ht <-. rewrite Ht.
  apply (consistent_insert _ _ _ _ Hval).
  exact (Hloop _ _ _ _ _ consistent_empty Hfs).
Qed.

Lemma calculate_folder_size_consistent prefix total m :
  size_of prefix ∅ = Ok (total, m) -> consistent bucket store m.
Proof. apply walk_consistent. Qed.

(** *** The loop of refresh_cache *)

Local Abbreviation refresh_step :=
  (fun (folder : string) (cache : gmap string pyval) =>
     '(size, cache) ← size_of folder cache;
     Ok (<[folder := PInt size]> cache)).

Lemma refresh_loop_consistent fs : forall c0 c',
  consistent bucket store c0 ->
  for_each fs refresh_step c0 = Ok c' ->
  consistent bucket store c' /\
  (forall k, is_Some (c0 !! k) -> is_Some (c' !! k)) /\
  (forall f, In f fs -> is_Some (c' !! f)).
Proof.
  induction fs as [|f fs IH]; intros c0 c' Hc0 Hrun.
  - injection Hrun as <-. split; [exact Hc0|]. split; [auto|]. intros f [].
  - cbn [for_each] in Hrun. rewrite (calculate_folder_size_over bucket store f c0) in Hrun.
    destruct (size_of f ∅) as [[t mf]| |] eqn:Ef; try discriminate.
    cbn [over mbind res_bind] in Hrun.
    destruct (IH _ _ (consistent_insert _ _ _ _ Ef
                        (consistent_union _ _
                           (calculate_folder_size_consistent _ _ _ Ef) Hc0)) Hrun)
      as (Hc & Hmono & Hcov).
    split; [exact Hc|]. split.
    + intros k Hk. apply Hmono.
      destruct (decide (f = k)) as [<-|Hne];
        [rewrite lookup_insert_eq; eauto|].
      rewrite lookup_insert_ne by exact Hne.
      apply lookup_union_is_Some. now right.
    + intros f' [<-|Hf']; [|now apply Hcov].
      apply Hmono. rewrite lookup_insert_eq. eauto.
Qed.

Lemma top_level_not_time f :
  In f (CommonPrefixes (list_objects "")) -> f <> "time".
Proof.
  intros H ->. apply common_prefix_inv in H as (o & _ & _ & Hn & Hf).
  unfold common_prefix_of, nested in *. rewrite PyStrFacts.app_nil_l in Hf.
  apply (f_equal (PyStr.count slash)) in Hf.
  rewrite ListingFacts.count_through in Hf by exact Hn. discriminate.
Qed.

Lemma refresh_cache_entries s3_reachable write_json now prior c f :
  refresh_cache bucket store s3_reachable write_json now prior = Ok c ->
  In f (CommonPrefixes (list_objects "")) ->
  holds_size bucket store c f.
Proof.
  intros Hrun Hf.
  destruct (refresh_cache_over_inv _ _ _ _ _ _ _ Hrun) as (fresh & Hfresh & ->).
  unfold refresh_cache in Hfresh.
  apply bind_ok_inv in Hfresh as (u & _ & Hfresh).
  apply bind_ok_inv in Hfresh as (m & Hloop & Hfresh).
  apply bind_ok_inv in Hfresh as (u' & _ & [= <-]).
  destruct (refresh_loop_consistent _ _ _ consistent_empty Hloop)
    as (Hc & _ & Hcov).
  destruct (Hcov f Hf) as [v Hv].
  destruct (Hc f v Hv) as (t & w & Ht & ->).
  exists t, w. split; [exact Ht|].
  apply lookup_union_Some_l. rewrite lookup_insert_ne; [exact Hv|].
  intros E. now apply (top_level_not_time f Hf).
Qed.

Lemma refresh_cache_again s3_reachable write_json now prior c :
  refresh_cache bucket store s3_reachable write_json now prior = Ok c ->
  refresh_cache bucket store s3_reachable write_json now c = Ok c.
Proof.
  intros Hrun.
  destruct (refresh_cache_over_inv _ _ _ _ _ _ _ Hrun) as (fresh & Hfresh & ->).
  rewrite (refresh_cache_over _ _ _ _ _ _ _ Hfresh).
  now rewrite (assoc_L (∪)), (idemp_L (∪)).
Qed.

End Consistency.

(** ** More on human_readable_size *)

Module SizeFacts.
Import PyNum PyNumFacts.

Lemma div_1024_lt m y :
  (y < inject_Z (1024 * m))%Q -> (y / inject_Z 1024 < inject_Z m)%Q.
Proof.
  intros H. apply Qlt_shift_div_r; [reflexivity|].
  rewrite <- inject_Z_mult. now rewrite Z.mul_comm.
Qed.

Lemma scaled_upper x k : forall m : nat,
  (x < inject_Z (1024 ^ Z.of_nat (k + m)))%Q ->
  (scaled x k < inject_Z (1024 ^ Z.of_nat m))%Q.
Proof.
  induction k as [|k IH]; intros m H; [exact H|].
  rewrite scaled_S. apply div_1024_lt.
  rewrite <- Z.pow_succ_r by lia. rewrite <- Nat2Z.inj_succ.
  apply IH. now replace (k + S m)%nat with (S k + m)%nat by lia.
Qed.

Lemma float_of_int_exact n :
  0 <= n < 2 ^ 53 -> float_of_int n = Ok (inject_Z n).
Proof.
  intros Hn. rewrite float_of_int_nonneg by lia.
  rewrite round_small by exact Hn.
  destruct (Z.leb_spec (2 ^ 1024) n) as [Hbig|]; [|reflexivity].
  exfalso. assert (2 ^ 53 < 2 ^ 1024) by reflexivity. lia.
Qed.

(** The unit of a count is the one of the range of its float value. *)
Lemma unit_of_value n v i :
  n <> 0 -> float_of_int n = Ok (inject_Z v) -> (i <= 8)%nat ->
  1024 ^ Z.of_nat i <= v ->
  ((i < 8)%nat -> v < 1024 ^ Z.of_nat (S i)) ->
  exists u,
    nth_error units i = Some u /\
    human_readable_size (PInt n) =
      Ok (format_2f_float (scaled (inject_Z v) i) +:+ " " +:+ u).
Proof.
  intros Hn Hv Hi Hlo Hhi.
  destruct (human_readable_size_shape n (inject_Z v) Hn Hv)
    as (i' & u & Hi' & Hu & Hr & Hge & Hlt).
  assert (i' = i) as ->; [|eauto].
  destruct (Nat.lt_trichotomy i' i) as [Hl|[He|Hg]]; [|exact He|]; exfalso.
  - specialize (Hlt ltac:(lia)).
    assert (inject_Z (1024 ^ Z.of_nat 1) <= scaled (inject_Z v) i')%Q as H.
    { apply scaled_lower. rewrite <- Zle_Qle.
      transitivity (1024 ^ Z.of_nat i); [|exact Hlo].
      apply Z.pow_le_mono_r; lia. }
    exact (Qlt_not_le _ _ Hlt H).
  - specialize (Hge i Hg). specialize (Hhi ltac:(lia)).
    assert (scaled (inject_Z v) i < inject_Z (1024 ^ Z.of_nat 1))%Q as H.
    { apply scaled_upper. rewrite <- Zlt_Qlt.
      now replace (i + 1)%nat with (S i) by lia. }
    exact (Qlt_not_le _ _ H Hge).
Qed.

(** A count in the range of a unit has its float value in that range,
    upper end included. *)
Lemma round_in_range n i :
  1024 ^ Z.of_nat i <= n ->
  1024 ^ Z.of_nat i <= round_to_double n /\
  (0 <= n < 1024 ^ Z.of_nat (S i) ->
   round_to_double n <= 1024 ^ Z.of_nat (S i)).
Proof.
  intros Hlo.
  assert (forall j : nat, 1024 ^ Z.of_nat j = 2 ^ (10 * Z.of_nat j)) as Hpow.
  { intros j. change 1024 with (2 ^ 10). rewrite <- Z.pow_mul_r by lia.
    reflexivity. }
  rewrite !Hpow in *. split.
  - apply round_ge_pow2; [lia | exact Hlo].
  - apply round_le_pow2.
Qed.

(** A power of 1024 scaled down to one reads "1.00". *)
Lemma one_of_unit i :
  (i <= 8)%nat ->
  format_2f_float (scaled (inject_Z (1024 ^ Z.of_nat i)) i) = "1.00".
Proof.
  intros Hi. do 9 (destruct i as [|i]; [vm_compute; reflexivity|]). lia.
Qed.

(** A count below 1024 is printed as it is, in bytes. *)
Lemma bytes_below_1024 n :
  0 < n < 1024 ->
  human_readable_size (PInt n) = Ok (decimal n +:+ ".00 B").
Proof.
  intros Hn. unfold human_readable_size.
  replace (is_zero (PInt n)) with false by (symmetry; apply Z.eqb_neq; lia).
  rewrite size_loop_stop_int by (apply andb_false_iff; left; apply Z.leb_gt; lia).
  cbn [mbind res_bind format_2f].
  rewrite float_of_int_exact
    by (assert (1024 < 2 ^ 53) by reflexivity; lia).
  cbn [mbind res_bind units_at units nth_error].
  unfold format_2f_float, cents. cbn [Qnum Qden inject_Z].
  rewrite Z.abs_eq by lia.
  rewrite Z.div_1_r, Z.mod_1_r.
  replace (n <? 0) with false by (symmetry; apply Z.ltb_ge; lia).
  change ((1 <? 2 * 0) || (2 * 0 =? 1) && Z.odd (n * 100)) with false.
  cbv iota. rewrite Z.div_mul by lia. rewrite Z.mod_mul by lia.
  change (two_digits 0) with "00".
  rewrite PyStrFacts.app_nil_l. now rewrite !PyStrFacts.app_assoc.
Qed.

End SizeFacts.

(** ** More on str.split *)

Module SplitFacts.
Import PyStr PyStrFacts.

Lemma split_scan_nonempty sep cur s : split_scan sep cur s <> [].
Proof.
  revert cur. induction s as [|c s IH]; intros cur; simpl; [discriminate|].
  destruct (Ascii.eqb c sep); [discriminate | apply IH].
Qed.

Lemma str_join_cons sep x l :
  l <> [] -> str_join sep (x :: l) = x +:+ String sep (str_join sep l).
Proof. destruct l; [congruence | reflexivity]. Qed.

(** Joining the pieces gives the text back. *)
Lemma join_split_scan sep s : forall cur,
  str_join sep (split_scan sep cur s) = cur +:+ s.
Proof.
  induction s as [|c s IH]; intros cur; simpl.
  - now rewrite app_empty_r.
  - destruct (Ascii.eqb_spec c sep) as [->|Hne].
    + rewrite str_join_cons by apply split_scan_nonempty.
      now rewrite IH, app_nil_l.
    + rewrite IH, app_assoc. reflexivity.
Qed.

Lemma contains_app c s t :
  contains c (s +:+ t) = contains c s || contains c t.
Proof.
  induction s as [|d s IH]; [reflexivity|]. rewrite app_cons. simpl.
  destruct (Ascii.eqb d c); [reflexivity | exact IH].
Qed.

(** No piece holds the separator. *)
Lemma split_scan_pieces sep s : forall cur,
  contains sep cur = false ->
  Forall (fun piece => contains sep piece = false) (split_scan sep cur s).
Proof.
  induction s as [|c s IH]; intros cur Hcur; simpl.
  - now constructor.
  - destruct (Ascii.eqb c sep) eqn:E.
    + constructor; [exact Hcur | now apply IH].
    + apply IH. rewrite contains_app, Hcur. simpl. now rewrite E.
Qed.

(** A trailing separator adds one empty piece. *)
Lemma split_scan_trailing sep s : forall cur,
  split_scan sep cur (s +:+ String sep "") = (split_scan sep cur s ++ [""])%list.
Proof.
  induction s as [|c s IH]; intros cur.
  - rewrite app_nil_l. simpl. now rewrite Ascii.eqb_refl.
  - rewrite app_cons. simpl. destruct (Ascii.eqb c sep); now rewrite IH.
Qed.

Lemma init_split_trailing sep s :
  init (split (s +:+ String sep "") sep) = split s sep.
Proof.
  unfold init, split. rewrite split_scan_trailing. apply removelast_last.
Qed.

(** The last piece is what follows the last separator. *)
Lemma last_split_scan sep s : forall cur,
  contains sep cur = false ->
  exists dir,
    cur +:+ s = dir +:+ last_part (split_scan sep cur s) /\
    contains sep (last_part (split_scan sep cur s)) = false /\
    (dir = "" \/ endswith sep dir = true).
Proof.
  unfold last_part.
  induction s as [|c s IH]; intros cur Hcur; simpl.
  - exists "". rewrite app_empty_r, app_nil_l. auto.
  - destruct (Ascii.eqb_spec c sep) as [->|Hne].
    + destruct (IH "" eq_refl) as (dir & Hs & Hc & Hd).
      rewrite app_nil_l in Hs.
      pose proof (split_scan_nonempty sep "" s) as Hn.
      destruct (split_scan sep "" s) as [|x l] eqn:E; [congruence|].
      cbn [List.last].
      change (match l with [] => x | _ :: _ => List.last l "" end)
        with (List.last (x :: l) "").
      exists (cur +:+ String sep dir). split; [|split; [exact Hc|right]].
      * rewrite Hs at 1. rewrite app_assoc. now rewrite app_cons.
      * destruct Hd as [->|Hd].
        -- rewrite ListingFacts.endswith_app by discriminate. simpl.
           apply Ascii.eqb_refl.
        -- rewrite ListingFacts.endswith_app by discriminate.
           simpl. destruct dir; [discriminate | exact Hd].
    + destruct (IH (cur +:+ String c "")) as (dir & Hs & Hc & Hd).
      { rewrite contains_app, Hcur. simpl.
        destruct (Ascii.eqb_spec c sep); [contradiction | reflexivity]. }
      exists dir. rewrite app_assoc in Hs. auto.
Qed.

End SplitFacts.

(** ** More on the gateway methods *)

Section ListingRows.

Variable cache : gmap string pyval.
Variable s3_list_objects_v2 : string -> reply listing.

Lemma for_each_rows_total {A R} (make : A -> res R) (xs : list A) :
  (forall x, In x xs -> is_ok (make x)) ->
  forall acc,
    is_ok (for_each xs (fun x rows => row ← make x; Ok (rows ++ [row])%list) acc).
Proof.
  intros H. apply for_each_total. intros x rows Hx.
  destruct (H x Hx) as [r ->]. eexists; reflexivity.
Qed.

(** What a successful listing holds, field by field. *)
Lemma get_bucket_objects_fields prefix objs response :
  s3_list_objects_v2 prefix = Response objs ->
  get_bucket_objects cache s3_list_objects_v2 prefix = Ok (Some response, None) ->
  map folder_path (folders response) = CommonPrefixes objs /\
  map folder_url (folders response) =
    map (fun folder => "?prefix=" +:+ folder) (CommonPrefixes objs) /\
  map (fun row => Ok (folder_size row)) (folders response) =
    map (fun folder => human_readable_size (cache_get cache folder))
        (CommonPrefixes objs) /\
  map file_path (files response) = map Key (Contents objs) /\
  map file_last_modified (files response) = map LastModified (Contents objs) /\
  map (fun row => Ok (file_size row)) (files response) =
    map (fun file => human_readable_size (PInt (Size file))) (Contents objs) /\
  prefix_parts response = PyStr.init (PyStr.split (Prefix objs) slash) /\
  bucket_name response = Name objs.
Proof.
  intros Hl. unfold get_bucket_objects. rewrite Hl. simpl.
  destruct (for_each (CommonPrefixes objs) _ _) as [rows| |] eqn:Er;
    simpl; try discriminate.
  destruct (for_each (Contents objs) _ _) as [items| |] eqn:Ei;
    simpl; try discriminate.
  intros [= <-]. simpl.
  assert (Hfolder : forall (B : Type) (g : folder_entry -> B) (h : string -> B),
    (forall folder r, folder_row cache prefix folder = Ok r -> g r = h folder) ->
    map g rows = map h (CommonPrefixes objs)).
  { intros B g h Hgh. exact (for_each_rows _ g h _ Hgh _ _ Er). }
  assert (Hfile : forall (B : Type) (g : file_entry -> B) (h : object_entry -> B),
    (forall file r, file_row prefix file = Ok r -> g r = h file) ->
    map g items = map h (Contents objs)).
  { intros B g h Hgh. exact (for_each_rows _ g h _ Hgh _ _ Ei). }
  split; [|split; [|split; [|split; [|split; [|split; [|split]]]]]];
    try reflexivity.
  - rewrite <- (map_id (CommonPrefixes objs)). apply Hfolder.
    intros folder r Hr. unfold folder_row in Hr.
    now apply bind_ok_inv in Hr as (shown & _ & [= <-]).
  - apply Hfolder. intros folder r Hr. unfold folder_row in Hr.
    now apply bind_ok_inv in Hr as (shown & _ & [= <-]).
  - apply Hfolder. intros folder r Hr. unfold folder_row in Hr.
    apply bind_ok_inv in Hr as (shown & Hs & [= <-]). now rewrite Hs.
  - apply Hfile. intros file r Hr. unfold file_row in Hr.
    now apply bind_ok_inv in Hr as (shown & _ & [= <-]).
  - apply Hfile. intros file r Hr. unfold file_row in Hr.
    now apply bind_ok_inv in Hr as (shown & _ & [= <-]).
  - apply Hfile. intros file r Hr. unfold file_row in Hr.
    apply bind_ok_inv in Hr as (shown & Hs & [= <-]). now rewrite Hs.
Qed.

(** When the store answers and every size can be rendered, the listing
    is returned. *)
Lemma get_bucket_objects_succeeds prefix objs :
  s3_list_objects_v2 prefix = Response objs ->
  (forall folder, In folder (CommonPrefixes objs) ->
     is_ok (human_readable_size (cache_get cache folder))) ->
  (forall file, In file (Contents objs) ->
     is_ok (human_readable_size (PInt (Size file)))) ->
  exists response,
    get_bucket_objects cache s3_list_objects_v2 prefix = Ok (Some response, None).
Proof.
  intros Hl Hf Ho. unfold get_bucket_objects. rewrite Hl. simpl.
  destruct (for_each_rows_total (folder_row cache prefix) (CommonPrefixes objs))
    with (acc := @nil folder_entry) as [rows ->].
  { intros folder Hin. unfold folder_row.
    destruct (Hf folder Hin) as [shown ->]. eexists; reflexivity. }
  simpl.
  destruct (for_each_rows_total (file_row prefix) (Contents objs))
    with (acc := @nil file_entry) as [items ->].
  { intros file Hin. unfold file_row.
    destruct (Ho file Hin) as [shown ->]. eexists; reflexivity. }
  simpl. eexists; reflexivity.
Qed.

Lemma for_each_append {A S} (xs ys : list A) (body : A -> S -> res S) s :
  for_each (xs ++ ys)%list body s = for_each xs body s ≫= for_each ys body.
Proof.
  revert s. induction xs as [|x xs IH]; intros s; simpl; [reflexivity|].
  destruct (body x s); simpl; auto.
Qed.

(** The first size that cannot be rendered fails the whole listing,
    with the message of the exception as the error. *)
Lemma get_bucket_objects_unrendered prefix objs before folder after e :
  s3_list_objects_v2 prefix = Response objs ->
  CommonPrefixes objs = (before ++ folder :: after)%list ->
  (forall f, In f before -> is_ok (human_readable_size (cache_get cache f))) ->
  human_readable_size (cache_get cache folder) = Raise e ->
  get_bucket_objects cache s3_list_objects_v2 prefix = Ok (None, Some (str_exn e)).
Proof.
  intros Hl Hc Hb He. unfold get_bucket_objects. rewrite Hl.
  cbn [call mbind res_bind]. rewrite Hc, for_each_append.
  destruct (for_each_rows_total (folder_row cache prefix) before)
    with (acc := @nil folder_entry) as [rows ->].
  { intros f Hin. unfold folder_row.
    destruct (Hb f Hin) as [shown ->]. eexists; reflexivity. }
  cbn [mbind res_bind for_each].
  replace (folder_row cache prefix folder) with (@Raise folder_entry e)
    by (unfold folder_row; now rewrite He).
  reflexivity.
Qed.

(** The pair a listing returns has exactly one side set. *)
Lemma get_bucket_objects_one_side prefix :
  (exists response,
     get_bucket_objects cache s3_list_objects_v2 prefix = Ok (Some response, None)) \/
  (exists message,
     get_bucket_objects cache s3_list_objects_v2 prefix = Ok (None, Some message)).
Proof.
  destruct (get_bucket_objects_returns cache s3_list_objects_v2 prefix) as [r Hr].
  unfold get_bucket_objects in *.
  destruct (_ ≫= _) as [[result err]|e|] eqn:E in Hr |- *; simpl in *.
  - left. apply bind_ok_inv in E as (objs & _ & E).
    apply bind_ok_inv in E as (rows & _ & E).
    apply bind_ok_inv in E as (items & _ & [= <- <-]). eauto.
  - right. eauto.
  - discriminate.
Qed.

End ListingRows.

(** *** Names and keys over a store that answers *)

Section StoreListing.

Variable bucket : string.
Variable store : list object_entry.
Variable cache : gmap string pyval.

Lemma occurs_contains c p s :
  occurs p s -> PyStr.contains c p = true -> PyStr.contains c s = true.
Proof.
  intros (u & v & ->) Hp. rewrite !SplitFacts.contains_app, Hp.
  now rewrite orb_true_r.
Qed.

(** Under a prefix that holds a delimiter, or under the empty prefix,
    the key reported for a listed object is its key after the prefix. *)
Lemma listed_key prefix file :
  PyStr.contains slash prefix = true \/ prefix = "" ->
  In file (Contents (list_objects_v2 bucket store prefix)) ->
  prefix +:+ PyStr.replace (Key file) prefix "" = Key file.
Proof.
  intros Hp Hin. simpl in Hin.
  apply filter_In in Hin as [Hin Hn]. apply filter_In in Hin as [_ Hu].
  destruct Hp as [Hp| ->].
  - pose proof (PyStrFacts.startswith_split _ _ Hu) as Hk.
    fold (rest_of prefix file) in Hk. rewrite Hk at 1.
    assert (prefix <> "") as Hne by (intros ->; discriminate).
    assert (~ occurs prefix (rest_of prefix file)) as Hocc.
    { intros Hocc. apply (occurs_contains slash) in Hocc; [|exact Hp].
      unfold nested in Hn. rewrite Hocc in Hn. discriminate. }
    apply (ReplaceFacts.replace_is_suffix_iff _ _ Hne) in Hocc.
    rewrite Hocc. now rewrite <- Hk.
  - rewrite ReplaceFacts.replace_empty. apply PyStrFacts.app_nil_l.
Qed.

(** Under a prefix that holds two delimiters, or under the empty prefix,
    the name reported for a listed folder is its last segment. *)
Lemma listed_name prefix folder :
  (2 <= PyStr.count slash prefix)%nat \/ prefix = "" ->
  In folder (CommonPrefixes (list_objects_v2 bucket store prefix)) ->
  prefix +:+ PyStr.drop_last (PyStr.replace folder prefix "") +:+ "/" = folder.
Proof.
  intros [Hp| ->] Hin.
  - exact (faithful_deep bucket store prefix Hp folder Hin).
  - apply common_prefix_inv in Hin as (o & _ & _ & Hn & ->).
    unfold common_prefix_of, nested in *.
    rewrite !PyStrFacts.app_nil_l, ReplaceFacts.replace_empty.
    now apply ListingFacts.drop_last_through.
Qed.

End StoreListing.

(** ** The other methods and the handlers *)

Section MethodShapes.

Variable bucket : string.
Variable s3_get_body : string -> reply string.
Variable s3_head_object : string -> reply head_response.
Variable s3_delete_object : string -> reply (option Z).
Variable s3_put : string -> string -> reply (option Z).

Lemma get_object_info_one_side key :
  (exists details, get_object_info s3_head_object key = Ok (Some details, None)) \/
  (exists e, get_object_info s3_head_object key = Ok (None, Some e)).
Proof.
  destruct (get_object_info_returns s3_head_object key) as [r Hr].
  unfold get_object_info in *.
  destruct (_ ≫= _) as [[result err]|e|] eqn:E in Hr |- *; simpl in *.
  - left. apply bind_ok_inv in E as (response & _ & E).
    apply bind_ok_inv in E as (shown & _ & [= <- <-]). eauto.
  - right. eauto.
  - discriminate.
Qed.

(** [delete_object] reports the outcome in the message only. *)
Lemma delete_object_cases key :
  match s3_delete_object key with
  | Response status =>
      exists message,
        delete_object bucket s3_delete_object key = Ok (Some message, None) /\
        (status = Some 204 ->
         message = "Object '" +:+ key +:+ "' deleted successfully from bucket '"
                     +:+ bucket +:+ "'.") /\
        (status <> Some 204 ->
         message = "Failed to delete object '" +:+ key +:+ "' from bucket '"
                     +:+ bucket +:+ "'.")
  | Fault e =>
      delete_object bucket s3_delete_object key =
      Ok (None, Some ("Could not delete object '" +:+ key +:+ "' , " +:+ str_exn e))
  end.
Proof.
  unfold delete_object. destruct (s3_delete_object key) as [status|e];
    [|reflexivity].
  simpl. eexists. split; [reflexivity|].
  destruct (decide (status = Some 204)); split; congruence.
Qed.

(** [put_object] returns a pair unless the store answers with a status
    other than 200. *)
Lemma put_object_cases key data :
  match s3_put key data with
  | Response (Some status) =>
      if status =? 200
      then put_object s3_put key data =
           Ok (PutPair (Some ("Object '" +:+ key +:+ "' was added successfully."))
                       None)
      else put_object s3_put key data =
           Ok (PutBare ("Failed to add Object '" +:+ key +:+ "'."))
  | Response None =>
      put_object s3_put key data = Ok (PutPair None (Some "'HTTPStatusCode'"))
  | Fault e =>
      put_object s3_put key data = Ok (PutPair None (Some (str_exn e)))
  end.
Proof.
  unfold put_object. destruct (s3_put key data) as [[status|]|e];
    try reflexivity.
  simpl. destruct (status =? 200); reflexivity.
Qed.

(** The name [get_object] returns is the part of the path after its
    last delimiter. *)
Lemma get_object_name path name body :
  get_object s3_get_body path = Ok (name, body) ->
  s3_get_body path = Response body /\
  PyStr.contains slash name = false /\
  exists dir,
    path = dir +:+ name /\ (dir = "" \/ PyStr.endswith slash dir = true).
Proof.
  unfold get_object. destruct (s3_get_body path) as [b|e]; [|discriminate].
  simpl. intros [= <- <-]. split; [reflexivity|].
  destruct (SplitFacts.last_split_scan slash path "" eq_refl)
    as (dir & Hs & Hc & Hd).
  rewrite PyStrFacts.app_nil_l in Hs. split; [exact Hc|]. eauto.
Qed.

End MethodShapes.

Section BucketFacts.

Variable s3_buckets_all : reply (list string).
Variable s3_create_bucket : string -> reply unit.
Variable s3_bucket_delete : string -> reply unit.

Lemma append_loop (all acc : list string) :
  for_each all (fun bucket_name buckets =>
    Ok (buckets ++ [bucket_name])%list) acc = Ok (acc ++ all)%list.
Proof.
  revert acc. induction all as [|x all IH]; intros acc; simpl.
  - now rewrite app_nil_r.
  - rewrite IH. now rewrite <- app_assoc.
Qed.

Lemma get_buckets_names :
  get_buckets s3_buckets_all =
  match s3_buckets_all with
  | Response names => Ok names
  | Fault e => Raise e
  end.
Proof.
  unfold get_buckets. destruct s3_buckets_all as [names|e]; [|reflexivity].
  simpl. apply append_loop.
Qed.

End BucketFacts.

Section HandlerFacts.

Variable b64decode : string -> reply string.
Variable bucket : string.
Variable cache : gmap string pyval.
Variable s3_list_objects_v2 : string -> reply listing.
Variable s3_get_body : string -> reply string.
Variable s3_head_object : string -> reply head_response.
Variable s3_delete_object : string -> reply (option Z).
Variable s3_put : string -> string -> reply (option Z).

(** A parameter that does not decode leaves every handler as an
    exception, whatever the store would answer. *)
Lemma handlers_undecodable param e :
  b64decode param = Fault e ->
  get_objects_handler b64decode cache s3_list_objects_v2 param = Raise e /\
  get_object_info_handler b64decode s3_head_object param = Raise e /\
  get_object_handler b64decode s3_get_body param = Raise e /\
  delete_object_handler b64decode bucket s3_delete_object param = Raise e /\
  forall file_name data,
    put_object_handler b64decode s3_put param file_name data = Raise e.
Proof.
  intros H. unfold get_objects_handler, get_object_info_handler,
    get_object_handler, delete_object_handler, put_object_handler.
  rewrite H. auto.
Qed.

(** The Latin-1 round trip gives a [string] back as it is. *)
Lemma latin_1_round_trip s :
  (encoded ← encode_latin_1 s; Ok (decode_latin_1 encoded)) = Ok s.
Proof.
  unfold encode_latin_1, decode_latin_1. cbn [mbind res_bind].
  now rewrite string_of_list_byte_of_string.
Qed.

(** What GET /object answers with when it answers. *)
Lemma get_object_handler_ok param response :
  get_object_handler b64decode s3_get_body param = Ok response ->
  exists path name,
    b64decode param = Response path /\
    get_object s3_get_body path = Ok (name, content response) /\
    headers response =
      [("Content-Disposition", "attachment;filename=" +:+ name);
       ("Content-Type", "application/octet-stream");
       ("Access-Control-Expose-Headers", "Content-Disposition")].
Proof.
  unfold get_object_handler. intros H.
  destruct (b64decode param) as [path|e]; [|discriminate].
  cbn [call mbind res_bind] in H.
  apply bind_ok_inv in H as ([name body] & Hg & H).
  unfold encode_latin_1, decode_latin_1 in H. cbn [mbind res_bind] in H.
  rewrite string_of_list_byte_of_string in H. injection H as <-.
  exists path, name. auto.
Qed.

(** The three handlers built on a pair answer 200 with the result or
    500 with the error; an exception of the store never leaves them. *)
Lemma get_objects_handler_answers param prefix :
  b64decode param = Response prefix ->
  (exists response,
     get_bucket_objects cache s3_list_objects_v2 prefix = Ok (Some response, None) /\
     get_objects_handler b64decode cache s3_list_objects_v2 param =
       Ok (JSONResponse response 200)) \/
  (exists message,
     get_bucket_objects cache s3_list_objects_v2 prefix = Ok (None, Some message) /\
     get_objects_handler b64decode cache s3_list_objects_v2 param =
       Ok (HTTPException 500 (Some message))).
Proof.
  intros Hd. unfold get_objects_handler. rewrite Hd. cbn [call mbind res_bind].
  destruct (get_bucket_objects_one_side cache s3_list_objects_v2 prefix)
    as [[r Hr]|[m Hm]]; [left; exists r | right; exists m];
    (split; [assumption|]).
  - now rewrite Hr.
  - now rewrite Hm.
Qed.

Lemma get_object_info_handler_answers param key :
  b64decode param = Response key ->
  (exists details,
     get_object_info s3_head_object key = Ok (Some details, None) /\
     get_object_info_handler b64decode s3_head_object param =
       Ok (JSONResponse details 200)) \/
  (exists e,
     get_object_info s3_head_object key = Ok (None, Some e) /\
     get_object_info_handler b64decode s3_head_object param =
       Ok (HTTPException 500 (Some e))).
Proof.
  intros Hd. unfold get_object_info_handler. rewrite Hd. cbn [call mbind res_bind].
  destruct (get_object_info_one_side s3_head_object key)
    as [[r Hr]|[m Hm]]; [left; exists r | right; exists m];
    (split; [assumption|]).
  - now rewrite Hr.
  - now rewrite Hm.
Qed.

Lemma store_fault_is_500 param key e :
  b64decode param = Response key ->
  (s3_list_objects_v2 key = Fault e ->
   get_objects_handler b64decode cache s3_list_objects_v2 param =
     Ok (HTTPException 500 (Some (str_exn e)))) /\
  (s3_head_object key = Fault e ->
   get_object_info_handler b64decode s3_head_object param =
     Ok (HTTPException 500 (Some e))) /\
  (s3_delete_object key = Fault e ->
   delete_object_handler b64decode bucket s3_delete_object param =
     Ok (HTTPException 500
           (Some ("Could not delete object '" +:+ key +:+ "' , " +:+ str_exn e)))).
Proof.
  intros Hd. unfold get_objects_handler, get_object_info_handler,
    delete_object_handler. rewrite Hd. cbn [call mbind res_bind].
  repeat split; intros H.
  - now rewrite (get_bucket_objects_catches cache s3_list_objects_v2 key e H).
  - now rewrite (get_object_info_catches s3_head_object key e H).
  - now rewrite (delete_object_catches bucket s3_delete_object key e H).
Qed.

(** DELETE /object answers 200 whenever the store call returns, whatever
    status the store reports. *)
Lemma delete_object_handler_200 param key status :
  b64decode param = Response key ->
  s3_delete_object key = Response status ->
  exists message,
    delete_object_handler b64decode bucket s3_delete_object param =
      Ok (JSONResponse message 200) /\
    (status <> Some 204 ->
     message = "Failed to delete object '" +:+ key +:+ "' from bucket '"
                 +:+ bucket +:+ "'.").
Proof.
  intros Hd Hs. unfold delete_object_handler. rewrite Hd. cbn [call mbind res_bind].
  pose proof (delete_object_cases bucket s3_delete_object key) as H.
  rewrite Hs in H. destruct H as (message & -> & _ & Hfail).
  exists message. split; [reflexivity | exact Hfail].
Qed.

(** POST /object stores under the path followed by the file name; a
    store status other than 200 ends in the ValueError of the unpacking,
    not in a 500 answer. *)
Lemma put_object_handler_cases param path file_name data :
  b64decode param = Response path ->
  match s3_put (path +:+ file_name) data with
  | Response (Some status) =>
      if status =? 200
      then put_object_handler b64decode s3_put param file_name data =
           Ok (JSONResponse "hey" 200)
      else put_object_handler b64decode s3_put param file_name data =
           Ok (ValueError "not enough values to unpack (expected 2, got 1)")
  | Response None =>
      put_object_handler b64decode s3_put param file_name data =
      Ok (HTTPException 500 (Some "'HTTPStatusCode'"))
  | Fault e =>
      put_object_handler b64decode s3_put param file_name data =
      Ok (HTTPException 500 (Some (str_exn e)))
  end.
Proof.
  intros Hd. unfold put_object_handler. rewrite Hd. cbn [call mbind res_bind].
  pose proof (put_object_cases s3_put (path +:+ file_name) data) as H.
  destruct (s3_put (path +:+ file_name) data) as [[status|]|e];
    [destruct (status =? 200)|..]; now rewrite H.
Qed.

End HandlerFacts.

(** ** Claims on the gateway *)

(** C5 (the code departs from the claim).  The claim: every store
    operation of the class catches a store failure and returns it as an
    error paired with a null result.  [get_object] has no handler: with a
    store that finds no such key the exception leaves the method, and the
    /object handler of main.py with it, where [get_object_info] and
    [delete_object] hand the failure back as the error of a pair. *)
Theorem get_object_lets_store_failure_escape :
  get_object missing_key "a/x.txt" = Raise (ClientError "NoSuchKey") /\
  get_object_handler decode_sample missing_key "YS94LnR4dA=="
    = Raise (ClientError "NoSuchKey") /\
  get_object_info (fun _ => Fault (ClientError "NoSuchKey")) "a/x.txt"
    = Ok (None, Some (ClientError "NoSuchKey")) /\
  delete_object "bk" (fun _ => Fault (ClientError "AccessDenied")) "a/x.txt"
    = Ok (None, Some "Could not delete object 'a/x.txt' , AccessDenied").
Proof. repeat split; reflexivity. Qed.

(** C6.  The size shown for a folder of a listing is looked up in the
    cache under the folder's exact prefix: a listing that is returned
    shows, for every listed folder in turn, the rendering of the cached
    size when the prefix is a key of the cache and "0 B", the rendering
    of 0, when it is not.  The lookup never fails: with every cached
    size of a listed folder and every object size renderable the listing
    is returned, whichever listed folders have no entry.  The cache is
    an input of the listing only. *)
Theorem cache_lookup_defaults_to_zero (cache : gmap string pyval)
    s3_list_objects_v2 prefix objs :
  s3_list_objects_v2 prefix = Response objs ->
  (forall response,
     get_bucket_objects cache s3_list_objects_v2 prefix
       = Ok (Some response, None) ->
     Forall2 (fun folder row =>
                folder_path row = folder /\
                match cache !! folder with
                | Some size => human_readable_size size = Ok (folder_size row)
                | None => folder_size row = "0 B"
                end)
             (CommonPrefixes objs) (folders response)) /\
  ((forall folder size,
      In folder (CommonPrefixes objs) -> cache !! folder = Some size ->
      is_ok (human_readable_size size)) ->
   (forall file,
      In file (Contents objs) -> is_ok (human_readable_size (PInt (Size file)))) ->
   exists response,
     get_bucket_objects cache s3_list_objects_v2 prefix
       = Ok (Some response, None)).
Proof.
  intros Hl. split.
  - intros response Hg.
    destruct (get_bucket_objects_fields cache s3_list_objects_v2 prefix
                objs response Hl Hg) as (Hp & _ & Hs & _).
    rewrite <- Hp in Hs |- *. rewrite map_map in Hs.
    apply rows_forall2. intros row Hin. split; [reflexivity|].
    pose proof Hs as Hrows. rewrite map_ext_in_iff in Hrows.
    pose proof (Hrows row Hin) as Hrow. cbv beta in Hrow. unfold cache_get in Hrow.
    destruct (cache !! folder_path row) as [size|]; cbn [default] in Hrow.
    + now symmetry.
    + change (human_readable_size (PInt 0)) with (@Ok string "0 B") in Hrow.
      congruence.
  - intros Hf Ho. apply (get_bucket_objects_succeeds _ _ _ _ Hl); [|exact Ho].
    intros folder Hin. unfold cache_get.
    destruct (cache !! folder) as [size|] eqn:E; cbn [default].
    + exact (Hf folder size Hin E).
    + eexists; reflexivity.
Qed.

Lemma cache_lookup_defaults_to_zero_witness :
  (exists response,
     get_bucket_objects {["a/" := PInt 300]} sample_client ""
       = Ok (Some response, None) /\
     map folder_size (folders response) = ["300.00 B"]) /\
  (exists response,
     get_bucket_objects {["b/" := PInt 300]} sample_client ""
       = Ok (Some response, None) /\
     map folder_size (folders response) = ["0 B"]).
Proof.
  assert (Hshow : forall cache response shown,
    get_bucket_objects cache sample_client "" = Ok (Some response, None) ->
    match cache !! "a/" with
    | Some size => human_readable_size size = Ok shown
    | None => shown = "0 B"
    end ->
    map folder_size (folders response) = [shown]).
  { intros cache response shown Hg Hs.
    destruct (cache_lookup_defaults_to_zero cache sample_client "" _ eq_refl)
      as [Hrows _].
    specialize (Hrows response Hg).
    change (CommonPrefixes _) with ["a/"] in Hrows.
    inversion Hrows as [|folder row l rows [_ Hrow] Hrest]; subst.
    inversion Hrest; subst. cbn [map]. f_equal.
    destruct (cache !! "a/"); congruence. }
  split.
  - destruct (cache_lookup_defaults_to_zero {["a/" := PInt 300]} sample_client ""
                _ eq_refl) as [_ Hsucc].
    destruct Hsucc as [response Hg].
    + intros folder size [<-|[]] [= <-]. vm_compute. eauto.
    + intros file [<-|[]]. vm_compute. eauto.
    + exists response. split; [exact Hg|].
      apply (Hshow _ _ _ Hg). vm_compute. reflexivity.
  - destruct (cache_lookup_defaults_to_zero {["b/" := PInt 300]} sample_client ""
                _ eq_refl) as [_ Hsucc].
    destruct Hsucc as [response Hg].
    + intros folder size [<-|[]] H. vm_compute in H. discriminate.
    + intros file [<-|[]]. vm_compute. eauto.
    + exists response. split; [exact Hg|].
      apply (Hshow _ _ _ Hg). vm_compute. reflexivity.
Defined.

(** C10, counterexample.  In "aaa.txt" the prefix "aa" occurs again
    after the start, at the second character; the key reported for it
    under the prefix "aa" is "a.txt", which is the suffix that follows
    the leading prefix. *)
Lemma listing_key_is_suffix_despite_reoccurrence :
  "aaa.txt" = "aa" +:+ "a.txt" /\
  "aaa.txt" = "a" +:+ "aa" +:+ ".txt" /\
  (response ← get_bucket_objects ∅ (store_client "bk" overlap_store) "aa";
   Ok (option_map (fun r => map file_key (files r)) (fst response)))
    = Ok (Some ["a.txt"]).
Proof. repeat split; vm_compute; reflexivity. Qed.

(** C10, as amended.  In a listing response the [key] of every file is
    the full key with the occurrences of the request prefix removed by
    [str.replace], and the [name] of every folder is its prefix treated
    the same way, less the last character.  [str.replace] cuts out every
    occurrence it finds scanning from the left, each search starting
    after the occurrence before it, so that an occurrence overlapping an
    earlier one stays; with the empty prefix it leaves the key as it is.
    Hence, for a key made of a non-empty prefix and a remainder, the
    reported key differs from the remainder exactly when the prefix
    occurs within the remainder. *)
Theorem listing_names_drop_every_occurrence :
  (forall cache s3_list_objects_v2 prefix objs response,
     s3_list_objects_v2 prefix = Response objs ->
     get_bucket_objects cache s3_list_objects_v2 prefix
       = Ok (Some response, None) ->
     map file_key (files response) =
       map (fun file => PyStr.replace (Key file) prefix "") (Contents objs) /\
     map folder_name (folders response) =
       map (fun folder => PyStr.drop_last (PyStr.replace folder prefix ""))
           (CommonPrefixes objs)) /\
  (forall prefix key r,
     prefix <> "" ->
     (removed prefix key r <-> PyStr.replace key prefix "" = r)) /\
  (forall key, PyStr.replace key "" "" = key) /\
  (forall prefix rest,
     prefix <> "" ->
     (PyStr.replace (prefix +:+ rest) prefix "" <> rest <-> occurs prefix rest)).
Proof.
  split; [|split; [|split]].
  - intros cache s3 prefix objs response. apply listing_names.
  - intros prefix key r Hp. apply ReplaceFacts.removed_iff_replace, Hp.
  - apply ReplaceFacts.replace_empty.
  - intros prefix rest Hp.
    pose proof (ReplaceFacts.replace_is_suffix_iff prefix rest Hp) as H.
    split.
    + intros Hne. destruct (ReplaceFacts.occurs_dec prefix rest) as [Ho|Hn];
        [exact Ho|]. now apply H in Hn.
    + intros Ho E. now apply H in E.
Qed.

Lemma listing_names_drop_every_occurrence_witness :
  (exists response,
     get_bucket_objects ∅ sample_client "a/" = Ok (Some response, None) /\
     map file_key (files response) = ["x.txt"] /\
     map folder_name (folders response) = ["b"]) /\
  "ab" <> "" /\
  removed "ab" "abcabab" "c" /\
  PyStr.replace ("ab" +:+ "ab.txt") "ab" "" <> "ab.txt".
Proof.
  destruct listing_names_drop_every_occurrence as (H1 & H2 & _ & H4).
  assert (Hne : "ab" <> "") by discriminate.
  split; [|split; [exact Hne | split]].
  - destruct (get_bucket_objects ∅ sample_client "a/")
      as [[[response|] [err|]]| |] eqn:E; try (vm_compute in E; discriminate).
    exists response. split; [reflexivity|].
    destruct (H1 ∅ sample_client "a/" _ response eq_refl E) as [Hf Hd].
    rewrite Hf, Hd. split; reflexivity.
  - apply (H2 "ab" "abcabab" "c" Hne). reflexivity.
  - apply (H4 "ab" "ab.txt" Hne). exists "", ".txt". reflexivity.
Defined.

(** ** Properties of calculate_folder_size *)

(** X1.  The recursion of [calculate_folder_size] is bounded by the
    length of the longest key: the call returns for every store, prefix
    and cache, and the walk run under any budget of at least
    [depth_budget] returns the same total and cache. *)
Theorem calculate_folder_size_returns bucket store prefix cache fuel :
  (depth_budget store prefix <= fuel)%nat ->
  exists total cache',
    calculate_folder_size bucket store prefix cache = Ok (total, cache') /\
    calculate_folder_size_rec bucket store fuel prefix cache = Ok (total, cache').
Proof.
  intros Hb.
  destruct (calculate_folder_size_total bucket store prefix cache)
    as [[total cache'] H].
  exists total, cache'. split; [exact H|].
  now rewrite (walk_enough bucket store fuel prefix cache Hb).
Qed.

Lemma calculate_folder_size_returns_witness :
  (depth_budget sample_store "a/" <= 20)%nat /\
  exists total cache',
    calculate_folder_size "bk" sample_store "a/" ∅ = Ok (total, cache') /\
    calculate_folder_size_rec "bk" sample_store 20 "a/" ∅ = Ok (total, cache').
Proof.
  assert (H : (depth_budget sample_store "a/" <= 20)%nat) by (vm_compute; lia).
  split; [exact H|].
  exact (calculate_folder_size_returns "bk" sample_store "a/" ∅ 20 H).
Defined.

(** X2.  [calculate_folder_size] never reads the cache it is given: the
    total is the one it returns over the empty cache, the same over every
    other cache, and the cache returned is what it writes laid over the
    prior entries, none of which is removed. *)
Theorem calculate_folder_size_ignores_cache bucket store prefix cache total cache' :
  calculate_folder_size bucket store prefix cache = Ok (total, cache') ->
  (exists written,
     calculate_folder_size bucket store prefix ∅ = Ok (total, written) /\
     cache' = written ∪ cache) /\
  (forall other, exists cache'',
     calculate_folder_size bucket store prefix other = Ok (total, cache'')) /\
  (forall key, is_Some (cache !! key) -> is_Some (cache' !! key)).
Proof.
  intros H. rewrite calculate_folder_size_over in H.
  destruct (calculate_folder_size bucket store prefix ∅) as [[t m]| |] eqn:E;
    try discriminate.
  cbn [over mbind res_bind] in H. injection H as <- <-.
  split; [eauto|]. split.
  - intros other. rewrite calculate_folder_size_over, E. eexists; reflexivity.
  - intros key Hk. apply lookup_union_is_Some. now right.
Qed.

Lemma calculate_folder_size_ignores_cache_witness :
  exists total cache',
    calculate_folder_size "bk" sample_store "a/" stale_cache = Ok (total, cache') /\
    (exists cache'',
       calculate_folder_size "bk" sample_store "a/" ∅ = Ok (total, cache'')) /\
    is_Some (cache' !! "old/").
Proof.
  pose (r := calculate_folder_size "bk" sample_store "a/" stale_cache).
  pose (total := match r with Ok (t, _) => t | _ => 0 end).
  pose (cache' := match r with Ok (_, c) => c | _ => ∅ end).
  assert (H : calculate_folder_size "bk" sample_store "a/" stale_cache
              = Ok (total, cache')) by (vm_compute; reflexivity).
  exists total, cache'. split; [exact H|].
  destruct (calculate_folder_size_ignores_cache _ _ _ _ _ _ H)
    as (_ & Hother & Hkeep).
  split; [apply Hother|]. apply Hkeep. vm_compute. eauto.
Defined.

(** X3.  After [calculate_folder_size(prefix, cache)] the size lookup of
    a listing, [cache.get(prefix, 0)], finds the total the call
    returned. *)
Theorem calculate_folder_size_then_lookup bucket store prefix cache total cache' :
  calculate_folder_size bucket store prefix cache = Ok (total, cache') ->
  cache_get cache' prefix = PInt total.
Proof.
  intros H. unfold cache_get.
  now rewrite (calculate_folder_size_root _ _ _ _ _ _ H).
Qed.

Lemma calculate_folder_size_then_lookup_witness :
  exists cache',
    calculate_folder_size "bk" sample_store "a/" ∅ = Ok (300, cache') /\
    cache_get cache' "a/" = PInt 300.
Proof.
  pose (r := calculate_folder_size "bk" sample_store "a/" ∅).
  pose (cache' := match r with Ok (_, c) => c | _ => ∅ end).
  assert (H : calculate_folder_size "bk" sample_store "a/" ∅ = Ok (300, cache'))
    by (vm_compute; reflexivity).
  exists cache'. split; [exact H|].
  exact (calculate_folder_size_then_lookup _ _ _ _ _ _ H).
Defined.

(** X4.  Every entry [calculate_folder_size] writes, at whatever depth,
    holds for its key the total the function returns for that key:
    after a call each key is either untouched or mapped to that total. *)
Theorem calculate_folder_size_entries bucket store prefix cache total cache' :
  calculate_folder_size bucket store prefix cache = Ok (total, cache') ->
  forall key,
    cache' !! key = cache !! key \/ holds_size bucket store cache' key.
Proof.
  intros H key. rewrite calculate_folder_size_over in H.
  destruct (calculate_folder_size bucket store prefix ∅) as [[t m]| |] eqn:E;
    try discriminate.
  cbn [over mbind res_bind] in H. injection H as <- <-.
  destruct (m !! key) as [v|] eqn:Ev.
  - right. destruct (calculate_folder_size_consistent _ _ _ _ _ E key v Ev)
      as (tk & w & Hk & ->).
    exists tk, w. split; [exact Hk|]. now apply lookup_union_Some_l.
  - left. now apply lookup_union_r.
Qed.

Lemma calculate_folder_size_entries_witness :
  exists total cache',
    calculate_folder_size "bk" photo_store "photos/" stale_cache
      = Ok (total, cache') /\
    (cache' !! "photos/old/" = stale_cache !! "photos/old/" \/
     holds_size "bk" photo_store cache' "photos/old/").
Proof.
  pose (r := calculate_folder_size "bk" photo_store "photos/" stale_cache).
  pose (total := match r with Ok (t, _) => t | _ => 0 end).
  pose (cache' := match r with Ok (_, c) => c | _ => ∅ end).
  assert (H : calculate_folder_size "bk" photo_store "photos/" stale_cache
              = Ok (total, cache')) by (vm_compute; reflexivity).
  exists total, cache'. split; [exact H|].
  exact (calculate_folder_size_entries _ _ _ _ _ _ H "photos/old/").
Defined.

(** X5.  From a prefix that holds at least two delimiters
    [calculate_folder_size] returns the sum of the sizes of all objects
    whose key starts with the prefix. *)
Theorem calculate_folder_size_deep_sum bucket store prefix cache :
  (2 <= PyStr.count slash prefix)%nat ->
  exists cache',
    calculate_folder_size bucket store prefix cache
    = Ok (size_under store prefix, cache').
Proof. apply calculate_folder_size_sums_deep. Qed.

Lemma calculate_folder_size_deep_sum_witness :
  (2 <= PyStr.count slash "a/b/")%nat /\
  size_under deep_store "a/b/" = 205 /\
  exists cache',
    calculate_folder_size "bk" deep_store "a/b/" ∅
    = Ok (size_under deep_store "a/b/", cache').
Proof.
  assert (H : (2 <= PyStr.count slash "a/b/")%nat) by (vm_compute; lia).
  split; [exact H|]. split; [reflexivity|].
  exact (calculate_folder_size_deep_sum "bk" deep_store "a/b/" ∅ H).
Defined.

(** X6.  From a prefix that holds at least two delimiters, one call
    leaves every folder under the prefix mapped to the sum of the sizes
    of the objects under that folder. *)
Theorem calculate_folder_size_deep_memo bucket store prefix cache total cache' :
  (2 <= PyStr.count slash prefix)%nat ->
  calculate_folder_size bucket store prefix cache = Ok (total, cache') ->
  total = size_under store prefix /\
  forall folder,
    folder_under store prefix folder ->
    cache' !! folder = Some (PInt (size_under store folder)).
Proof.
  intros Hp. apply calculate_folder_size_memoizes. intros q Hq.
  apply faithful_deep. rewrite (PyStrFacts.startswith_split _ _ Hq).
  rewrite ListingFacts.count_app. lia.
Qed.

Lemma calculate_folder_size_deep_memo_witness :
  exists total cache',
    calculate_folder_size "bk" deep_store "a/b/" ∅ = Ok (total, cache') /\
    folder_under deep_store "a/b/" "a/b/c/" /\
    cache' !! "a/b/c/" = Some (PInt 5).
Proof.
  pose (r := calculate_folder_size "bk" deep_store "a/b/" ∅).
  pose (total := match r with Ok (t, _) => t | _ => 0 end).
  pose (cache' := match r with Ok (_, c) => c | _ => ∅ end).
  assert (H : calculate_folder_size "bk" deep_store "a/b/" ∅ = Ok (total, cache'))
    by (vm_compute; reflexivity).
  assert (Hp : (2 <= PyStr.count slash "a/b/")%nat) by (vm_compute; lia).
  assert (Hf : folder_under deep_store "a/b/" "a/b/c/").
  { exists "c/". split; [reflexivity|]. right. split; [reflexivity|].
    exists (object "a/b/c/z.txt" 5). split; [left; reflexivity | reflexivity]. }
  exists total, cache'. split; [exact H|]. split; [exact Hf|].
  destruct (calculate_folder_size_deep_memo _ _ _ _ _ _ Hp H) as [_ Hm].
  exact (Hm "a/b/c/" Hf).
Defined.

(** ** Properties of refresh_cache and load_cache *)

(** X7.  Refreshing again changes nothing: with the same store and clock
    reading, a refresh of a refreshed cache returns that cache. *)
Theorem refresh_cache_idempotent bucket store s3_reachable write_json
    now prior cache :
  refresh_cache bucket store s3_reachable write_json now prior = Ok cache ->
  refresh_cache bucket store s3_reachable write_json now cache = Ok cache.
Proof. apply refresh_cache_again. Qed.

Lemma refresh_cache_idempotent_witness :
  exists cache,
    refresh_cache "bk" sample_store done done (inject_Z 1000) stale_cache
      = Ok cache /\
    refresh_cache "bk" sample_store done done (inject_Z 1000) cache = Ok cache.
Proof.
  pose (r := refresh_cache "bk" sample_store done done (inject_Z 1000) stale_cache).
  pose (cache := match r with Ok c => c | _ => ∅ end).
  assert (H : refresh_cache "bk" sample_store done done (inject_Z 1000) stale_cache
              = Ok cache) by (vm_compute; reflexivity).
  exists cache. split; [exact H|].
  exact (refresh_cache_idempotent _ _ _ _ _ _ _ H).
Defined.

(** X8.  A refreshed cache is stamped with the clock reading, keeps
    every key of the prior cache, and maps every top-level folder of the
    bucket to the total [calculate_folder_size] returns for it. *)
Theorem refresh_cache_top_level bucket store s3_reachable write_json
    now prior cache :
  refresh_cache bucket store s3_reachable write_json now prior = Ok cache ->
  cache !! "time" = Some (PFloat now) /\
  (forall key, is_Some (prior !! key) -> is_Some (cache !! key)) /\
  forall folder,
    In folder (CommonPrefixes (list_objects_v2 bucket store "")) ->
    holds_size bucket store cache folder.
Proof.
  intros H. split; [exact (refresh_cache_stamp _ _ _ _ _ _ _ H)|]. split.
  - destruct (refresh_cache_over_inv _ _ _ _ _ _ _ H) as (fresh & _ & ->).
    intros key Hk. apply lookup_union_is_Some. now right.
  - intros folder Hin. exact (refresh_cache_entries _ _ _ _ _ _ _ _ H Hin).
Qed.

Lemma refresh_cache_top_level_witness :
  exists cache,
    refresh_cache "bk" sample_store done done (inject_Z 1000) stale_cache
      = Ok cache /\
    cache !! "time" = Some (PFloat (inject_Z 1000)) /\
    is_Some (cache !! "old/") /\
    holds_size "bk" sample_store cache "a/".
Proof.
  pose (r := refresh_cache "bk" sample_store done done (inject_Z 1000) stale_cache).
  pose (cache := match r with Ok c => c | _ => ∅ end).
  assert (H : refresh_cache "bk" sample_store done done (inject_Z 1000) stale_cache
              = Ok cache) by (vm_compute; reflexivity).
  exists cache. split; [exact H|].
  destruct (refresh_cache_top_level _ _ _ _ _ _ _ H) as (Ht & Hk & Hf).
  split; [exact Ht|]. split.
  - apply Hk. vm_compute. eauto.
  - apply Hf. left. reflexivity.
Defined.

(** X9.  A cache returned by [load_cache] always carries a timestamp.
    Either the cache was just refreshed and is stamped with the clock
    reading of the refresh, or it is the persisted snapshot, whose stamp
    is a number not below the float [time() + 900]: with a clock
    between 0 and 2^53 - 900 that stamp is at least 900 seconds ahead of
    the whole seconds of the clock, or it is +inf or nan.  A snapshot
    stamped in the past is never returned as it is. *)
Theorem load_cache_stamp bucket store s3_reachable write_json
    now refreshed my_file cache :
  load_cache bucket store s3_reachable write_json now refreshed my_file
    = Ok cache ->
  cache !! "time" = Some (PFloat refreshed) \/
  (my_file = Snapshot cache /\
   exists stamp,
     cache !! "time" = Some stamp /\
     PyNum.lt_num stamp (PyNum.add_float now 900) = Ok false /\
     forall t : Z,
       0 <= t -> (inject_Z t <= now)%Q ->
       (now + inject_Z 900 < inject_Z (2 ^ 53))%Q ->
       match stamp with
       | PInt n => t + 900 <= n
       | PFloat x => (inject_Z (t + 900) <= x)%Q
       | PInf negative => negative = false
       | PNaN => True
       | _ => False
       end).
Proof.
  destruct my_file as [| | |content]; try discriminate.
  - intros H. left. exact (refresh_cache_stamp _ _ _ _ _ _ _ H).
  - unfold load_cache, getitem. cbn [json_load mbind res_bind].
    destruct content as [| | | | | | | |content];
      try (destruct content; discriminate); try discriminate.
    destruct (content !! "time") as [stamp|] eqn:Es; [|discriminate].
    cbn [mbind res_bind].
    destruct (PyNum.lt_num stamp (PyNum.add_float now 900)) as [[|]| |] eqn:E;
      cbn [mbind res_bind]; try discriminate.
    + intros H. left. exact (refresh_cache_stamp _ _ _ _ _ _ _ H).
    + intros [= <-]. right. split; [reflexivity|]. exists stamp.
      split; [exact Es|]. split; [exact E|].
      intros t Ht Hnow Hsmall.
      assert (Hsum : (inject_Z (t + 900) <= PyNum.add_float now 900)%Q).
      { apply PyNumFacts.round_float_above; [lia | | exact Hsmall].
        rewrite inject_Z_plus. apply Qplus_le_compat; [exact Hnow | apply Qle_refl]. }
      destruct stamp as [n|x|negative| |b| | | |]; try discriminate;
        cbn [PyNum.lt_num] in E; try exact I; injection E as E.
      * apply negb_false_iff, Qle_bool_iff in E.
        pose proof (Qle_trans _ _ _ Hsum E) as H. now rewrite <- Zle_Qle in H.
      * apply negb_false_iff, Qle_bool_iff in E.
        exact (Qle_trans _ _ _ Hsum E).
      * exact E.
      * apply negb_false_iff, Qle_bool_iff in E.
        pose proof (Qle_trans _ _ _ Hsum E) as H. rewrite <- Zle_Qle in H.
        destruct b; simpl in H; lia.
Qed.

Lemma load_cache_stamp_witness :
  load_cache "bk" sample_store done done (inject_Z 1000) (inject_Z 1001)
    (Snapshot {["time" := PInt 5000]}) = Ok {["time" := PInt 5000]} /\
  1000 + 900 <= 5000 /\
  load_cache "bk" sample_store done done
    (5404319552844595 # 18014398509481984) (inject_Z 1)
    (Snapshot {["time" := PFloat (3959561273946931 # 4398046511104)]})
    = Ok {["time" := PFloat (3959561273946931 # 4398046511104)]} /\
  exists cache,
    load_cache "bk" sample_store done done (inject_Z 1000) (inject_Z 1001)
      (Snapshot recent_snapshot) = Ok cache /\
    cache !! "time" = Some (PFloat (inject_Z 1001)).
Proof.
  assert (Hk : load_cache "bk" sample_store done done (inject_Z 1000) (inject_Z 1001)
                 (Snapshot {["time" := PInt 5000]}) = Ok {["time" := PInt 5000]})
    by (vm_compute; reflexivity).
  split; [exact Hk|]. split; [|split; [vm_compute; reflexivity|]].
  - destruct (load_cache_stamp _ _ _ _ _ _ _ _ Hk)
      as [Ht|(_ & stamp & Hs & _ & Hahead)]; [vm_compute in Ht; discriminate|].
    assert (stamp = PInt 5000) as -> by (vm_compute in Hs; congruence).
    apply (Hahead 1000); [lia | apply Qle_refl | reflexivity].
  - pose (r := load_cache "bk" sample_store done done (inject_Z 1000) (inject_Z 1001)
                 (Snapshot recent_snapshot)).
    pose (cache := match r with Ok c => c | _ => ∅ end).
    assert (H : load_cache "bk" sample_store done done (inject_Z 1000) (inject_Z 1001)
                  (Snapshot recent_snapshot) = Ok cache) by (vm_compute; reflexivity).
    exists cache. split; [exact H|].
    destruct (load_cache_stamp _ _ _ _ _ _ _ _ H) as [Ht|[Hs _]]; [exact Ht|].
    vm_compute. reflexivity.
Defined.

(** X10.  After a start without a cache file, the listing of the bucket
    root shows every top-level folder with the rendering of the total
    [calculate_folder_size] returns for it. *)
Theorem fresh_start_root_listing bucket store s3_reachable write_json
    now refreshed cache response :
  load_cache bucket store s3_reachable write_json now refreshed Absent
    = Ok cache ->
  get_bucket_objects cache (store_client bucket store) "" = Ok (Some response, None) ->
  map folder_path (folders response) =
    CommonPrefixes (list_objects_v2 bucket store "") /\
  map (fun row => Ok (folder_size row)) (folders response) =
    map (fun folder =>
           '(total, _) ← calculate_folder_size bucket store folder ∅;
           human_readable_size (PInt total))
        (CommonPrefixes (list_objects_v2 bucket store "")).
Proof.
  intros Hload Hlist.
  destruct (get_bucket_objects_fields cache (store_client bucket store) ""
              _ response eq_refl Hlist) as (Hp & _ & Hs & _).
  split; [exact Hp|]. rewrite Hs. apply map_ext_in. intros folder Hin.
  destruct (refresh_cache_entries bucket store s3_reachable write_json
              refreshed ∅ cache folder Hload Hin)
    as (total & written & Ht & Hk).
  rewrite Ht. cbn [mbind res_bind]. unfold cache_get. now rewrite Hk.
Qed.

Lemma fresh_start_root_listing_witness :
  exists cache response,
    load_cache "bk" sample_store done done (inject_Z 1000) (inject_Z 1001) Absent
      = Ok cache /\
    get_bucket_objects cache (store_client "bk" sample_store) ""
      = Ok (Some response, None) /\
    map folder_path (folders response) = ["a/"] /\
    map (fun row => Ok (folder_size row)) (folders response)
      = [@Ok string "300.00 B"].
Proof.
  pose (r := load_cache "bk" sample_store done done (inject_Z 1000) (inject_Z 1001)
               Absent).
  pose (cache := match r with Ok c => c | _ => ∅ end).
  assert (H : load_cache "bk" sample_store done done (inject_Z 1000) (inject_Z 1001)
                Absent = Ok cache)
    by (vm_compute; reflexivity).
  pose (g := get_bucket_objects cache (store_client "bk" sample_store) "").
  pose (response := match g with
                    | Ok (Some x, _) => x
                    | _ => {| folders := []; files := [];
                              prefix_parts := []; bucket_name := "" |}
                    end).
  assert (Hg : get_bucket_objects cache (store_client "bk" sample_store) ""
               = Ok (Some response, None)) by (vm_compute; reflexivity).
  exists cache, response. split; [exact H|]. split; [exact Hg|].
  destruct (fresh_start_root_listing _ _ _ _ _ _ _ _ H Hg) as [Hp Hs].
  split; [exact Hp|]. rewrite Hs. vm_compute. reflexivity.
Defined.

(** ** Properties of human_readable_size *)

(** X11.  On a float [human_readable_size] always returns a string:
    unlike an int, a float needs no conversion and cannot overflow.
    The infinities and nan are shown as "inf YB", "-inf B" and
    "nan B". *)
Theorem human_readable_size_float_returns :
  (forall x : Q, exists shown, human_readable_size (PFloat x) = Ok shown) /\
  human_readable_size (PInf false) = Ok "inf YB" /\
  human_readable_size (PInf true) = Ok "-inf B" /\
  human_readable_size PNaN = Ok "nan B".
Proof.
  split; [apply PyNumFacts.human_readable_size_float|].
  repeat split; reflexivity.
Qed.

(** X12.  A count between 1 and 1023 is shown as that number with two
    zero decimals, in bytes. *)
Theorem human_readable_size_bytes n :
  0 < n < 1024 ->
  human_readable_size (PInt n) = Ok (PyNum.decimal n +:+ ".00 B").
Proof. apply SizeFacts.bytes_below_1024. Qed.

Lemma human_readable_size_bytes_witness :
  0 < 512 < 1024 /\ human_readable_size (PInt 512) = Ok "512.00 B".
Proof.
  assert (H : 0 < 512 < 1024) by lia.
  split; [exact H|]. exact (human_readable_size_bytes 512 H).
Defined.

(** X13.  The unit of a count follows the range of its float value.
    For a positive count [n] that converts to a float and lies in the
    range of unit [i] (1024^i <= n < 1024^(i+1), or 1024^8 <= n for YB),
    the float value [v] lies between 1024^i and 1024^(i+1), ends
    included.  The count is shown in unit [i] as [v] divided by 1024 [i]
    times, unless rounding lifts [v] to 1024^(i+1): then it is shown as
    "1.00" of the next unit, as 2^60 - 1 is shown as "1.00 EB".  Below
    2^53 the conversion is exact, and the unit is that of the count's own
    range. *)
Theorem human_readable_size_unit n i :
  0 < n < 2 ^ 1024 - 2 ^ 970 -> (i <= 8)%nat ->
  1024 ^ Z.of_nat i <= n ->
  ((i < 8)%nat -> n < 1024 ^ Z.of_nat (S i)) ->
  (n < 2 ^ 53 -> PyNum.round_to_double n = n) /\
  1024 ^ Z.of_nat i <= PyNum.round_to_double n /\
  ((i < 8)%nat -> PyNum.round_to_double n <= 1024 ^ Z.of_nat (S i)) /\
  (i = 8%nat \/ PyNum.round_to_double n < 1024 ^ Z.of_nat (S i) ->
   exists u,
     nth_error units i = Some u /\
     human_readable_size (PInt n) =
       Ok (PyNum.format_2f_float
             (scaled (inject_Z (PyNum.round_to_double n)) i) +:+ " " +:+ u)) /\
  ((i < 8)%nat -> PyNum.round_to_double n = 1024 ^ Z.of_nat (S i) ->
   exists u,
     nth_error units (S i) = Some u /\
     human_readable_size (PInt n) = Ok ("1.00 " +:+ u)) /\
  2 ^ 60 - 1 < 1024 ^ 6 /\
  human_readable_size (PInt (2 ^ 60 - 1)) = Ok "1.00 EB".
Proof.
  intros Hn Hi Hlo Hhi.
  pose proof (PyNumFacts.float_of_int_ok n ltac:(lia)) as Hv.
  destruct (SizeFacts.round_in_range n i Hlo) as [Hvlo Hvhi].
  split; [intros Hs; apply PyNumFacts.round_small; lia|].
  split; [exact Hvlo|]. split; [intros Hi8; apply Hvhi; split; [lia | auto]|].
  split; [|split; [|split; [reflexivity | vm_compute; reflexivity]]].
  - intros Hrange.
    apply SizeFacts.unit_of_value; [lia | exact Hv | exact Hi | exact Hvlo|].
    intros Hi8. destruct Hrange as [->|Hlt]; [lia | exact Hlt].
  - intros Hi8 Hup.
    destruct (SizeFacts.unit_of_value n (PyNum.round_to_double n) (S i))
      as (u & Hu & Hr); [lia | exact Hv | lia | lia | |].
    + intros _. rewrite Hup. apply Z.pow_lt_mono_r; lia.
    + exists u. split; [exact Hu|]. rewrite Hr, Hup.
      now rewrite SizeFacts.one_of_unit by lia.
Qed.

Lemma human_readable_size_unit_witness :
  0 < 5 * 1024 ^ 3 < 2 ^ 1024 - 2 ^ 970 /\
  human_readable_size (PInt (5 * 1024 ^ 3)) = Ok "5.00 GB" /\
  0 < 2 ^ 60 - 1 < 2 ^ 1024 - 2 ^ 970 /\
  1024 ^ 5 <= 2 ^ 60 - 1 < 1024 ^ 6 /\
  exists u, nth_error units 6 = Some u /\
            human_readable_size (PInt (2 ^ 60 - 1)) = Ok ("1.00 " +:+ u).
Proof.
  assert (H : 0 < 5 * 1024 ^ 3 < 2 ^ 1024 - 2 ^ 970) by (split; reflexivity).
  assert (H' : 0 < 2 ^ 60 - 1 < 2 ^ 1024 - 2 ^ 970) by (split; reflexivity).
  split; [exact H|]. split; [|split; [exact H'|split]].
  - destruct (human_readable_size_unit (5 * 1024 ^ 3) 3 H)
      as (_ & _ & _ & Hin & _).
    + lia.
    + vm_compute. discriminate.
    + intros _. reflexivity.
    + destruct Hin as (u & Hu & Hr); [right; reflexivity|].
      rewrite Hr. injection Hu as <-. vm_compute. reflexivity.
  - split; [vm_compute; discriminate | reflexivity].
  - destruct (human_readable_size_unit (2 ^ 60 - 1) 5 H')
      as (_ & _ & _ & _ & Hup & _).
    + lia.
    + vm_compute. discriminate.
    + intros _. reflexivity.
    + apply Hup; [lia | vm_compute; reflexivity].
Defined.

(** ** Properties of get_bucket_objects and get_object *)

Lemma renderable_int n :
  0 <= n < 2 ^ 1024 - 2 ^ 970 -> is_ok (human_readable_size (PInt n)).
Proof.
  intros Hn. destruct (Z.eq_dec n 0) as [->|Hne].
  - eexists; reflexivity.
  - destruct (PyNumFacts.human_readable_size_shape n _ Hne
                (PyNumFacts.float_of_int_ok n Hn))
      as (i & u & _ & _ & Hr & _).
    eexists; exact Hr.
Qed.

(** X14.  A listing that succeeds holds one row per listed folder and
    per listed object, in the order of the store's response: the path of
    a row is the full prefix or key, the url of a folder is "?prefix="
    followed by its path, each size is the rendering of the cached folder
    size or of the object size, and the bucket is the one the store
    names. *)
Theorem get_bucket_objects_rows cache s3_list_objects_v2 prefix objs response :
  s3_list_objects_v2 prefix = Response objs ->
  get_bucket_objects cache s3_list_objects_v2 prefix = Ok (Some response, None) ->
  map folder_path (folders response) = CommonPrefixes objs /\
  map folder_url (folders response) =
    map (fun folder => "?prefix=" +:+ folder) (CommonPrefixes objs) /\
  map (fun row => Ok (folder_size row)) (folders response) =
    map (fun folder => human_readable_size (cache_get cache folder))
        (CommonPrefixes objs) /\
  map file_path (files response) = map Key (Contents objs) /\
  map file_last_modified (files response) = map LastModified (Contents objs) /\
  map (fun row => Ok (file_size row)) (files response) =
    map (fun file => human_readable_size (PInt (Size file))) (Contents objs) /\
  prefix_parts response = PyStr.init (PyStr.split (Prefix objs) slash) /\
  bucket_name response = Name objs.
Proof. apply get_bucket_objects_fields. Qed.

Lemma get_bucket_objects_rows_witness :
  exists response,
    get_bucket_objects ∅ sample_client "" = Ok (Some response, None) /\
    map folder_path (folders response) = ["a/"] /\
    map folder_url (folders response) = ["?prefix=a/"] /\
    map file_path (files response) = ["c.txt"] /\
    bucket_name response = "bk".
Proof.
  pose (g := get_bucket_objects ∅ sample_client "").
  pose (response := match g with
                    | Ok (Some x, _) => x
                    | _ => {| folders := []; files := [];
                              prefix_parts := []; bucket_name := "" |}
                    end).
  assert (Hg : get_bucket_objects ∅ sample_client "" = Ok (Some response, None))
    by (vm_compute; reflexivity).
  exists response. split; [exact Hg|].
  destruct (get_bucket_objects_rows ∅ sample_client "" _ response eq_refl Hg)
    as (H1 & H2 & _ & H4 & _ & _ & _ & H8).
  rewrite H1, H2, H4, H8. repeat split; reflexivity.
Defined.

(** X15.  When the store answers, every listed object has a size from 0
    up to the largest integer that converts to a float, and the cached
    size of every listed folder is such an integer, a float or a bool,
    the listing is returned. *)
Theorem get_bucket_objects_succeeds_in_range cache s3_list_objects_v2 prefix objs :
  s3_list_objects_v2 prefix = Response objs ->
  (forall folder, In folder (CommonPrefixes objs) ->
     match cache_get cache folder with
     | PInt n => 0 <= n < 2 ^ 1024 - 2 ^ 970
     | PFloat _ | PInf _ | PNaN | PBool _ => True
     | _ => False
     end) ->
  (forall file, In file (Contents objs) ->
     0 <= Size file < 2 ^ 1024 - 2 ^ 970) ->
  exists response,
    get_bucket_objects cache s3_list_objects_v2 prefix = Ok (Some response, None).
Proof.
  intros Hl Hf Ho. apply (get_bucket_objects_succeeds _ _ _ _ Hl).
  - intros folder Hin. specialize (Hf folder Hin).
    destruct (cache_get cache folder) as [n|x|[|]| |[|]| | | |];
      try contradiction; try (eexists; reflexivity);
      [now apply renderable_int | apply PyNumFacts.human_readable_size_float].
  - intros file Hin. apply renderable_int. now apply Ho.
Qed.

Lemma get_bucket_objects_succeeds_in_range_witness :
  exists response,
    get_bucket_objects recent_snapshot sample_client "" = Ok (Some response, None).
Proof.
  apply (get_bucket_objects_succeeds_in_range recent_snapshot sample_client ""
           _ eq_refl).
  - intros folder [<-|[]]. vm_compute. split; [discriminate | reflexivity].
  - intros file [<-|[]]. vm_compute. split; [discriminate | reflexivity].
Defined.

(** X16.  The pair [get_bucket_objects] returns has exactly one side
    set, whatever the store and the cache: a response with no error, or
    no response with an error message. *)
Theorem get_bucket_objects_pair cache s3_list_objects_v2 prefix :
  (exists response,
     get_bucket_objects cache s3_list_objects_v2 prefix = Ok (Some response, None)) \/
  (exists message,
     get_bucket_objects cache s3_list_objects_v2 prefix = Ok (None, Some message)).
Proof. apply get_bucket_objects_one_side. Qed.

(** X17.  One cached size that cannot be rendered fails the whole
    listing: when the first such folder raises, the method returns no
    response and the message of that exception. *)
Theorem get_bucket_objects_fails_on_size cache s3_list_objects_v2 prefix objs
    before folder after e :
  s3_list_objects_v2 prefix = Response objs ->
  CommonPrefixes objs = (before ++ folder :: after)%list ->
  (forall f, In f before -> is_ok (human_readable_size (cache_get cache f))) ->
  human_readable_size (cache_get cache folder) = Raise e ->
  get_bucket_objects cache s3_list_objects_v2 prefix = Ok (None, Some (str_exn e)).
Proof. apply get_bucket_objects_unrendered. Qed.

Lemma get_bucket_objects_fails_on_size_witness :
  get_bucket_objects {["a/" := PInt (2 ^ 1024)]} sample_client ""
  = Ok (None, Some "int too large to convert to float").
Proof.
  apply (get_bucket_objects_fails_on_size {["a/" := PInt (2 ^ 1024)]}
           sample_client "" _ [] "a/" [] OverflowError eq_refl).
  - reflexivity.
  - intros f [].
  - vm_compute. reflexivity.
Defined.

(** X18.  In the listing of the bucket root (empty prefix) every object
    is reported under its full key and every folder under its prefix
    less the last character. *)
Theorem root_listing_names cache s3_list_objects_v2 objs response :
  s3_list_objects_v2 "" = Response objs ->
  get_bucket_objects cache s3_list_objects_v2 "" = Ok (Some response, None) ->
  map file_key (files response) = map Key (Contents objs) /\
  map folder_name (folders response) = map PyStr.drop_last (CommonPrefixes objs).
Proof.
  intros Hl Hg.
  destruct (listing_names cache s3_list_objects_v2 "" objs response Hl Hg)
    as [Hf Hd].
  rewrite Hf, Hd. split; apply map_ext; intros x;
    now rewrite ReplaceFacts.replace_empty.
Qed.

Lemma root_listing_names_witness :
  exists response,
    get_bucket_objects ∅ sample_client "" = Ok (Some response, None) /\
    map file_key (files response) = ["c.txt"] /\
    map folder_name (folders response) = ["a"].
Proof.
  pose (g := get_bucket_objects ∅ sample_client "").
  pose (response := match g with
                    | Ok (Some x, _) => x
                    | _ => {| folders := []; files := [];
                              prefix_parts := []; bucket_name := "" |}
                    end).
  assert (Hg : get_bucket_objects ∅ sample_client "" = Ok (Some response, None))
    by (vm_compute; reflexivity).
  exists response. split; [exact Hg|].
  destruct (root_listing_names ∅ sample_client _ response eq_refl Hg) as [Hf Hd].
  rewrite Hf, Hd. split; reflexivity.
Defined.

(** X19.  Over a store that answers every listing: under a prefix that
    holds a delimiter, or the empty prefix, the prefix followed by the
    reported key of an object is its path; under a prefix that holds two
    delimiters, or the empty prefix, the prefix followed by the reported
    name of a folder and a delimiter is its path. *)
Theorem listing_names_rebuild_paths bucket store cache prefix response :
  get_bucket_objects cache (store_client bucket store) prefix
    = Ok (Some response, None) ->
  (PyStr.contains slash prefix = true \/ prefix = "" ->
   map (fun row => prefix +:+ file_key row) (files response)
     = map file_path (files response)) /\
  ((2 <= PyStr.count slash prefix)%nat \/ prefix = "" ->
   map (fun row => prefix +:+ folder_name row +:+ "/") (folders response)
     = map folder_path (folders response)).
Proof.
  intros Hg.
  destruct (listing_names cache (store_client bucket store) prefix _ response
              eq_refl Hg) as [Hk Hn].
  destruct (get_bucket_objects_fields cache (store_client bucket store) prefix
              _ response eq_refl Hg) as (Hp & _ & _ & Hfp & _).
  split; intros Hprefix.
  - rewrite Hfp.
    rewrite <- (map_map file_key (fun k => prefix +:+ k)), Hk, map_map.
    apply map_ext_in. intros file Hin.
    now apply (listed_key bucket store prefix file Hprefix).
  - rewrite Hp.
    rewrite <- (map_map folder_name (fun k => prefix +:+ k +:+ "/")), Hn, map_map.
    rewrite <- (map_id (CommonPrefixes _)) at 2.
    apply map_ext_in. intros folder Hin.
    now apply (listed_name bucket store prefix folder Hprefix).
Qed.

Lemma listing_names_rebuild_paths_witness :
  exists response,
    get_bucket_objects ∅ (store_client "bk" deep_store) "a/b/"
      = Ok (Some response, None) /\
    map (fun row => "a/b/" +:+ file_key row) (files response) = ["a/b/y.txt"] /\
    map (fun row => "a/b/" +:+ folder_name row +:+ "/") (folders response)
      = ["a/b/c/"].
Proof.
  pose (g := get_bucket_objects ∅ (store_client "bk" deep_store) "a/b/").
  pose (response := match g with
                    | Ok (Some x, _) => x
                    | _ => {| folders := []; files := [];
                              prefix_parts := []; bucket_name := "" |}
                    end).
  assert (Hg : get_bucket_objects ∅ (store_client "bk" deep_store) "a/b/"
               = Ok (Some response, None)) by (vm_compute; reflexivity).
  exists response. split; [exact Hg|].
  destruct (listing_names_rebuild_paths "bk" deep_store ∅ "a/b/" response Hg)
    as [Hf Hd].
  rewrite Hf by (left; reflexivity).
  rewrite Hd by (left; vm_compute; lia).
  split; reflexivity.
Defined.

(** X20.  The [prefix] field of a listing splits the store's prefix at
    its delimiters: for a prefix that ends with a delimiter, no part
    holds a delimiter and the parts joined by delimiters give the prefix
    back without its final delimiter. *)
Theorem prefix_parts_join cache s3_list_objects_v2 prefix objs response path :
  s3_list_objects_v2 prefix = Response objs ->
  get_bucket_objects cache s3_list_objects_v2 prefix = Ok (Some response, None) ->
  Prefix objs = path +:+ "/" ->
  str_join slash (prefix_parts response) = path /\
  Forall (fun part => PyStr.contains slash part = false) (prefix_parts response).
Proof.
  intros Hl Hg Hp.
  destruct (get_bucket_objects_fields cache s3_list_objects_v2 prefix
              _ response Hl Hg) as (_ & _ & _ & _ & _ & _ & Hparts & _).
  rewrite Hparts, Hp.
  change (path +:+ "/") with (path +:+ String slash "").
  rewrite SplitFacts.init_split_trailing. unfold PyStr.split. split.
  - now rewrite SplitFacts.join_split_scan.
  - now apply SplitFacts.split_scan_pieces.
Qed.

Lemma prefix_parts_join_witness :
  exists response,
    get_bucket_objects ∅ (store_client "bk" deep_store) "a/b/"
      = Ok (Some response, None) /\
    prefix_parts response = ["a"; "b"] /\
    str_join slash (prefix_parts response) = "a/b".
Proof.
  pose (g := get_bucket_objects ∅ (store_client "bk" deep_store) "a/b/").
  pose (response := match g with
                    | Ok (Some x, _) => x
                    | _ => {| folders := []; files := [];
                              prefix_parts := []; bucket_name := "" |}
                    end).
  assert (Hg : get_bucket_objects ∅ (store_client "bk" deep_store) "a/b/"
               = Ok (Some response, None)) by (vm_compute; reflexivity).
  exists response. split; [exact Hg|]. split; [reflexivity|].
  exact (proj1 (prefix_parts_join ∅ (store_client "bk" deep_store) "a/b/"
                  _ response "a/b" eq_refl Hg eq_refl)).
Defined.

(** X21.  When [get_object] returns, the content is the store's and the
    name is the part of the path after its last delimiter: the name
    holds no delimiter and the path is a directory part, empty or ending
    with a delimiter, followed by the name. *)
Theorem get_object_file_name s3_get_body path name body :
  get_object s3_get_body path = Ok (name, body) ->
  s3_get_body path = Response body /\
  PyStr.contains slash name = false /\
  exists dir,
    path = dir +:+ name /\ (dir = "" \/ PyStr.endswith slash dir = true).
Proof. apply get_object_name. Qed.

Lemma get_object_file_name_witness :
  get_object (fun _ => Response "data") "a/b/y.txt" = Ok ("y.txt", "data") /\
  exists dir,
    "a/b/y.txt" = dir +:+ "y.txt" /\ (dir = "" \/ PyStr.endswith slash dir = true).
Proof.
  assert (H : get_object (fun _ => Response "data") "a/b/y.txt"
              = Ok ("y.txt", "data")) by reflexivity.
  split; [exact H|].
  exact (proj2 (proj2 (get_object_file_name _ _ _ _ H))).
Defined.

(** ** Properties of the handlers and of the bucket methods *)

(** X22.  For a parameter that decodes, GET /objects and GET
    /object_info always answer, whatever the store does: 200 with the
    result the method returned for the decoded text, or 500 with the
    error it returned. *)
Theorem listing_handlers_answer b64decode cache s3_list_objects_v2
    s3_head_object param decoded :
  b64decode param = Response decoded ->
  ((exists response,
      get_bucket_objects cache s3_list_objects_v2 decoded = Ok (Some response, None) /\
      get_objects_handler b64decode cache s3_list_objects_v2 param =
        Ok (JSONResponse response 200)) \/
   (exists message,
      get_bucket_objects cache s3_list_objects_v2 decoded = Ok (None, Some message) /\
      get_objects_handler b64decode cache s3_list_objects_v2 param =
        Ok (HTTPException 500 (Some message)))) /\
  ((exists details,
      get_object_info s3_head_object decoded = Ok (Some details, None) /\
      get_object_info_handler b64decode s3_head_object param =
        Ok (JSONResponse details 200)) \/
   (exists e,
      get_object_info s3_head_object decoded = Ok (None, Some e) /\
      get_object_info_handler b64decode s3_head_object param =
        Ok (HTTPException 500 (Some e)))).
Proof.
  intros Hd. split.
  - now apply get_objects_handler_answers.
  - now apply (get_object_info_handler_answers _ _ _ decoded).
Qed.

Lemma listing_handlers_answer_witness :
  (exists message,
     get_objects_handler decode_any ∅ unreachable "a/" =
       Ok (HTTPException 500 (Some message))) /\
  (exists e,
     get_object_info_handler decode_any unreachable "a/x.txt" =
       Ok (HTTPException 500 (Some e))).
Proof.
  split.
  - destruct (listing_handlers_answer decode_any ∅ (@unreachable string listing)
                (@unreachable string head_response) "a/" "a/" eq_refl)
      as [[(response & Hm & _)|(message & _ & Hh)] _].
    + vm_compute in Hm. discriminate.
    + exists message. exact Hh.
  - destruct (listing_handlers_answer decode_any ∅ (@unreachable string listing)
                (@unreachable string head_response) "a/x.txt" "a/x.txt" eq_refl)
      as [_ [(details & Hm & _)|(e & _ & Hh)]].
    + vm_compute in Hm. discriminate.
    + exists e. exact Hh.
Defined.

(** X23.  A failure of the store call behind GET /objects, GET
    /object_info and DELETE /object is answered with status 500 and a
    detail that carries the exception: its message, the exception itself,
    and the message after "Could not delete object". *)
Theorem store_failure_is_500 b64decode bucket cache s3_list_objects_v2
    s3_head_object s3_delete_object param key e :
  b64decode param = Response key ->
  (s3_list_objects_v2 key = Fault e ->
   get_objects_handler b64decode cache s3_list_objects_v2 param =
     Ok (HTTPException 500 (Some (str_exn e)))) /\
  (s3_head_object key = Fault e ->
   get_object_info_handler b64decode s3_head_object param =
     Ok (HTTPException 500 (Some e))) /\
  (s3_delete_object key = Fault e ->
   delete_object_handler b64decode bucket s3_delete_object param =
     Ok (HTTPException 500
           (Some ("Could not delete object '" +:+ key +:+ "' , " +:+ str_exn e)))).
Proof. apply store_fault_is_500. Qed.

Lemma store_failure_is_500_witness :
  get_objects_handler decode_any ∅ unreachable "a/" =
    Ok (HTTPException 500 (Some "Could not connect to the endpoint URL")) /\
  delete_object_handler decode_any "bk" unreachable "a/x.txt" =
    Ok (HTTPException 500
          (Some "Could not delete object 'a/x.txt' , Could not connect to the endpoint URL")).
Proof.
  destruct (store_failure_is_500 decode_any "bk" ∅
              (@unreachable string listing) (@unreachable string head_response)
              (@unreachable string (option Z)) "a/" "a/"
              (ClientError "Could not connect to the endpoint URL") eq_refl)
    as (H1 & _ & _).
  destruct (store_failure_is_500 decode_any "bk" ∅
              (@unreachable string listing) (@unreachable string head_response)
              (@unreachable string (option Z)) "a/x.txt" "a/x.txt"
              (ClientError "Could not connect to the endpoint URL") eq_refl)
    as (_ & _ & H3).
  split; [exact (H1 eq_refl) | exact (H3 eq_refl)].
Defined.

(** X24.  DELETE /object answers 200 whenever the store call returns:
    a store status other than 204 changes only the message, which then
    starts with "Failed to delete object". *)
Theorem delete_handler_answers_200 b64decode bucket s3_delete_object
    param key status :
  b64decode param = Response key ->
  s3_delete_object key = Response status ->
  exists message,
    delete_object_handler b64decode bucket s3_delete_object param =
      Ok (JSONResponse message 200) /\
    (status <> Some 204 ->
     message = "Failed to delete object '" +:+ key +:+ "' from bucket '"
                 +:+ bucket +:+ "'.").
Proof. apply delete_object_handler_200. Qed.

Lemma delete_handler_answers_200_witness :
  delete_object_handler decode_any "bk" (fun _ => Response (Some 403)) "a/x.txt" =
    Ok (JSONResponse "Failed to delete object 'a/x.txt' from bucket 'bk'." 200).
Proof.
  destruct (delete_handler_answers_200 decode_any "bk"
              (fun _ => Response (Some 403)) "a/x.txt" "a/x.txt" (Some 403)
              eq_refl eq_refl) as (message & Hh & Hm).
  rewrite Hh, Hm by discriminate. reflexivity.
Defined.

(** X25.  POST /object stores the upload under the decoded path followed
    by the file name.  It answers 200 when the store reports status 200
    and 500 when the store call fails or reports no status; when the
    store reports another status, [put_object] returns a bare dict and
    the handler ends in the ValueError of unpacking it. *)
Theorem put_handler_outcomes b64decode s3_put param path file_name data :
  b64decode param = Response path ->
  match s3_put (path +:+ file_name) data with
  | Response (Some status) =>
      if status =? 200
      then put_object_handler b64decode s3_put param file_name data =
           Ok (JSONResponse "hey" 200)
      else put_object_handler b64decode s3_put param file_name data =
           Ok (ValueError "not enough values to unpack (expected 2, got 1)")
  | Response None =>
      put_object_handler b64decode s3_put param file_name data =
      Ok (HTTPException 500 (Some "'HTTPStatusCode'"))
  | Fault e =>
      put_object_handler b64decode s3_put param file_name data =
      Ok (HTTPException 500 (Some (str_exn e)))
  end.
Proof. apply put_object_handler_cases. Qed.

Lemma put_handler_outcomes_witness :
  put_object_handler decode_any (fun _ _ => Response (Some 507)) "a/" "x.txt" "data"
  = Ok (ValueError "not enough values to unpack (expected 2, got 1)").
Proof.
  exact (put_handler_outcomes decode_any (fun _ _ => Response (Some 507))
           "a/" "a/" "x.txt" "data" eq_refl).
Defined.

(** X26.  A parameter that does not decode leaves each of the five
    handlers as the exception of the decoding, whatever the store would
    answer. *)
Theorem undecodable_parameter_escapes b64decode bucket cache s3_list_objects_v2
    s3_get_body s3_head_object s3_delete_object s3_put param e :
  b64decode param = Fault e ->
  get_objects_handler b64decode cache s3_list_objects_v2 param = Raise e /\
  get_object_info_handler b64decode s3_head_object param = Raise e /\
  get_object_handler b64decode s3_get_body param = Raise e /\
  delete_object_handler b64decode bucket s3_delete_object param = Raise e /\
  forall file_name data,
    put_object_handler b64decode s3_put param file_name data = Raise e.
Proof. apply handlers_undecodable. Qed.

Lemma undecodable_parameter_escapes_witness :
  get_objects_handler decode_none ∅ sample_client "a" =
    Raise (ClientError "Incorrect padding") /\
  get_object_handler decode_sample (fun _ => Response "data") "a" =
    Raise (ClientError "Incorrect padding").
Proof.
  split.
  - exact (proj1 (undecodable_parameter_escapes decode_none "bk" ∅ sample_client
                    (@unreachable string string)
                    (@unreachable string head_response)
                    (@unreachable string (option Z))
                    (fun _ _ => @unreachable string (option Z) "") "a"
                    (ClientError "Incorrect padding") eq_refl)).
  - destruct (undecodable_parameter_escapes decode_sample "bk" ∅ sample_client
                (fun _ => Response "data")
                (@unreachable string head_response)
                (@unreachable string (option Z))
                (fun _ _ => @unreachable string (option Z) "") "a"
                (ClientError "Incorrect padding") eq_refl)
      as (_ & _ & H & _).
    exact H.
Defined.

(** X27.  [get_buckets] returns the names of the store's buckets, all of
    them and in the store's order; it has no handler, so a failure of
    the store leaves it as an exception. *)
Theorem get_buckets_returns_names (s3_buckets_all : reply (list string)) :
  get_buckets s3_buckets_all =
  match s3_buckets_all with
  | Response names => Ok names
  | Fault e => Raise e
  end.
Proof. apply get_buckets_names. Qed.

(** X28.  [create_bucket] and [delete_bucket] return True exactly when
    the store call returns, and raise SystemExit with code 0 exactly
    when the store call raises an exception, which their handler
    replaces: they never return False, and no exception of the store
    leaves them. *)
Theorem bucket_calls_return_true_or_exit s3_create_bucket s3_bucket_delete name :
  (create_bucket s3_create_bucket name = Returned true <->
     exists answer, s3_create_bucket name = Response answer) /\
  (create_bucket s3_create_bucket name = Raised (SystemExit 0) <->
     exists e, s3_create_bucket name = Fault e) /\
  (delete_bucket s3_bucket_delete name = Returned true <->
     exists answer, s3_bucket_delete name = Response answer) /\
  (delete_bucket s3_bucket_delete name = Raised (SystemExit 0) <->
     exists e, s3_bucket_delete name = Fault e) /\
  create_bucket s3_create_bucket name <> Returned false /\
  delete_bucket s3_bucket_delete name <> Returned false.
Proof.
  unfold create_bucket, delete_bucket, exit.
  destruct (s3_create_bucket name) as [a|e], (s3_bucket_delete name) as [a'|e'];
    repeat split; try discriminate; eauto;
    intros [x Hx]; discriminate.
Qed.

Lemma bucket_calls_return_true_or_exit_witness :
  create_bucket unreachable "bk" = Raised (SystemExit 0) /\
  delete_bucket (fun _ => Response tt) "bk" = Returned true.
Proof.
  destruct (bucket_calls_return_true_or_exit
              (@unreachable string unit) (fun _ => Response tt) "bk")
    as (_ & Hc & Hd & _).
  split; [apply Hc | apply Hd]; eexists; reflexivity.
Defined.

(** X29.  When GET /object answers, the parameter decoded to a path,
    the body is the content the store holds under that path, and the
    Content-Disposition header names the part of the path after its last
    delimiter, unchanged by the Latin-1 round trip; the other headers are
    fixed. *)
Theorem get_object_handler_response b64decode s3_get_body param response :
  get_object_handler b64decode s3_get_body param = Ok response ->
  exists path name,
    b64decode param = Response path /\
    s3_get_body path = Response (content response) /\
    headers response =
      [("Content-Disposition", "attachment;filename=" +:+ name);
       ("Content-Type", "application/octet-stream");
       ("Access-Control-Expose-Headers", "Content-Disposition")] /\
    PyStr.contains slash name = false /\
    exists dir,
      path = dir +:+ name /\ (dir = "" \/ PyStr.endswith slash dir = true).
Proof.
  intros H.
  destruct (get_object_handler_ok _ _ _ _ H) as (path & name & Hd & Hg & Hh).
  destruct (get_object_name _ _ _ _ Hg) as (Hs & Hc & Hdir).
  exists path, name. auto.
Qed.

Lemma get_object_handler_response_witness :
  exists response,
    get_object_handler decode_sample (fun _ => Response "data") "YS94LnR4dA=="
      = Ok response /\
    content response = "data" /\
    headers response =
      [("Content-Disposition", "attachment;filename=x.txt");
       ("Content-Type", "application/octet-stream");
       ("Access-Control-Expose-Headers", "Content-Disposition")].
Proof.
  pose (r := get_object_handler decode_sample (fun _ => Response "data")
               "YS94LnR4dA==").
  pose (response := match r with
                    | Ok x => x
                    | _ => {| content := ""; headers := [] |}
                    end).
  assert (H : get_object_handler decode_sample (fun _ => Response "data")
                "YS94LnR4dA==" = Ok response) by (vm_compute; reflexivity).
  exists response. split; [exact H|].
  destruct (get_object_handler_response _ _ _ _ H)
    as (path & name & _ & _ & _ & _ & _).
  split; reflexivity.
Defined.

(** X30.  [refresh_cache] has no handler: the exception of the first
    listing call leaves it, and so does the exception of writing the
    bucket's file when the listings were answered; with both done it
    returns.  [load_cache] passes the exception on when the cache file
    is absent, while a snapshot stamped at or after the float
    [time() + 900] is returned without a call to the store or a write of
    the file. *)
Theorem refresh_failure_propagates bucket store s3_reachable write_json
    now refreshed prior e :
  (s3_reachable = Fault e ->
   refresh_cache bucket store s3_reachable write_json now prior = Raise e /\
   load_cache bucket store s3_reachable write_json now refreshed Absent
     = Raise e) /\
  (s3_reachable = Response tt -> write_json = Fault e ->
   refresh_cache bucket store s3_reachable write_json now prior = Raise e /\
   load_cache bucket store s3_reachable write_json now refreshed Absent
     = Raise e) /\
  (s3_reachable = Response tt -> write_json = Response tt ->
   is_ok (refresh_cache bucket store s3_reachable write_json now prior)) /\
  (forall content stamp,
     content !! "time" = Some stamp ->
     PyNum.lt_num stamp (PyNum.add_float now 900) = Ok false ->
     load_cache bucket store s3_reachable write_json now refreshed
       (Snapshot content) = Ok content).
Proof.
  split; [|split; [|split]].
  - intros Hs. split; now apply refresh_cache_unreachable.
  - intros Hs Hw. split; now apply refresh_cache_unwritable.
  - apply refresh_cache_total.
  - intros content stamp. apply load_cache_keeps.
Qed.

Lemma refresh_failure_propagates_witness :
  refresh_cache "bk" sample_store (Fault OSError) done (inject_Z 1000) stale_cache
    = Raise OSError /\
  refresh_cache "bk" sample_store done (Fault OSError) (inject_Z 1000) stale_cache
    = Raise OSError /\
  load_cache "bk" sample_store (Fault OSError) (Fault OSError)
    (inject_Z 1000) (inject_Z 1001) (Snapshot {["time" := PInt 5000]})
    = Ok {["time" := PInt 5000]}.
Proof.
  destruct (refresh_failure_propagates "bk" sample_store (Fault OSError) done
              (inject_Z 1000) (inject_Z 1001) stale_cache OSError)
    as (H1 & _).
  destruct (refresh_failure_propagates "bk" sample_store done (Fault OSError)
              (inject_Z 1000) (inject_Z 1001) stale_cache OSError)
    as (_ & H2 & _).
  destruct (refresh_failure_propagates "bk" sample_store (Fault OSError)
              (Fault OSError) (inject_Z 1000) (inject_Z 1001) stale_cache OSError)
    as (_ & _ & _ & H4).
  split; [exact (proj1 (H1 eq_refl))|].
  split; [exact (proj1 (H2 eq_refl eq_refl))|].
  apply (H4 _ (PInt 5000)); reflexivity.
Defined.
